(** * Service-attachment update: patch builder, list normalizers, pruning,
      and the edge-cloud API-key hook

    Shallow embedding of

      - googlecloudsdk/command_lib/compute/service_attachments/service_attachments_utils.py
      - surface/compute/service_attachments/update.py
      - googlecloudsdk/command_lib/edge_cloud/api_key/hooks.py

    Python objects are modelled by value.  The objects that the code
    mutates through a reference (the replacement message, [cleared_fields],
    the request of the hook) are threaded explicitly, and the fetched
    resource is kept in the store next to its copy so that "the original is
    not written" is a statement about the store.  Exceptions are values of
    [exn] carried by [result].  The builtin [int] is a parameter; [sorted]
    is modelled by a stable insertion sort, with the [TypeError] that
    ordering [None] against a value raises. *)

From Stdlib Require Import ZArith String Ascii List Bool Lia.
From stdpp Require Import base decidable option list strings gmap sorting.

Local Open Scope string_scope.
Local Open Scope Z_scope.

(** ** Python values, exceptions and builtins *)

Inductive exn : Type :=
| ValueError (msg : string)
    (* [raise ValueError(msg)] in the source *)
| IntValueError (literal : string)
    (* the ValueError of the builtin [int(literal)] *)
| TypeError
    (* [int(None)], iterating [None], or [<] between [None] and a value *)
| ConflictingArgumentsException (msg : string)
| RequiredArgumentException (parameter_name message : string).

Inductive result (A : Type) : Type :=
| Ok (a : A)
| Raise (e : exn).
Arguments Ok {A} a.
Arguments Raise {A} e.

Definition bind {A B} (m : result A) (k : A -> result B) : result B :=
  match m with
  | Ok a => k a
  | Raise e => Raise e
  end.

Notation "x <- m ;; k" := (bind m (fun x => k))
  (at level 100, m at next level, right associativity).

#[global] Instance exn_eq_dec : EqDecision exn.
Proof. solve_decision. Defined.
#[global] Instance result_eq_dec {A} `{EqDecision A} : EqDecision (result A).
Proof. solve_decision. Defined.

(** [for x in xs: body] over an accumulator, stopping at the first raise. *)
Fixpoint for_each {A S} (xs : list A) (body : A -> S -> result S) (s : S)
  : result S :=
  match xs with
  | [] => Ok s
  | x :: xs' => s' <- body x s;; for_each xs' body s'
  end.

(** Truth value of a [str]-or-[None]: [None] and [''] are falsy. *)
Definition truthy (v : option string) : bool :=
  match v with
  | Some (String _ _) => true
  | _ => false
  end.

(** [sub in s] on strings. *)
Fixpoint str_in (sub s : string) : bool :=
  String.prefix sub s ||
  match s with
  | EmptyString => false
  | String _ s' => str_in sub s'
  end.

(** [s.rstrip('/')]. *)
Fixpoint rstrip_slash (s : string) : string :=
  match s with
  | EmptyString => EmptyString
  | String c s' =>
      match rstrip_slash s' with
      | EmptyString => if Ascii.eqb c "/" then EmptyString else String c EmptyString
      | r => String c r
      end
  end.

(** [s.split('/')[-1]]: the text after the last ['/'] ([acc] is the segment
    read so far). *)
Fixpoint last_segment_from (acc s : string) : string :=
  match s with
  | EmptyString => acc
  | String c s' =>
      if Ascii.eqb c "/" then last_segment_from EmptyString s'
      else last_segment_from (acc ++ String c EmptyString) s'
  end.

Definition last_segment (s : string) : string :=
  last_segment_from EmptyString s.

(** [url.rstrip('/').split('/')[-1]]. *)
Definition trailing_id (url : string) : string :=
  last_segment (rstrip_slash url).

(** [xs.append(x)]. *)
Definition list_append {A} (xs : list A) (x : A) : list A :=
  (xs ++ [x])%list.

(** [x in xs] and [xs.remove(x)] (first occurrence) on a list of strings. *)
Definition list_in (x : string) (xs : list string) : bool :=
  bool_decide (x ∈ xs).

Fixpoint list_remove (x : string) (xs : list string) : list string :=
  match xs with
  | [] => []
  | y :: xs' => if decide (x = y) then xs' else y :: list_remove x xs'
  end.

(** *** [sorted]

    [sorted] is stable and only ever asks [key a < key b].  On keys that
    are totally ordered its result is the stable insertion sort below. *)
Section stable_sort.
Context {A K : Type} (ltb : K -> K -> bool) (key : A -> K).

Fixpoint insort (x : A) (l : list A) : list A :=
  match l with
  | [] => [x]
  | y :: l' =>
      if ltb (key y) (key x) then y :: insort x l' else x :: y :: l'
  end.

Definition stable_sort (l : list A) : list A := foldr insort [] l.
End stable_sort.

(** [sorted(xs)] on a list of [str]: code-point order, which on UTF-8
    bytes is the byte-wise order of [String.ltb]. *)
Definition sorted_str (xs : list string) : list string :=
  stable_sort String.ltb id xs.

(** A [dict] with [str] keys, as its items in iteration order; the keys of
    a dict are pairwise distinct ([dict_wf]).  The values are the raw flag
    values: a [str], or [None] for a key given without a value. *)
Definition dict : Type := list (string * option string).

Definition dict_wf (d : dict) : bool := bool_decide (NoDup (d.*1)).

(** [sorted(six.iteritems(d))]: items are compared as tuples, and as the
    keys of a dict differ pairwise the comparison is decided by the key. *)
Definition sorted_items (d : dict) : list (string * option string) :=
  stable_sort String.ltb fst d.

(** Keys [(identifier, limit)] whose components may be [None].  Python
    compares tuples at the first component where they differ; [None] is
    equal to itself and unordered against anything else. *)
Definition limit_key : Type := option string * option Z.

Definition comparable (k1 k2 : limit_key) : bool :=
  if decide (k1.1 = k2.1) then
    if decide (k1.2 = k2.2) then true
    else match k1.2, k2.2 with Some _, Some _ => true | _, _ => false end
  else match k1.1, k2.1 with Some _, Some _ => true | _, _ => false end.

Definition opt_ltb {T} (ltb : T -> T -> bool) (o1 o2 : option T) : bool :=
  match o1, o2 with
  | None, None => false
  | None, Some _ => true
  | Some _, None => false
  | Some a, Some b => ltb a b
  end.

(** [k1 < k2] where it is defined (on [comparable] keys); elsewhere [None]
    is placed first, which [sorted_by_key] never relies on. *)
Definition key_ltb (k1 k2 : limit_key) : bool :=
  if decide (k1.1 = k2.1) then opt_ltb Z.ltb k1.2 k2.2
  else opt_ltb String.ltb k1.1 k2.1.

(** [k1 < k2] in Python. *)
Definition py_lt (k1 k2 : limit_key) : result bool :=
  if comparable k1 k2 then Ok (key_ltb k1 k2) else Raise TypeError.

Definition all_comparable {A} (key : A -> limit_key) (l : list A) : bool :=
  forallb (fun x => forallb (fun y => comparable (key x) (key y)) l) l.

(** [sorted(l, key=key)].  The builtin is a stable comparison sort that
    only asks [key a < key b].  Placing [None] before or after every
    other value gives two total orders that agree with Python's [<]
    wherever it is defined and that order an incomparable pair in opposite
    ways; a run that never compared such a pair would be a run for both
    orders and would have to return both stable sorts, which differ.  So
    the call raises [TypeError] exactly when two keys of [l] are not
    comparable, and otherwise returns the stable sort.  ([sort_py] below is
    one such sort written out with [py_lt]; it is shown to agree.) *)
Definition sorted_by_key {A} (key : A -> limit_key) (l : list A)
  : result (list A) :=
  if all_comparable key l then Ok (stable_sort key_ltb key l)
  else Raise TypeError.

(** Insertion sort asking Python's [<], raising as soon as [<] raises. *)
Fixpoint insort_py {A} (key : A -> limit_key) (x : A) (l : list A)
  : result (list A) :=
  match l with
  | [] => Ok [x]
  | y :: l' =>
      b <- py_lt (key y) (key x);;
      if (b : bool) then l'' <- insort_py key x l';; Ok (y :: l'')
      else Ok (x :: y :: l')
  end.

Fixpoint sort_py {A} (key : A -> limit_key) (l : list A) : result (list A) :=
  match l with
  | [] => Ok []
  | x :: l' => sorted_tail <- sort_py key l';; insort_py key x sorted_tail
  end.

(** ** Messages of the compute API used by the command *)

Module messages.

Inductive ConnectionPreferenceValueValuesEnum : Type :=
| ACCEPT_AUTOMATIC
| ACCEPT_MANUAL
| CONNECTION_PREFERENCE_UNSPECIFIED.

Record ServiceAttachmentConsumerProjectLimit : Type := {
  projectIdOrNum : option string;
  networkUrl : option string;
  endpointUrl : option string;
  connectionLimit : option Z;
}.

Record ServiceAttachmentConnectedEndpoint : Type := {
  endpointWithId : option string;
  endpoint : option string;
}.

(** [otherFields] stands for every field of the message that the command
    never reads or writes (name, region, fingerprint, ...).  The code
    tests its repeated fields with [is None] and [or []]; [None] is the
    state these tests name.  A repeated field of an apitools message
    that has not been set reads [[]], that is [Some []]. *)
Record ServiceAttachment : Type := {
  targetService : option string;
  description : option string;
  connectionPreference : option ConnectionPreferenceValueValuesEnum;
  enableProxyProtocol : option bool;
  natSubnets : option (list string);
  consumerRejectLists : option (list string);
  consumerAcceptLists : option (list ServiceAttachmentConsumerProjectLimit);
  connectedEndpoints : option (list ServiceAttachmentConnectedEndpoint);
  reconcileConnections : option bool;
  propagatedConnectionLimit : option Z;
  otherFields : list (string * string);
}.

#[global] Instance ConnectionPreference_eq_dec :
  EqDecision ConnectionPreferenceValueValuesEnum.
Proof. solve_decision. Defined.
#[global] Instance ConsumerProjectLimit_eq_dec :
  EqDecision ServiceAttachmentConsumerProjectLimit.
Proof. solve_decision. Defined.
#[global] Instance ConnectedEndpoint_eq_dec :
  EqDecision ServiceAttachmentConnectedEndpoint.
Proof. solve_decision. Defined.
#[global] Instance ServiceAttachment_eq_dec : EqDecision ServiceAttachment.
Proof. solve_decision. Defined.

End messages.

(** ** The parsed arguments of [service-attachments update]

    A field is [None] when [args.IsSpecified] is false for it.
    [nat_subnets] holds the self links of the resolved subnetwork
    references: the resolution itself
    ([NAT_SUBNETWORK_ARG.ResolveAsResource]) is a collaborator that may
    raise, and only a resolution that has returned is covered. *)
Record Namespace : Type := {
  target_service : option string;
  description : option string;
  connection_preference : option string;
  enable_proxy_protocol : option bool;
  nat_subnets : option (list string);
  consumer_reject_list : option (list string);
  consumer_accept_list : option (list dict);
  remove_obsolete_endpoint_accept_reject_entries : bool;
  reconcile_connections : option bool;
  propagated_connection_limit : option Z;
}.

(** [int(v)] for a raw flag value, given the builtin on [str]. *)
Definition py_int (int : string -> option Z) (v : option string) : result Z :=
  match v with
  | None => Raise TypeError
  | Some s =>
      match int s with
      | Some n => Ok n
      | None => Raise (IntValueError s)
      end
  end.

(** Field names used with [IncludeFields]. *)
Definition consumerAcceptLists_name : string := "consumerAcceptLists".
Definition consumerRejectLists_name : string := "consumerRejectLists".

(** Assignments [service_attachment.field = v] to a [ServiceAttachment]. *)
Module assign.
Definition targetService v (sa : messages.ServiceAttachment)
  : messages.ServiceAttachment :=
  {| messages.targetService := v;
     messages.description := sa.(messages.description);
     messages.connectionPreference := sa.(messages.connectionPreference);
     messages.enableProxyProtocol := sa.(messages.enableProxyProtocol);
     messages.natSubnets := sa.(messages.natSubnets);
     messages.consumerRejectLists := sa.(messages.consumerRejectLists);
     messages.consumerAcceptLists := sa.(messages.consumerAcceptLists);
     messages.connectedEndpoints := sa.(messages.connectedEndpoints);
     messages.reconcileConnections := sa.(messages.reconcileConnections);
     messages.propagatedConnectionLimit := sa.(messages.propagatedConnectionLimit);
     messages.otherFields := sa.(messages.otherFields) |}.

Definition description v (sa : messages.ServiceAttachment)
  : messages.ServiceAttachment :=
  {| messages.targetService := sa.(messages.targetService);
     messages.description := v;
     messages.connectionPreference := sa.(messages.connectionPreference);
     messages.enableProxyProtocol := sa.(messages.enableProxyProtocol);
     messages.natSubnets := sa.(messages.natSubnets);
     messages.consumerRejectLists := sa.(messages.consumerRejectLists);
     messages.consumerAcceptLists := sa.(messages.consumerAcceptLists);
     messages.connectedEndpoints := sa.(messages.connectedEndpoints);
     messages.reconcileConnections := sa.(messages.reconcileConnections);
     messages.propagatedConnectionLimit := sa.(messages.propagatedConnectionLimit);
     messages.otherFields := sa.(messages.otherFields) |}.

Definition connectionPreference v (sa : messages.ServiceAttachment)
  : messages.ServiceAttachment :=
  {| messages.targetService := sa.(messages.targetService);
     messages.description := sa.(messages.description);
     messages.connectionPreference := v;
     messages.enableProxyProtocol := sa.(messages.enableProxyProtocol);
     messages.natSubnets := sa.(messages.natSubnets);
     messages.consumerRejectLists := sa.(messages.consumerRejectLists);
     messages.consumerAcceptLists := sa.(messages.consumerAcceptLists);
     messages.connectedEndpoints := sa.(messages.connectedEndpoints);
     messages.reconcileConnections := sa.(messages.reconcileConnections);
     messages.propagatedConnectionLimit := sa.(messages.propagatedConnectionLimit);
     messages.otherFields := sa.(messages.otherFields) |}.

Definition enableProxyProtocol v (sa : messages.ServiceAttachment)
  : messages.ServiceAttachment :=
  {| messages.targetService := sa.(messages.targetService);
     messages.description := sa.(messages.description);
     messages.connectionPreference := sa.(messages.connectionPreference);
     messages.enableProxyProtocol := v;
     messages.natSubnets := sa.(messages.natSubnets);
     messages.consumerRejectLists := sa.(messages.consumerRejectLists);
     messages.consumerAcceptLists := sa.(messages.consumerAcceptLists);
     messages.connectedEndpoints := sa.(messages.connectedEndpoints);
     messages.reconcileConnections := sa.(messages.reconcileConnections);
     messages.propagatedConnectionLimit := sa.(messages.propagatedConnectionLimit);
     messages.otherFields := sa.(messages.otherFields) |}.

Definition natSubnets v (sa : messages.ServiceAttachment)
  : messages.ServiceAttachment :=
  {| messages.targetService := sa.(messages.targetService);
     messages.description := sa.(messages.description);
     messages.connectionPreference := sa.(messages.connectionPreference);
     messages.enableProxyProtocol := sa.(messages.enableProxyProtocol);
     messages.natSubnets := v;
     messages.consumerRejectLists := sa.(messages.consumerRejectLists);
     messages.consumerAcceptLists := sa.(messages.consumerAcceptLists);
     messages.connectedEndpoints := sa.(messages.connectedEndpoints);
     messages.reconcileConnections := sa.(messages.reconcileConnections);
     messages.propagatedConnectionLimit := sa.(messages.propagatedConnectionLimit);
     messages.otherFields := sa.(messages.otherFields) |}.

Definition consumerRejectLists v (sa : messages.ServiceAttachment)
  : messages.ServiceAttachment :=
  {| messages.targetService := sa.(messages.targetService);
     messages.description := sa.(messages.description);
     messages.connectionPreference := sa.(messages.connectionPreference);
     messages.enableProxyProtocol := sa.(messages.enableProxyProtocol);
     messages.natSubnets := sa.(messages.natSubnets);
     messages.consumerRejectLists := v;
     messages.consumerAcceptLists := sa.(messages.consumerAcceptLists);
     messages.connectedEndpoints := sa.(messages.connectedEndpoints);
     messages.reconcileConnections := sa.(messages.reconcileConnections);
     messages.propagatedConnectionLimit := sa.(messages.propagatedConnectionLimit);
     messages.otherFields := sa.(messages.otherFields) |}.

Definition consumerAcceptLists v (sa : messages.ServiceAttachment)
  : messages.ServiceAttachment :=
  {| messages.targetService := sa.(messages.targetService);
     messages.description := sa.(messages.description);
     messages.connectionPreference := sa.(messages.connectionPreference);
     messages.enableProxyProtocol := sa.(messages.enableProxyProtocol);
     messages.natSubnets := sa.(messages.natSubnets);
     messages.consumerRejectLists := sa.(messages.consumerRejectLists);
     messages.consumerAcceptLists := v;
     messages.connectedEndpoints := sa.(messages.connectedEndpoints);
     messages.reconcileConnections := sa.(messages.reconcileConnections);
     messages.propagatedConnectionLimit := sa.(messages.propagatedConnectionLimit);
     messages.otherFields := sa.(messages.otherFields) |}.

Definition reconcileConnections v (sa : messages.ServiceAttachment)
  : messages.ServiceAttachment :=
  {| messages.targetService := sa.(messages.targetService);
     messages.description := sa.(messages.description);
     messages.connectionPreference := sa.(messages.connectionPreference);
     messages.enableProxyProtocol := sa.(messages.enableProxyProtocol);
     messages.natSubnets := sa.(messages.natSubnets);
     messages.consumerRejectLists := sa.(messages.consumerRejectLists);
     messages.consumerAcceptLists := sa.(messages.consumerAcceptLists);
     messages.connectedEndpoints := sa.(messages.connectedEndpoints);
     messages.reconcileConnections := v;
     messages.propagatedConnectionLimit := sa.(messages.propagatedConnectionLimit);
     messages.otherFields := sa.(messages.otherFields) |}.

Definition propagatedConnectionLimit v (sa : messages.ServiceAttachment)
  : messages.ServiceAttachment :=
  {| messages.targetService := sa.(messages.targetService);
     messages.description := sa.(messages.description);
     messages.connectionPreference := sa.(messages.connectionPreference);
     messages.enableProxyProtocol := sa.(messages.enableProxyProtocol);
     messages.natSubnets := sa.(messages.natSubnets);
     messages.consumerRejectLists := sa.(messages.consumerRejectLists);
     messages.consumerAcceptLists := sa.(messages.consumerAcceptLists);
     messages.connectedEndpoints := sa.(messages.connectedEndpoints);
     messages.reconcileConnections := sa.(messages.reconcileConnections);
     messages.propagatedConnectionLimit := v;
     messages.otherFields := sa.(messages.otherFields) |}.
End assign.

(** ** service_attachments_utils.py *)

Module service_attachments_utils.

Section with_int.
(** The builtin [int] on a [str]. *)
Variable int : string -> option Z.

(** Get connection preference of the service attachment. *)
Definition GetConnectionPreference (args : Namespace)
  : option messages.ConnectionPreferenceValueValuesEnum :=
  if decide (args.(connection_preference) = Some "ACCEPT_AUTOMATIC")
  then Some messages.ACCEPT_AUTOMATIC
  else if decide (args.(connection_preference) = Some "ACCEPT_MANUAL")
  then Some messages.ACCEPT_MANUAL
  else None.

Definition unsupported_endpoint_msg : string :=
  "Private Service Connect Endpoint URL is not supported for consumer accept list".

(** Body of the inner loop of [GetConsumerAcceptList]. *)
Definition accept_list_entry
    (item : string * option string)
    (consumer_accept_list : list messages.ServiceAttachmentConsumerProjectLimit)
  : result (list messages.ServiceAttachmentConsumerProjectLimit) :=
  let project_id_or_network_url := item.1 in
  let conn_limit := item.2 in
  if str_in "/networks/" project_id_or_network_url then
    n <- py_int int conn_limit;;
    Ok (list_append consumer_accept_list
            {| messages.projectIdOrNum := None;
               messages.networkUrl := Some project_id_or_network_url;
               messages.endpointUrl := None;
               messages.connectionLimit := Some n |})
  else if str_in "/forwardingRules/" project_id_or_network_url then
    Raise (ValueError unsupported_endpoint_msg)
  else
    n <- py_int int conn_limit;;
    Ok (list_append consumer_accept_list
            {| messages.projectIdOrNum := Some project_id_or_network_url;
               messages.networkUrl := None;
               messages.endpointUrl := None;
               messages.connectionLimit := Some n |}).

(** Get consumer accept list of the service attachment. *)
Definition GetConsumerAcceptList (args : Namespace)
  : result (list messages.ServiceAttachmentConsumerProjectLimit) :=
  match args.(consumer_accept_list) with
  | None => Raise TypeError
  | Some dicts =>
      for_each dicts
        (fun project_limit acc =>
           for_each (sorted_items project_limit) accept_list_entry acc)
        []
  end.

Definition network_limit_required_msg (consumer_entry : string) : string :=
  "Connection limit is required for network URL: " ++ consumer_entry.

Definition project_limit_required_msg (consumer_entry : string) : string :=
  "Connection limit is required for project ID or number: " ++ consumer_entry.

(** Body of the inner loop of
    [GetConsumerAcceptListWithEndpointBasedSecurity]. *)
Definition accept_list_entry_ebs
    (item : string * option string)
    (consumer_accept_list : list messages.ServiceAttachmentConsumerProjectLimit)
  : result (list messages.ServiceAttachmentConsumerProjectLimit) :=
  let consumer_entry := item.1 in
  let conn_limit_raw := item.2 in
  if str_in "/networks/" consumer_entry then
    if negb (truthy conn_limit_raw) then
      Raise (ValueError (network_limit_required_msg consumer_entry))
    else
      n <- py_int int conn_limit_raw;;
      Ok (list_append consumer_accept_list
            {| messages.projectIdOrNum := None;
               messages.networkUrl := Some consumer_entry;
               messages.endpointUrl := None;
               messages.connectionLimit := Some n |})
  else if str_in "/forwardingRules/" consumer_entry then
    if truthy conn_limit_raw then
      n <- py_int int conn_limit_raw;;
      Ok (list_append consumer_accept_list
            {| messages.projectIdOrNum := None;
               messages.networkUrl := None;
               messages.endpointUrl := Some consumer_entry;
               messages.connectionLimit := Some n |})
    else
      Ok (list_append consumer_accept_list
            {| messages.projectIdOrNum := None;
               messages.networkUrl := None;
               messages.endpointUrl := Some consumer_entry;
               messages.connectionLimit := None |})
  else
    if negb (truthy conn_limit_raw) then
      Raise (ValueError (project_limit_required_msg consumer_entry))
    else
      n <- py_int int conn_limit_raw;;
      Ok (list_append consumer_accept_list
            {| messages.projectIdOrNum := Some consumer_entry;
               messages.networkUrl := None;
               messages.endpointUrl := None;
               messages.connectionLimit := Some n |}).

(** Get consumer accept list of the service attachment with endpoint
    based security supported. *)
Definition GetConsumerAcceptListWithEndpointBasedSecurity (args : Namespace)
  : result (list messages.ServiceAttachmentConsumerProjectLimit) :=
  match args.(consumer_accept_list) with
  | None => Raise TypeError
  | Some dicts =>
      for_each dicts
        (fun project_limit acc =>
           for_each (sorted_items project_limit) accept_list_entry_ebs acc)
        []
  end.
End with_int.

(** Get connected endpoint resource IDs from service attachment. *)
Definition GetConnectedEndpointIds
    (service_attachment : messages.ServiceAttachment) : gset string :=
  list_to_set
    (omap (fun ep =>
             if truthy ep.(messages.endpointWithId)
             then trailing_id <$> ep.(messages.endpointWithId)
             else None)
          (default [] service_attachment.(messages.connectedEndpoints))).

(** The [filter] lambda of [CleanObsoleteAcceptedEndpointUrls]. *)
Definition keep_accepted (connected_endpoint_ids : gset string)
    (entry : messages.ServiceAttachmentConsumerProjectLimit) : bool :=
  match entry.(messages.endpointUrl) with
  | Some (String c u) =>
      bool_decide (trailing_id (String c u) ∈ connected_endpoint_ids)
  | _ => true
  end.

(** Removes consumer accept list entries with endpointUrls that are not in
    connectedEndpoints.  Returns the flag together with the attachment and
    the [cleared_fields] list as the call leaves them. *)
Definition CleanObsoleteAcceptedEndpointUrls
    (service_attachment : messages.ServiceAttachment)
    (connected_endpoint_ids : gset string)
    (cleared_fields : list string)
  : bool * messages.ServiceAttachment * list string :=
  match service_attachment.(messages.consumerAcceptLists) with
  | None | Some [] => (false, service_attachment, cleared_fields)
  | Some accept_list =>
      let old_accept_list_len := length accept_list in
      let cleaned_accept_list :=
        List.filter (keep_accepted connected_endpoint_ids) accept_list in
      let service_attachment :=
        assign.consumerAcceptLists (Some cleaned_accept_list)
          service_attachment in
      let cleaned_accept_list_len := length cleaned_accept_list in
      if decide (cleaned_accept_list_len = old_accept_list_len) then
        (false, service_attachment, cleared_fields)
      else if bool_decide (cleaned_accept_list = [])
              && negb (list_in consumerAcceptLists_name cleared_fields) then
        (true, service_attachment,
         list_append cleared_fields consumerAcceptLists_name)
      else if negb (bool_decide (cleaned_accept_list = []))
              && list_in consumerAcceptLists_name cleared_fields then
        (true, service_attachment,
         list_remove consumerAcceptLists_name cleared_fields)
      else (true, service_attachment, cleared_fields)
  end.

(** The [filter] lambda of [CleanObsoleteRejectedEndpointUrls]. *)
Definition keep_rejected (connected_endpoint_ids : gset string)
    (entry : string) : bool :=
  negb (str_in "/forwardingRules/" entry)
  || bool_decide (trailing_id entry ∈ connected_endpoint_ids).

(** Removes consumer reject list entries with endpointUrls that are not in
    connectedEndpoints. *)
Definition CleanObsoleteRejectedEndpointUrls
    (service_attachment : messages.ServiceAttachment)
    (connected_endpoint_ids : gset string)
    (cleared_fields : list string)
  : bool * messages.ServiceAttachment * list string :=
  match service_attachment.(messages.consumerRejectLists) with
  | None | Some [] => (false, service_attachment, cleared_fields)
  | Some reject_list =>
      let old_reject_list_len := length reject_list in
      let cleaned_reject_list :=
        List.filter (keep_rejected connected_endpoint_ids) reject_list in
      let service_attachment :=
        assign.consumerRejectLists (Some cleaned_reject_list)
          service_attachment in
      let cleaned_reject_list_len := length cleaned_reject_list in
      if decide (cleaned_reject_list_len = old_reject_list_len) then
        (false, service_attachment, cleared_fields)
      else if bool_decide (cleaned_reject_list = [])
              && negb (list_in consumerRejectLists_name cleared_fields) then
        (true, service_attachment,
         list_append cleared_fields consumerRejectLists_name)
      else if negb (bool_decide (cleaned_reject_list = []))
              && list_in consumerRejectLists_name cleared_fields then
        (true, service_attachment,
         list_remove consumerRejectLists_name cleared_fields)
      else (true, service_attachment, cleared_fields)
  end.

End service_attachments_utils.

(** ** update.py: class [UpdateHelper] *)

Module UpdateHelper.

(** The objects [_Modify] works on: the fetched resource and the
    [cleared_fields] list, both owned by [Run] and passed by reference,
    and the two locals [replacement] and [is_updated]. *)
Record Store : Type := {
  old_resource : messages.ServiceAttachment;
  cleared_fields : list string;
  replacement : messages.ServiceAttachment;
  is_updated : bool;
}.

Definition set_replacement (v : messages.ServiceAttachment) (st : Store) :=
  {| old_resource := st.(old_resource); cleared_fields := st.(cleared_fields);
     replacement := v; is_updated := st.(is_updated) |}.

Definition set_is_updated (v : bool) (st : Store) :=
  {| old_resource := st.(old_resource); cleared_fields := st.(cleared_fields);
     replacement := st.(replacement); is_updated := v |}.

Definition set_cleared_fields (v : list string) (st : Store) :=
  {| old_resource := st.(old_resource); cleared_fields := v;
     replacement := st.(replacement); is_updated := st.(is_updated) |}.

(** What [Run] does after fetching [old_resource]: it returns the fetched
    resource, or issues a Patch request for [replacement] inside
    [IncludeFields(cleared_fields)]. *)
Inductive outcome : Type :=
| ReturnOldResource (old_resource : messages.ServiceAttachment)
| PatchRequest (replacement : messages.ServiceAttachment)
    (include_fields : list string).

#[global] Instance Store_eq_dec : EqDecision Store.
Proof. solve_decision. Defined.
#[global] Instance outcome_eq_dec : EqDecision outcome.
Proof. solve_decision. Defined.

Definition conflicting_msg : string :=
  "--remove-obsolete-endpoint-accept-reject-entries cannot be specified with --consumer-accept-list or --consumer-reject-list.".

Definition _GetProjectOrNetwork
    (consumer_limit : messages.ServiceAttachmentConsumerProjectLimit)
  : limit_key :=
  match consumer_limit.(messages.projectIdOrNum) with
  | Some _ =>
      (consumer_limit.(messages.projectIdOrNum),
       consumer_limit.(messages.connectionLimit))
  | None =>
      (consumer_limit.(messages.networkUrl),
       consumer_limit.(messages.connectionLimit))
  end.

Definition _GetProjectOrNetworkOrEndpoint
    (consumer_limit : messages.ServiceAttachmentConsumerProjectLimit)
  : limit_key :=
  match consumer_limit.(messages.projectIdOrNum) with
  | Some _ =>
      (consumer_limit.(messages.projectIdOrNum),
       consumer_limit.(messages.connectionLimit))
  | None =>
      match consumer_limit.(messages.endpointUrl) with
      | Some _ =>
          (consumer_limit.(messages.endpointUrl),
           consumer_limit.(messages.connectionLimit))
      | None =>
          (consumer_limit.(messages.networkUrl),
           consumer_limit.(messages.connectionLimit))
      end
  end.

(** Returns nat subnetwork urls from the argument, the references being
    resolved already (see [Namespace]). *)
Definition _GetNatSubnets (args : Namespace) : list string :=
  match args.(nat_subnets) with
  | None => []
  | Some nat_subnetwork_refs => nat_subnetwork_refs
  end.

(** Removes obsolete endpoint entries from accept and reject lists. *)
Definition _RemoveObsoleteEndpointEntries
    (replacement : messages.ServiceAttachment) (cleared_fields : list string)
  : bool * messages.ServiceAttachment * list string :=
  let is_updated := false in
  let connected_endpoint_ids :=
    service_attachments_utils.GetConnectedEndpointIds replacement in
  let '(accepted, replacement, cleared_fields) :=
    service_attachments_utils.CleanObsoleteAcceptedEndpointUrls
      replacement connected_endpoint_ids cleared_fields in
  let is_updated := if accepted then true else is_updated in
  let '(rejected, replacement, cleared_fields) :=
    service_attachments_utils.CleanObsoleteRejectedEndpointUrls
      replacement connected_endpoint_ids cleared_fields in
  let is_updated := if rejected then true else is_updated in
  (is_updated, replacement, cleared_fields).

Section with_self.
Variable int : string -> option Z.
(** [self._support_endpoint_based_security_arg] *)
Variable _support_endpoint_based_security_arg : bool.

Definition _GetConsumerAcceptList (args : Namespace)
  : result (list messages.ServiceAttachmentConsumerProjectLimit) :=
  if _support_endpoint_based_security_arg then
    service_attachments_utils.GetConsumerAcceptListWithEndpointBasedSecurity
      int args
  else service_attachments_utils.GetConsumerAcceptList int args.

Definition _GetProjectOrNetworkOrEndpointBasedOnArg
    (consumer_limit : messages.ServiceAttachmentConsumerProjectLimit)
  : limit_key :=
  if _support_endpoint_based_security_arg then
    _GetProjectOrNetworkOrEndpoint consumer_limit
  else _GetProjectOrNetwork consumer_limit.

(** *** The statements of [_Modify], one definition per [if] block *)

Definition modify_target_service (args : Namespace) (st : Store) : Store :=
  match args.(target_service) with
  | Some target =>
      let st := set_is_updated true st in
      set_replacement
        (assign.targetService (Some target) st.(replacement)) st
  | None => st
  end.

Definition modify_description (args : Namespace) (st : Store) : Store :=
  match args.(description) with
  | Some d =>
      if negb (bool_decide
                 (Some d = st.(old_resource).(messages.description)))
      then
        let st :=
          set_replacement
            (assign.description (Some d) st.(replacement)) st in
        set_is_updated true st
      else st
  | None => st
  end.

Definition modify_connection_preference (args : Namespace) (st : Store)
  : Store :=
  match args.(connection_preference) with
  | Some _ =>
      let new_connection_preference :=
        service_attachments_utils.GetConnectionPreference args in
      if negb (bool_decide
                 (new_connection_preference
                  = st.(old_resource).(messages.connectionPreference)))
      then
        let st :=
          set_replacement
            (assign.connectionPreference new_connection_preference
               st.(replacement)) st in
        set_is_updated true st
      else st
  | None => st
  end.

Definition modify_enable_proxy_protocol (args : Namespace) (st : Store)
  : Store :=
  match args.(enable_proxy_protocol) with
  | Some b =>
      if negb (bool_decide
                 (Some b = st.(old_resource).(messages.enableProxyProtocol)))
      then
        let st :=
          set_replacement
            (assign.enableProxyProtocol (Some b) st.(replacement)) st in
        set_is_updated true st
      else st
  | None => st
  end.

Definition modify_nat_subnets (args : Namespace) (st : Store) : Store :=
  match args.(nat_subnets) with
  | Some _ =>
      let new_nat_subnets := sorted_str (_GetNatSubnets args) in
      if match st.(old_resource).(messages.natSubnets) with
         | None => true
         | Some old_nat_subnets =>
             negb (bool_decide
                     (new_nat_subnets = sorted_str old_nat_subnets))
         end
      then
        let st :=
          set_replacement
            (assign.natSubnets (Some new_nat_subnets) st.(replacement))
            st in
        set_is_updated true st
      else st
  | None => st
  end.

Definition modify_consumer_reject_list (args : Namespace) (st : Store)
  : Store :=
  match args.(consumer_reject_list) with
  | Some reject_list =>
      let new_reject_list := sorted_str reject_list in
      if match st.(old_resource).(messages.consumerRejectLists) with
         | None => true
         | Some old_reject_list =>
             negb (bool_decide
                     (new_reject_list = sorted_str old_reject_list))
         end
      then
        let st :=
          set_replacement
            (assign.consumerRejectLists (Some new_reject_list)
               st.(replacement)) st in
        let st := set_is_updated true st in
        if bool_decide (new_reject_list = []) then
          set_cleared_fields
            (list_append st.(cleared_fields) consumerRejectLists_name) st
        else st
      else st
  | None => st
  end.

Definition modify_consumer_accept_list (args : Namespace) (st : Store)
  : result Store :=
  match args.(consumer_accept_list) with
  | Some _ =>
      consumer_accept_list <- _GetConsumerAcceptList args;;
      new_accept_list <-
        sorted_by_key _GetProjectOrNetworkOrEndpointBasedOnArg
          consumer_accept_list;;
      differs <-
        match st.(old_resource).(messages.consumerAcceptLists) with
        | None => Ok true
        | Some old_accept_list =>
            sorted_old <-
              sorted_by_key _GetProjectOrNetworkOrEndpointBasedOnArg
                old_accept_list;;
            Ok (negb (bool_decide (new_accept_list = sorted_old)))
        end;;
      if (differs : bool) then
        let st :=
          set_replacement
            (assign.consumerAcceptLists (Some new_accept_list)
               st.(replacement)) st in
        let st := set_is_updated true st in
        if bool_decide (new_accept_list = []) then
          Ok (set_cleared_fields
                (list_append st.(cleared_fields) consumerAcceptLists_name)
                st)
        else Ok st
      else Ok st
  | None => Ok st
  end.

Definition modify_remove_obsolete (args : Namespace) (st : Store)
  : result Store :=
  if _support_endpoint_based_security_arg
     && args.(remove_obsolete_endpoint_accept_reject_entries)
  then
    if bool_decide (is_Some args.(consumer_accept_list))
       || bool_decide (is_Some args.(consumer_reject_list))
    then Raise (ConflictingArgumentsException conflicting_msg)
    else
      let '(updated, new_replacement, new_cleared_fields) :=
        _RemoveObsoleteEndpointEntries
          st.(replacement) st.(cleared_fields) in
      Ok (set_is_updated updated
            (set_cleared_fields new_cleared_fields
               (set_replacement new_replacement st)))
  else Ok st.

Definition modify_reconcile_connections (args : Namespace) (st : Store)
  : Store :=
  match args.(reconcile_connections) with
  | Some b =>
      if negb (bool_decide
                 (Some b = st.(old_resource).(messages.reconcileConnections)))
      then
        let st :=
          set_replacement
            (assign.reconcileConnections (Some b) st.(replacement)) st in
        set_is_updated true st
      else st
  | None => st
  end.

Definition modify_propagated_connection_limit (args : Namespace)
    (st : Store) : Store :=
  match args.(propagated_connection_limit) with
  | Some n =>
      if negb (bool_decide
                 (Some n
                  = st.(old_resource).(messages.propagatedConnectionLimit)))
      then
        let st :=
          set_replacement
            (assign.propagatedConnectionLimit (Some n) st.(replacement))
            st in
        set_is_updated true st
      else st
  | None => st
  end.

(** The store on entry: [replacement = encoding.CopyProtoMessage(old_resource)]
    and [is_updated = False]. *)
Definition enter (old_resource : messages.ServiceAttachment)
    (cleared_fields : list string) : Store :=
  {| old_resource := old_resource; cleared_fields := cleared_fields;
     replacement := old_resource; is_updated := false |}.

(** The body of [_Modify] up to its [return]. *)
Definition _Modify_body (args : Namespace) (st : Store) : result Store :=
  let st := modify_target_service args st in
  let st := modify_description args st in
  let st := modify_connection_preference args st in
  let st := modify_enable_proxy_protocol args st in
  let st := modify_nat_subnets args st in
  let st := modify_consumer_reject_list args st in
  st <- modify_consumer_accept_list args st;;
  st <- modify_remove_obsolete args st;;
  let st := modify_reconcile_connections args st in
  let st := modify_propagated_connection_limit args st in
  Ok st.

(** Returns the updated service attachment ([None] when nothing is to be
    sent), together with the store as the call leaves it. *)
Definition _Modify (args : Namespace)
    (old_resource : messages.ServiceAttachment)
    (cleared_fields : list string)
  : result (option messages.ServiceAttachment * Store) :=
  st <- _Modify_body args (enter old_resource cleared_fields);;
  if st.(is_updated) then Ok (Some st.(replacement), st)
  else Ok (None, st).

(** Issue a service attachment PATCH request; [old_resource] is the
    result of [_GetOldResource]. *)
Definition Run (args : Namespace)
    (old_resource : messages.ServiceAttachment) : result outcome :=
  r <- _Modify args old_resource [];;
  match r.1 with
  | None => Ok (ReturnOldResource r.2.(UpdateHelper.old_resource))
  | Some replacement =>
      Ok (PatchRequest replacement r.2.(UpdateHelper.cleared_fields))
  end.
End with_self.

End UpdateHelper.

(** ** edge_cloud/api_key/hooks.py *)

Module hooks.

(** The parsed arguments of the API-key commands; [service_account] is
    [None] when [args.IsSpecified('service_account')] is false.  After
    [delattr(args, 'service_account')] the attribute is gone, which is
    recorded as [None] as well; what [IsSpecified] answers for a deleted
    attribute is calliope's and is not modelled, and the hook is never run
    below on the arguments it has left. *)
Record Namespace : Type := {
  service_account : option string;
  project : option string;
  location : option string;
}.

(** [edgecontainer_v1alpha_messages.ApiKey]; [apiKeyOtherFields] stands for
    its remaining fields, all unset in [ApiKey()]. *)
Record ApiKey : Type := {
  serviceAccountName : option string;
  apiKeyOtherFields : list (string * string);
}.

Record Request : Type := {
  apiKey : option ApiKey;
  requestOtherFields : list (string * string);
}.

#[global] Instance Namespace_eq_dec : EqDecision Namespace.
Proof. solve_decision. Defined.
#[global] Instance ApiKey_eq_dec : EqDecision ApiKey.
Proof. solve_decision. Defined.
#[global] Instance Request_eq_dec : EqDecision Request.
Proof. solve_decision. Defined.

Definition project_required : exn :=
  RequiredArgumentException "--project" "The --project flag is required.".

Definition location_required : exn :=
  RequiredArgumentException "--location" "The --location flag is required.".

(** Constructs the full service account name from the ID and other
    context ([ref], the resource reference, is not used).  The first
    component is what the call returns or raises, the second is [args] and
    [request] as the call leaves them. *)
Definition ConstructServiceAccountName
    (ref : string) (args : Namespace) (request : Request)
  : result Request * (Namespace * Request) :=
  match args.(service_account) with
  | Some sa_id =>
      if negb (truthy args.(project)) then
        (Raise project_required, (args, request))
      else if negb (truthy args.(location)) then
        (Raise location_required, (args, request))
      else
        let service_account_name :=
          "projects/" ++ default "" args.(project)
          ++ "/locations/" ++ default "" args.(location)
          ++ "/serviceAccounts/" ++ sa_id in
        let request :=
          match request.(apiKey) with
          | None =>
              {| apiKey := Some {| serviceAccountName := None;
                                   apiKeyOtherFields := [] |};
                 requestOtherFields := request.(requestOtherFields) |}
          | Some _ => request
          end in
        let request :=
          {| apiKey :=
               (fun k => {| serviceAccountName := Some service_account_name;
                            apiKeyOtherFields := k.(apiKeyOtherFields) |})
               <$> request.(apiKey);
             requestOtherFields := request.(requestOtherFields) |} in
        let args :=
          {| service_account := None; project := args.(project);
             location := args.(location) |} in
        (Ok request, (args, request))
  | None => (Ok request, (args, request))
  end.

End hooks.

(** ** Vocabulary of the statements *)

(** The three kinds of accept-list entry. *)
Definition network_entry (url : string) (limit : Z)
  : messages.ServiceAttachmentConsumerProjectLimit :=
  {| messages.projectIdOrNum := None; messages.networkUrl := Some url;
     messages.endpointUrl := None; messages.connectionLimit := Some limit |}.

Definition endpoint_entry (url : string) (limit : option Z)
  : messages.ServiceAttachmentConsumerProjectLimit :=
  {| messages.projectIdOrNum := None; messages.networkUrl := None;
     messages.endpointUrl := Some url; messages.connectionLimit := limit |}.

Definition project_entry (id : string) (limit : Z)
  : messages.ServiceAttachmentConsumerProjectLimit :=
  {| messages.projectIdOrNum := Some id; messages.networkUrl := None;
     messages.endpointUrl := None; messages.connectionLimit := Some limit |}.

(** An accept entry is obsolete when it carries an endpoint URL whose
    trailing identifier is not a connected endpoint. *)
Definition obsolete_accepted (connected_endpoint_ids : gset string)
    (entry : messages.ServiceAttachmentConsumerProjectLimit) : Prop :=
  exists url, entry.(messages.endpointUrl) = Some url /\ url <> ""
              /\ trailing_id url ∉ connected_endpoint_ids.

(** A reject entry is obsolete when it has the endpoint-path marker and
    its trailing identifier is not a connected endpoint. *)
Definition obsolete_rejected (connected_endpoint_ids : gset string)
    (entry : string) : Prop :=
  str_in "/forwardingRules/" entry = true
  /\ trailing_id entry ∉ connected_endpoint_ids.

(** [cleared_fields] after removing the first occurrence of [name]. *)
Definition removed_first (name : string) (before after : list string) : Prop :=
  exists l1 l2, before = (l1 ++ name :: l2)%list /\ (name ∉ l1)
                /\ after = (l1 ++ l2)%list.

(** Strict total orders given by a boolean [<]. *)
Class StrictTotal {K : Type} (ltb : K -> K -> bool) : Prop := {
  ltb_irrefl : forall a, ltb a a = false;
  ltb_trans : forall a b c, ltb a b = true -> ltb b c = true -> ltb a c = true;
  ltb_total : forall a b, ltb a b = false -> ltb b a = false -> a = b;
}.

(** [x] may stand before [y] in a list sorted by [key]. *)
Definition key_le {A K} (ltb : K -> K -> bool) (key : A -> K) (x y : A)
  : Prop :=
  ltb (key y) (key x) = false.

(** The builtin [int] restricted to plain decimal literals, for the
    concrete runs below. *)
Fixpoint digits_value (acc : Z) (s : string) : option Z :=
  match s with
  | EmptyString => Some acc
  | String c s' =>
      let d := Z.of_N (N_of_ascii c) - 48 in
      if (0 <=? d) && (d <=? 9) then digits_value (10 * acc + d) s' else None
  end.

Definition int_decimal (s : string) : option Z :=
  match s with
  | EmptyString => None
  | _ => digits_value 0 s
  end.

(** Concrete arguments and resources for the runs below. *)
Definition no_args : Namespace :=
  {| target_service := None; description := None;
     connection_preference := None; enable_proxy_protocol := None;
     nat_subnets := None; consumer_reject_list := None;
     consumer_accept_list := None;
     remove_obsolete_endpoint_accept_reject_entries := false;
     reconcile_connections := None; propagated_connection_limit := None |}.

Definition attachment_1 : messages.ServiceAttachment :=
  {| messages.targetService := Some "regions/r/forwardingRules/producer";
     messages.description := Some "old";
     messages.connectionPreference := Some messages.ACCEPT_MANUAL;
     messages.enableProxyProtocol := Some false;
     messages.natSubnets := Some ["subnet-b"; "subnet-a"];
     messages.consumerRejectLists := Some ["b"; "a"];
     messages.consumerAcceptLists :=
       Some [project_entry "projects/p2" 20; project_entry "projects/p1" 10];
     messages.connectedEndpoints :=
       Some [ {| messages.endpointWithId :=
                   Some "projects/c/regions/r/forwardingRules/e1";
                 messages.endpoint := None |} ];
     messages.reconcileConnections := Some false;
     messages.propagatedConnectionLimit := Some 250;
     messages.otherFields := [("name", "attachment-1")] |}.

Definition args_accept (dicts : list dict) (remove_obsolete : bool)
  : Namespace :=
  {| target_service := None; description := None;
     connection_preference := None; enable_proxy_protocol := None;
     nat_subnets := None; consumer_reject_list := None;
     consumer_accept_list := Some dicts;
     remove_obsolete_endpoint_accept_reject_entries := remove_obsolete;
     reconcile_connections := None; propagated_connection_limit := None |}.

(** What one pruning pass over a list field must do, in the words of the
    specification: [old] and [new] are the list before and after, [cf] and
    [cf'] the Field-Clear List before and after, [changed] the flag
    returned. *)
Definition pruning_pass {A} (obsolete : A -> Prop) (name : string)
    (old : option (list A)) (cf : list string)
    (changed : bool) (new : option (list A)) (cf' : list string) : Prop :=
  (forall keep : A -> bool,
      (forall e, keep e = true <-> ~ obsolete e) ->
      new = List.filter keep <$> old)
  /\ (changed = false <->
      length (default [] new) = length (default [] old))
  /\ (changed = false -> cf' = cf)
  /\ (changed = true -> default [] new = [] ->
      (name ∈ cf' /\ (NoDup cf -> NoDup cf'))
      /\ (name ∈ cf -> cf' = cf)
      /\ (name ∉ cf -> cf' = list_append cf name))
  /\ (changed = true -> default [] new <> [] ->
      (name ∈ cf -> removed_first name cf cf' /\ (NoDup cf -> name ∉ cf'))
      /\ (name ∉ cf -> cf' = cf)).

(** The [if]/[elif] on [cleared_fields] shared by the two pruning
    functions, as a function of whether the cleaned list is empty. *)
Definition mark_cleared (name : string) (cleaned_is_empty : bool)
    (cleared_fields : list string) : list string :=
  if cleaned_is_empty && negb (list_in name cleared_fields) then
    list_append cleared_fields name
  else if negb cleaned_is_empty && list_in name cleared_fields then
    list_remove name cleared_fields
  else cleared_fields.

(** An attachment with connected endpoints [e1] and [e2] whose accept
    and reject lists still name the endpoint [e3]. *)
Definition attachment_2 : messages.ServiceAttachment :=
  {| messages.targetService := Some "regions/r/forwardingRules/producer";
     messages.description := Some "old";
     messages.connectionPreference := Some messages.ACCEPT_MANUAL;
     messages.enableProxyProtocol := Some false;
     messages.natSubnets := Some ["subnet-a"];
     messages.consumerRejectLists :=
       Some ["projects/c/regions/r/forwardingRules/e3"; "projects/p9"];
     messages.consumerAcceptLists :=
       Some [endpoint_entry "projects/c/regions/r/forwardingRules/e3" None];
     messages.connectedEndpoints :=
       Some [ {| messages.endpointWithId :=
                   Some "projects/c/regions/r/forwardingRules/e1";
                 messages.endpoint := None |};
              {| messages.endpointWithId :=
                   Some "projects/c/regions/r/forwardingRules/e2/";
                 messages.endpoint := None |} ];
     messages.reconcileConnections := Some false;
     messages.propagatedConnectionLimit := Some 250;
     messages.otherFields := [("name", "attachment-2")] |}.

(** The pruning pass runs when the command supports endpoint based
    security and the flag is given. *)
Definition pruning_requested (support : bool) (args : Namespace) : bool :=
  support && args.(remove_obsolete_endpoint_accept_reject_entries).

(** Every field of [sa'] whose override is absent from [args] (and, for
    the two lists, that the pruning pass does not run) is the field of
    [sa]; the fields that have no override are the same. *)
Definition unmodified_fields (pruning : bool) (args : Namespace)
    (sa sa' : messages.ServiceAttachment) : Prop :=
  (args.(target_service) = None ->
   sa'.(messages.targetService) = sa.(messages.targetService))
  /\ (args.(description) = None ->
      sa'.(messages.description) = sa.(messages.description))
  /\ (args.(connection_preference) = None ->
      sa'.(messages.connectionPreference) = sa.(messages.connectionPreference))
  /\ (args.(enable_proxy_protocol) = None ->
      sa'.(messages.enableProxyProtocol) = sa.(messages.enableProxyProtocol))
  /\ (args.(nat_subnets) = None ->
      sa'.(messages.natSubnets) = sa.(messages.natSubnets))
  /\ (args.(consumer_reject_list) = None -> pruning = false ->
      sa'.(messages.consumerRejectLists) = sa.(messages.consumerRejectLists))
  /\ (args.(consumer_accept_list) = None -> pruning = false ->
      sa'.(messages.consumerAcceptLists) = sa.(messages.consumerAcceptLists))
  /\ (args.(reconcile_connections) = None ->
      sa'.(messages.reconcileConnections) = sa.(messages.reconcileConnections))
  /\ (args.(propagated_connection_limit) = None ->
      sa'.(messages.propagatedConnectionLimit)
      = sa.(messages.propagatedConnectionLimit))
  /\ sa'.(messages.connectedEndpoints) = sa.(messages.connectedEndpoints)
  /\ sa'.(messages.otherFields) = sa.(messages.otherFields).

(** What every statement of [_Modify] respects, from the store before it
    to the store after it: the fetched resource is not written, the
    replacement changes only where [unmodified_fields] allows, and, the
    pruning pass apart, [is_updated] is never reset and nothing leaves
    [cleared_fields]. *)
Definition frame (pruning : bool) (args : Namespace)
    (st st' : UpdateHelper.Store) : Prop :=
  st'.(UpdateHelper.old_resource) = st.(UpdateHelper.old_resource)
  /\ unmodified_fields pruning args
       st.(UpdateHelper.replacement) st'.(UpdateHelper.replacement)
  /\ (pruning = false -> st.(UpdateHelper.is_updated) = true ->
      st'.(UpdateHelper.is_updated) = true)
  /\ (pruning = false -> forall name,
        name ∈ st.(UpdateHelper.cleared_fields) ->
        name ∈ st'.(UpdateHelper.cleared_fields)).

(** The statements of [_Modify] before the accept-list block. *)
Definition before_accept_list (args : Namespace) (st : UpdateHelper.Store)
  : UpdateHelper.Store :=
  UpdateHelper.modify_consumer_reject_list args
    (UpdateHelper.modify_nat_subnets args
       (UpdateHelper.modify_enable_proxy_protocol args
          (UpdateHelper.modify_connection_preference args
             (UpdateHelper.modify_description args
                (UpdateHelper.modify_target_service args st))))).

(** A description override together with the pruning flag. *)
Definition args_description_and_pruning : Namespace :=
  {| target_service := None; description := Some "new";
     connection_preference := None; enable_proxy_protocol := None;
     nat_subnets := None; consumer_reject_list := None;
     consumer_accept_list := None;
     remove_obsolete_endpoint_accept_reject_entries := true;
     reconcile_connections := None; propagated_connection_limit := None |}.

(** A description override alone. *)
Definition args_description : Namespace :=
  {| target_service := None; description := Some "new";
     connection_preference := None; enable_proxy_protocol := None;
     nat_subnets := None; consumer_reject_list := None;
     consumer_accept_list := None;
     remove_obsolete_endpoint_accept_reject_entries := false;
     reconcile_connections := None; propagated_connection_limit := None |}.

(** The target of [attachment_1] given again. *)
Definition args_same_target : Namespace :=
  {| target_service := Some "regions/r/forwardingRules/producer";
     description := None;
     connection_preference := None; enable_proxy_protocol := None;
     nat_subnets := None; consumer_reject_list := None;
     consumer_accept_list := None;
     remove_obsolete_endpoint_accept_reject_entries := false;
     reconcile_connections := None; propagated_connection_limit := None |}.

(** A reject-list override. *)
Definition args_reject (reject_list : list string) (remove_obsolete : bool)
  : Namespace :=
  {| target_service := None; description := None;
     connection_preference := None; enable_proxy_protocol := None;
     nat_subnets := None; consumer_reject_list := Some reject_list;
     consumer_accept_list := None;
     remove_obsolete_endpoint_accept_reject_entries := remove_obsolete;
     reconcile_connections := None; propagated_connection_limit := None |}.


(** The entries the basic-form normalizer builds: the kind of an entry is
    decided by its identifier. *)
Definition basic_shaped
    (e : messages.ServiceAttachmentConsumerProjectLimit) : Prop :=
  exists k n,
    (str_in "/networks/" k = true /\ e = network_entry k n)
    \/ (str_in "/networks/" k = false /\ e = project_entry k n).

(** The entries the extended-form normalizer builds. *)
Definition ebs_shaped
    (e : messages.ServiceAttachmentConsumerProjectLimit) : Prop :=
  exists k,
    (str_in "/networks/" k = true /\ exists n, e = network_entry k n)
    \/ (str_in "/networks/" k = false /\ str_in "/forwardingRules/" k = true
        /\ exists limit, e = endpoint_entry k limit)
    \/ (str_in "/networks/" k = false /\ str_in "/forwardingRules/" k = false
        /\ exists n, e = project_entry k n).

(** The identifiers of the endpoints connected to [attachment_2]. *)
Definition connected_ids_2 : gset string :=
  service_attachments_utils.GetConnectedEndpointIds attachment_2.

(** A network URL given without a limit, together with the pruning
    flag. *)
Definition args_network_without_limit : Namespace :=
  args_accept [[("global/networks/n1", None)]] true.

(** The store on entry for [attachment_1], and the store after its reject
    list has been cleared. *)
Definition store_1 : UpdateHelper.Store := UpdateHelper.enter attachment_1 [].

Definition store_1_reject_cleared : UpdateHelper.Store :=
  UpdateHelper.set_cleared_fields ["consumerRejectLists"]
    (UpdateHelper.set_is_updated true
       (UpdateHelper.set_replacement
          (assign.consumerRejectLists (Some []) attachment_1) store_1)).

(** A request of the API-key commands without an [apiKey]. *)
Definition request_1 : hooks.Request :=
  {| hooks.apiKey := None; hooks.requestOtherFields := [("parent", "p")] |}.

(** ** update.py: the commands of the three release tracks *)

Module Update.
(** GA: no endpoint based security. *)
Definition _support_endpoint_based_security_arg : bool := false.

Definition Run (int : string -> option Z) (args : Namespace)
    (old_resource : messages.ServiceAttachment)
  : result UpdateHelper.outcome :=
  UpdateHelper.Run int _support_endpoint_based_security_arg args old_resource.
End Update.

Module UpdateBeta.
Definition _support_endpoint_based_security_arg : bool := true.

Definition Run (int : string -> option Z) (args : Namespace)
    (old_resource : messages.ServiceAttachment)
  : result UpdateHelper.outcome :=
  UpdateHelper.Run int _support_endpoint_based_security_arg args old_resource.
End UpdateBeta.

Module UpdateAlpha.
(** [class UpdateAlpha(UpdateBeta)] inherits the attribute and [Run]. *)
Definition _support_endpoint_based_security_arg : bool :=
  UpdateBeta._support_endpoint_based_security_arg.

Definition Run (int : string -> option Z) (args : Namespace)
    (old_resource : messages.ServiceAttachment)
  : result UpdateHelper.outcome :=
  UpdateHelper.Run int _support_endpoint_based_security_arg args old_resource.
End UpdateAlpha.

(** ** Further vocabulary *)

(** The identifier an accept-list entry carries. *)
Definition entry_identifier
    (e : messages.ServiceAttachmentConsumerProjectLimit) : option string :=
  (UpdateHelper._GetProjectOrNetworkOrEndpoint e).1.

(** No ['/'] occurs in [s]. *)
Definition no_slash (s : string) : Prop := str_in "/" s = false.

(** The accept and reject lists of an attachment, [[]] when unset. *)
Definition accept_entries (sa : messages.ServiceAttachment)
  : list messages.ServiceAttachmentConsumerProjectLimit :=
  default [] sa.(messages.consumerAcceptLists).

Definition reject_entries (sa : messages.ServiceAttachment) : list string :=
  default [] sa.(messages.consumerRejectLists).

(** No field override is given ([IsSpecified] is false for each). *)
Definition no_overrides (args : Namespace) : Prop :=
  args.(target_service) = None /\ args.(description) = None
  /\ args.(connection_preference) = None
  /\ args.(enable_proxy_protocol) = None /\ args.(nat_subnets) = None
  /\ args.(consumer_reject_list) = None /\ args.(consumer_accept_list) = None
  /\ args.(reconcile_connections) = None
  /\ args.(propagated_connection_limit) = None.

(** [args] with the pruning flag set to [b]. *)
Definition with_pruning_flag (b : bool) (args : Namespace) : Namespace :=
  {| target_service := args.(target_service);
     description := args.(description);
     connection_preference := args.(connection_preference);
     enable_proxy_protocol := args.(enable_proxy_protocol);
     nat_subnets := args.(nat_subnets);
     consumer_reject_list := args.(consumer_reject_list);
     consumer_accept_list := args.(consumer_accept_list);
     remove_obsolete_endpoint_accept_reject_entries := b;
     reconcile_connections := args.(reconcile_connections);
     propagated_connection_limit := args.(propagated_connection_limit) |}.

(** The fields of a [ServiceAttachment], to say which of them a statement
    of [_Modify] may write. *)
Inductive field : Type :=
| F_targetService | F_description | F_connectionPreference
| F_enableProxyProtocol | F_natSubnets | F_consumerRejectLists
| F_consumerAcceptLists | F_connectedEndpoints | F_reconcileConnections
| F_propagatedConnectionLimit | F_otherFields.

#[global] Instance field_eq_dec : EqDecision field.
Proof. solve_decision. Defined.

(** [sa] and [sa'] agree on the field [f]. *)
Definition same_field (f : field) (sa sa' : messages.ServiceAttachment)
  : Prop :=
  match f with
  | F_targetService => sa'.(messages.targetService) = sa.(messages.targetService)
  | F_description => sa'.(messages.description) = sa.(messages.description)
  | F_connectionPreference =>
      sa'.(messages.connectionPreference) = sa.(messages.connectionPreference)
  | F_enableProxyProtocol =>
      sa'.(messages.enableProxyProtocol) = sa.(messages.enableProxyProtocol)
  | F_natSubnets => sa'.(messages.natSubnets) = sa.(messages.natSubnets)
  | F_consumerRejectLists =>
      sa'.(messages.consumerRejectLists) = sa.(messages.consumerRejectLists)
  | F_consumerAcceptLists =>
      sa'.(messages.consumerAcceptLists) = sa.(messages.consumerAcceptLists)
  | F_connectedEndpoints =>
      sa'.(messages.connectedEndpoints) = sa.(messages.connectedEndpoints)
  | F_reconcileConnections =>
      sa'.(messages.reconcileConnections) = sa.(messages.reconcileConnections)
  | F_propagatedConnectionLimit =>
      sa'.(messages.propagatedConnectionLimit)
      = sa.(messages.propagatedConnectionLimit)
  | F_otherFields => sa'.(messages.otherFields) = sa.(messages.otherFields)
  end.

(** From [st] to [st'] the fetched resource is not written and the
    replacement is written at most in the fields [fields]. *)
Definition only_writes (fields : list field) (st st' : UpdateHelper.Store)
  : Prop :=
  st'.(UpdateHelper.old_resource) = st.(UpdateHelper.old_resource)
  /\ forall f, f ∉ fields ->
       same_field f st.(UpdateHelper.replacement) st'.(UpdateHelper.replacement).

(** A statement of [_Modify] that compares before it writes: from [st] to
    [st'] it has either done nothing, or it has set [is_updated] and left
    the field [f] of the replacement different from the fetched one. *)
Definition skips_or_differs (f : field) (st st' : UpdateHelper.Store)
  : Prop :=
  st' = st
  \/ (st'.(UpdateHelper.old_resource) = st.(UpdateHelper.old_resource)
      /\ st'.(UpdateHelper.is_updated) = true
      /\ ~ same_field f st.(UpdateHelper.old_resource)
            st'.(UpdateHelper.replacement)).

(** Whenever the store says "updated", some field of the replacement
    other than the target differs from the fetched resource. *)
Definition update_recorded (st : UpdateHelper.Store) : Prop :=
  st.(UpdateHelper.is_updated) = true ->
  exists f, f <> F_targetService
            /\ ~ same_field f st.(UpdateHelper.old_resource)
                  st.(UpdateHelper.replacement).

(** [cleared_fields] names exactly the lists that the replacement empties:
    it has no duplicates and holds no other name, and it names a list
    exactly when the list is empty in the replacement and was not already
    empty in the fetched resource [S]. *)
Definition cleared_fields_exact (S : messages.ServiceAttachment)
    (st : UpdateHelper.Store) : Prop :=
  let rep := st.(UpdateHelper.replacement) in
  let cf := st.(UpdateHelper.cleared_fields) in
  NoDup cf
  /\ (forall name, name ∈ cf ->
        name = consumerAcceptLists_name \/ name = consumerRejectLists_name)
  /\ (consumerAcceptLists_name ∈ cf
      <-> rep.(messages.consumerAcceptLists) = Some []
          /\ S.(messages.consumerAcceptLists) <> Some [])
  /\ (consumerRejectLists_name ∈ cf
      <-> rep.(messages.consumerRejectLists) = Some []
          /\ S.(messages.consumerRejectLists) <> Some []).

(** Some override asks for a value that the fetched resource [S] does not
    hold: a target (always), a scalar field with another value, or a list
    with other entries. *)
Definition asks_for_a_change (int : string -> option Z) (support : bool)
    (args : Namespace) (S : messages.ServiceAttachment) : Prop :=
  is_Some args.(target_service)
  \/ (exists d, args.(description) = Some d
                /\ Some d <> S.(messages.description))
  \/ (is_Some args.(connection_preference)
      /\ service_attachments_utils.GetConnectionPreference args
         <> S.(messages.connectionPreference))
  \/ (exists b, args.(enable_proxy_protocol) = Some b
                /\ Some b <> S.(messages.enableProxyProtocol))
  \/ (exists l, args.(nat_subnets) = Some l
                /\ forall l', S.(messages.natSubnets) = Some l' -> ~ l ≡ₚ l')
  \/ (exists l, args.(consumer_reject_list) = Some l
                /\ forall l', S.(messages.consumerRejectLists) = Some l' ->
                              ~ l ≡ₚ l')
  \/ (is_Some args.(consumer_accept_list)
      /\ forall new l',
           UpdateHelper._GetConsumerAcceptList int support args = Ok new ->
           S.(messages.consumerAcceptLists) = Some l' -> ~ new ≡ₚ l')
  \/ (exists b, args.(reconcile_connections) = Some b
                /\ Some b <> S.(messages.reconcileConnections))
  \/ (exists n, args.(propagated_connection_limit) = Some n
                /\ Some n <> S.(messages.propagatedConnectionLimit)).

(** [args] with other NAT subnets and another reject list. *)
Definition with_lists (nat_subnetworks reject_list : list string)
    (args : Namespace) : Namespace :=
  {| target_service := args.(target_service);
     description := args.(description);
     connection_preference := args.(connection_preference);
     enable_proxy_protocol := args.(enable_proxy_protocol);
     nat_subnets := Some nat_subnetworks;
     consumer_reject_list := Some reject_list;
     consumer_accept_list := args.(consumer_accept_list);
     remove_obsolete_endpoint_accept_reject_entries :=
       args.(remove_obsolete_endpoint_accept_reject_entries);
     reconcile_connections := args.(reconcile_connections);
     propagated_connection_limit := args.(propagated_connection_limit) |}.

(** The errors the accept-list block of [_Modify] can end in: a
    [ValueError] of a normalizer, the [ValueError] of [int], or a
    [TypeError]. *)
Definition accept_list_error (e : exn) : Prop :=
  (exists msg, e = ValueError msg) \/ (exists literal, e = IntValueError literal)
  \/ e = TypeError.

(** No entry of the accept list and no entry of the reject list of [sa]
    is obsolete. *)
Definition nothing_obsolete (sa : messages.ServiceAttachment) : Prop :=
  let ids := service_attachments_utils.GetConnectedEndpointIds sa in
  (forall e, e ∈ accept_entries sa -> ~ obsolete_accepted ids e)
  /\ (forall e, e ∈ reject_entries sa -> ~ obsolete_rejected ids e).

(** The same endpoint given once without and once with a limit. *)
Definition args_endpoint_twice : Namespace :=
  args_accept [[("projects/c/regions/r/forwardingRules/e1", None)];
               [("projects/c/regions/r/forwardingRules/e1", Some "5")]] false.

(** Only the pruning flag. *)
Definition args_pruning_only : Namespace :=
  with_pruning_flag true no_args.

(** ** The accept-list normalizers in the words of the specification *)

(** The items of one input mapping, in sorted order of their
    identifiers. *)
Definition in_sorted_order (d : dict)
    (items : list (string * option string)) : Prop :=
  items ≡ₚ d /\ Sorted (key_le String.ltb fst) items.

(** The items of the whole input in the order in which they are
    processed: mapping after mapping, each mapping in sorted order. *)
Definition processing_order (dicts : list dict)
    (items : list (string * option string)) : Prop :=
  exists per_mapping,
    Forall2 in_sorted_order dicts per_mapping /\ items = concat per_mapping.

(** What a normalizer returns on [items] when [rule] says what one item
    gives: the entries of the items, in order, or the error of the first
    item that has one. *)
Inductive processed {I E : Type} (rule : I -> result E -> Prop)
  : list I -> result (list E) -> Prop :=
| processed_nil : processed rule [] (Ok [])
| processed_entry i e items entries :
    rule i (Ok e) -> processed rule items (Ok entries) ->
    processed rule (i :: items) (Ok (e :: entries))
| processed_later_error i e items err :
    rule i (Ok e) -> processed rule items (Raise err) ->
    processed rule (i :: items) (Raise err)
| processed_error i err items :
    rule i (Raise err) -> processed rule (i :: items) (Raise err).

(** Basic form, one item [(identifier, limit)]: a network URL gives a
    network-limit entry, otherwise an endpoint URL is the unsupported
    error, otherwise the item gives a project-limit entry.  The limit of an
    entry is [int(limit)]; where that conversion fails, its error is the
    item's. *)
Inductive basic_form_rule (int : string -> option Z)
  : string * option string ->
    result messages.ServiceAttachmentConsumerProjectLimit -> Prop :=
| basic_rule_network k v n :
    str_in "/networks/" k = true -> py_int int v = Ok n ->
    basic_form_rule int (k, v) (Ok (network_entry k n))
| basic_rule_endpoint k v :
    str_in "/networks/" k = false -> str_in "/forwardingRules/" k = true ->
    basic_form_rule int (k, v)
      (Raise (ValueError service_attachments_utils.unsupported_endpoint_msg))
| basic_rule_project k v n :
    str_in "/networks/" k = false -> str_in "/forwardingRules/" k = false ->
    py_int int v = Ok n ->
    basic_form_rule int (k, v) (Ok (project_entry k n))
| basic_rule_not_an_integer k v err :
    str_in "/networks/" k = true \/ str_in "/forwardingRules/" k = false ->
    py_int int v = Raise err ->
    basic_form_rule int (k, v) (Raise err).

(** Extended form, one item [(identifier, limit)]: a network URL needs a
    non-empty limit and gives a network entry; otherwise an endpoint URL
    gives an endpoint entry, with the limit when one is given and without
    one otherwise; otherwise the item needs a non-empty limit and gives a
    project entry.  A non-empty limit is converted by [int]; where that
    conversion fails, its error is the item's. *)
Inductive extended_form_rule (int : string -> option Z)
  : string * option string ->
    result messages.ServiceAttachmentConsumerProjectLimit -> Prop :=
| extended_rule_network k v n :
    str_in "/networks/" k = true -> truthy v = true -> py_int int v = Ok n ->
    extended_form_rule int (k, v) (Ok (network_entry k n))
| extended_rule_network_no_limit k v :
    str_in "/networks/" k = true -> truthy v = false ->
    extended_form_rule int (k, v)
      (Raise (ValueError
                (service_attachments_utils.network_limit_required_msg k)))
| extended_rule_endpoint k v n :
    str_in "/networks/" k = false -> str_in "/forwardingRules/" k = true ->
    truthy v = true -> py_int int v = Ok n ->
    extended_form_rule int (k, v) (Ok (endpoint_entry k (Some n)))
| extended_rule_endpoint_no_limit k v :
    str_in "/networks/" k = false -> str_in "/forwardingRules/" k = true ->
    truthy v = false ->
    extended_form_rule int (k, v) (Ok (endpoint_entry k None))
| extended_rule_project k v n :
    str_in "/networks/" k = false -> str_in "/forwardingRules/" k = false ->
    truthy v = true -> py_int int v = Ok n ->
    extended_form_rule int (k, v) (Ok (project_entry k n))
| extended_rule_project_no_limit k v :
    str_in "/networks/" k = false -> str_in "/forwardingRules/" k = false ->
    truthy v = false ->
    extended_form_rule int (k, v)
      (Raise (ValueError
                (service_attachments_utils.project_limit_required_msg k)))
| extended_rule_not_an_integer k v err :
    truthy v = true -> py_int int v = Raise err ->
    extended_form_rule int (k, v) (Raise err).

(** An entry of the network kind for the identifier [k]. *)
Definition is_network_entry (k : string)
    (e : messages.ServiceAttachmentConsumerProjectLimit) : Prop :=
  exists n, e = network_entry k n.


Definition accept_input_2 : list dict :=
  [[("projects/p2", Some "20"); ("projects/p1", Some "10")];
   [("global/networks/n1", Some "7")]].

Definition accept_input_both_markers : list dict :=
  [[("x/networks/n/forwardingRules/e", Some "3"); ("projects/p1", Some "10")]].

(** ** Overrides taken away, and overrides that change nothing *)

(** [args] with the override of the field [f] not specified. *)
Definition without_override (f : field) (args : Namespace) : Namespace :=
  {| target_service :=
       if decide (f = F_targetService) then None else args.(target_service);
     description :=
       if decide (f = F_description) then None else args.(description);
     connection_preference :=
       if decide (f = F_connectionPreference) then None
       else args.(connection_preference);
     enable_proxy_protocol :=
       if decide (f = F_enableProxyProtocol) then None
       else args.(enable_proxy_protocol);
     nat_subnets :=
       if decide (f = F_natSubnets) then None else args.(nat_subnets);
     consumer_reject_list :=
       if decide (f = F_consumerRejectLists) then None
       else args.(consumer_reject_list);
     consumer_accept_list :=
       if decide (f = F_consumerAcceptLists) then None
       else args.(consumer_accept_list);
     remove_obsolete_endpoint_accept_reject_entries :=
       args.(remove_obsolete_endpoint_accept_reject_entries);
     reconcile_connections :=
       if decide (f = F_reconcileConnections) then None
       else args.(reconcile_connections);
     propagated_connection_limit :=
       if decide (f = F_propagatedConnectionLimit) then None
       else args.(propagated_connection_limit) |}.

(** The override of the field [f] is specified and its new value equals
    the value of the fetched resource [S]: value equality for the scalar
    fields, equality of the two sorted lists for the repeated fields.  The
    target has no such comparison. *)
Definition override_unchanged (int : string -> option Z) (support : bool)
    (f : field) (args : Namespace) (S : messages.ServiceAttachment) : Prop :=
  match f with
  | F_description =>
      exists d, args.(description) = Some d
                /\ S.(messages.description) = Some d
  | F_connectionPreference =>
      is_Some args.(connection_preference)
      /\ S.(messages.connectionPreference)
         = service_attachments_utils.GetConnectionPreference args
  | F_enableProxyProtocol =>
      exists b, args.(enable_proxy_protocol) = Some b
                /\ S.(messages.enableProxyProtocol) = Some b
  | F_natSubnets =>
      exists l old_list,
        args.(nat_subnets) = Some l
        /\ S.(messages.natSubnets) = Some old_list
        /\ sorted_str l = sorted_str old_list
  | F_consumerRejectLists =>
      exists l old_list,
        args.(consumer_reject_list) = Some l
        /\ S.(messages.consumerRejectLists) = Some old_list
        /\ sorted_str l = sorted_str old_list
  | F_consumerAcceptLists =>
      exists new old_list sorted_list,
        is_Some args.(consumer_accept_list)
        /\ UpdateHelper._GetConsumerAcceptList int support args = Ok new
        /\ S.(messages.consumerAcceptLists) = Some old_list
        /\ sorted_by_key
             (UpdateHelper._GetProjectOrNetworkOrEndpointBasedOnArg support)
             new = Ok sorted_list
        /\ sorted_by_key
             (UpdateHelper._GetProjectOrNetworkOrEndpointBasedOnArg support)
             old_list = Ok sorted_list
  | F_reconcileConnections =>
      exists b, args.(reconcile_connections) = Some b
                /\ S.(messages.reconcileConnections) = Some b
  | F_propagatedConnectionLimit =>
      exists n, args.(propagated_connection_limit) = Some n
                /\ S.(messages.propagatedConnectionLimit) = Some n
  | F_targetService | F_connectedEndpoints | F_otherFields => False
  end.

(** A reject-list override in another order than the fetched list. *)
Definition args_reject_reordered : Namespace := args_reject ["a"; "b"] false.

(** A non-integer limit. *)
Definition args_limit_not_an_integer : Namespace :=
  args_accept [[("projects/p1", Some "abc")]] false.

(** * Properties *)

(** ** [sorted]: the orders are strict and total, the sort is a sorted
       permutation, and it forgets the order of its input *)

Lemma ascii_compare_lt_trans a b c :
  Ascii.compare a b = Lt -> Ascii.compare b c = Lt -> Ascii.compare a c = Lt.
Proof.
  unfold Ascii.compare. rewrite !N.compare_lt_iff. lia.
Qed.

Lemma ascii_compare_refl a : Ascii.compare a a = Eq.
Proof. unfold Ascii.compare. apply N.compare_refl. Qed.

Lemma string_compare_refl s : String.compare s s = Eq.
Proof. induction s as [|a s IH]; simpl; [done|]. by rewrite ascii_compare_refl. Qed.

Lemma string_compare_lt_trans s1 s2 s3 :
  String.compare s1 s2 = Lt -> String.compare s2 s3 = Lt ->
  String.compare s1 s3 = Lt.
Proof.
  revert s2 s3. induction s1 as [|a s1 IH]; intros [|b s2] [|c s3]; simpl; try done.
  destruct (Ascii.compare a b) eqn:Hab; try done.
  - apply Ascii.compare_eq_iff in Hab as ->.
    destruct (Ascii.compare b c); try done. apply IH.
  - intros _. destruct (Ascii.compare b c) eqn:Hbc; try done.
    + apply Ascii.compare_eq_iff in Hbc as <-. by rewrite Hab.
    + intros _. by rewrite (ascii_compare_lt_trans a b c).
Qed.

Lemma string_ltb_strict_total : StrictTotal String.ltb.
Proof.
  split.
  - intros a. unfold String.ltb. by rewrite string_compare_refl.
  - intros a b c. unfold String.ltb.
    destruct (String.compare a b) eqn:Hab; try done.
    destruct (String.compare b c) eqn:Hbc; try done.
    by rewrite (string_compare_lt_trans a b c).
  - intros a b. unfold String.ltb. rewrite (String.compare_antisym b a).
    destruct (String.compare a b) eqn:Hab; try done.
    intros _ _. by apply String.compare_eq_iff.
Qed.
#[global] Existing Instance string_ltb_strict_total.

Lemma Z_ltb_strict_total : StrictTotal Z.ltb.
Proof. split; intros; lia. Qed.
#[global] Existing Instance Z_ltb_strict_total.

Lemma opt_ltb_strict_total {T} (ltb : T -> T -> bool) :
  StrictTotal ltb -> StrictTotal (opt_ltb ltb).
Proof.
  intros [Hi Ht Hto]. split.
  - intros [a|]; simpl; auto.
  - intros [a|] [b|] [c|]; simpl; eauto; done.
  - intros [a|] [b|]; simpl; try done. intros. f_equal. auto.
Qed.

Lemma key_ltb_strict_total : StrictTotal key_ltb.
Proof.
  pose proof (opt_ltb_strict_total String.ltb _) as [Si St Sto].
  pose proof (opt_ltb_strict_total Z.ltb _) as [Zi Zt Zto].
  split.
  - intros [i l]. unfold key_ltb. simpl. rewrite decide_True by done. apply Zi.
  - intros [i1 l1] [i2 l2] [i3 l3]. unfold key_ltb. simpl.
    repeat case_decide; subst; try done; eauto.
    + intros H1 H2. pose proof (St _ _ _ H1 H2) as H3. by rewrite (Si i3) in H3.
  - intros [i1 l1] [i2 l2]. unfold key_ltb. simpl.
    repeat case_decide; subst; try done.
    + intros. f_equal. auto.
    + intros H1 H2. by destruct (Sto _ _ H1 H2).
Qed.
#[global] Existing Instance key_ltb_strict_total.

Section sort_facts.
Context {A K : Type} (ltb : K -> K -> bool) `{!StrictTotal ltb}.
Context (key : A -> K).

Lemma key_le_trans : Transitive (key_le ltb key).
Proof.
  intros x y z Hxy Hyz. unfold key_le in *.
  destruct (ltb (key z) (key x)) eqn:Hzx; [|done].
  destruct (ltb (key x) (key y)) eqn:Hxy'.
  - pose proof (ltb_trans _ _ _ Hzx Hxy') as H3. congruence.
  - rewrite (ltb_total _ _ Hxy' Hxy) in Hzx. congruence.
Qed.
#[local] Existing Instance key_le_trans.

Lemma insort_perm x l : insort ltb key x l ≡ₚ x :: l.
Proof.
  induction l as [|y l IH]; simpl; [done|].
  destruct (ltb (key y) (key x)); [|done].
  rewrite IH. apply Permutation_swap.
Qed.

Lemma stable_sort_perm l : stable_sort ltb key l ≡ₚ l.
Proof.
  induction l as [|x l IH]; simpl; [done|].
  by rewrite insort_perm, IH.
Qed.

Lemma insort_hd x y l :
  key_le ltb key y x -> HdRel (key_le ltb key) y l ->
  HdRel (key_le ltb key) y (insort ltb key x l).
Proof.
  intros Hyx Hl. destruct l as [|z l]; simpl; [by constructor|].
  destruct (ltb (key z) (key x)); constructor; [|done].
  by inversion Hl.
Qed.

Lemma insort_sorted x l :
  Sorted (key_le ltb key) l -> Sorted (key_le ltb key) (insort ltb key x l).
Proof.
  induction 1 as [|y l Hl IH Hy]; simpl; [repeat constructor|].
  destruct (ltb (key y) (key x)) eqn:Hyx.
  - constructor; [done|]. apply insort_hd; [|done].
    unfold key_le. destruct (ltb (key x) (key y)) eqn:Hxy; [|done].
    pose proof (ltb_trans _ _ _ Hyx Hxy) as H3.
    by rewrite (ltb_irrefl (key y)) in H3.
  - constructor; [by constructor|]. by constructor.
Qed.

Lemma stable_sort_sorted l : Sorted (key_le ltb key) (stable_sort ltb key l).
Proof.
  induction l as [|x l IH]; simpl; [constructor|]. by apply insort_sorted.
Qed.

(** Two lists with the same elements, on which [key] is injective, are
    sorted alike. *)
Lemma stable_sort_perm_eq l1 l2 :
  l1 ≡ₚ l2 ->
  (forall x y, x ∈ l1 -> y ∈ l1 -> key x = key y -> x = y) ->
  stable_sort ltb key l1 = stable_sort ltb key l2.
Proof.
  intros Hp Hinj. apply (Sorted_unique_strong (key_le ltb key)).
  - intros x y Hx Hy Hxy Hyx. apply Hinj.
    + by rewrite stable_sort_perm in Hx.
    + by rewrite stable_sort_perm, <- Hp in Hy.
    + symmetry. by apply ltb_total.
  - apply stable_sort_sorted.
  - apply stable_sort_sorted.
  - by rewrite !stable_sort_perm.
Qed.
End sort_facts.

(** ** Loops *)

Lemma for_each_app {A S} (xs ys : list A) (body : A -> S -> result S) s :
  for_each (xs ++ ys)%list body s
  = (s' <- for_each xs body s;; for_each ys body s').
Proof.
  revert s. induction xs as [|x xs IH]; intros s; simpl; [done|].
  destruct (body x s); simpl; auto.
Qed.

Lemma for_each_nested {A B S} (f : A -> list B) (xs : list A)
    (body : B -> S -> result S) s :
  for_each xs (fun x acc => for_each (f x) body acc) s
  = for_each (flat_map f xs) body s.
Proof.
  revert s. induction xs as [|x xs IH]; intros s; simpl; [done|].
  rewrite for_each_app. destruct (for_each (f x) body s); simpl; auto.
Qed.

(** A loop whose body never raises [e] does not raise [e]. *)
Lemma for_each_not_raise {A S} (xs : list A) (body : A -> S -> result S) e s :
  (forall x s, x ∈ xs -> body x s <> Raise e) ->
  for_each xs body s <> Raise e.
Proof.
  revert s. induction xs as [|x xs IH]; intros s Hb; simpl; [done|].
  destruct (body x s) eqn:Hx; simpl.
  - apply IH. intros y s' Hy. apply Hb. by right.
  - rewrite <- Hx. apply Hb. by left.
Qed.

(** ** The accept-list normalizers, entry by entry *)

Section normalizers.
Variable int : string -> option Z.
Import service_attachments_utils.

Lemma basic_network k v acc n :
  str_in "/networks/" k = true -> py_int int v = Ok n ->
  accept_list_entry int (k, v) acc = Ok (list_append acc (network_entry k n)).
Proof. intros Hk Hv. unfold accept_list_entry. simpl. by rewrite Hk, Hv. Qed.

Lemma basic_endpoint k v acc :
  str_in "/networks/" k = false -> str_in "/forwardingRules/" k = true ->
  accept_list_entry int (k, v) acc = Raise (ValueError unsupported_endpoint_msg).
Proof. intros Hk Hf. unfold accept_list_entry. simpl. by rewrite Hk, Hf. Qed.

Lemma basic_project k v acc n :
  str_in "/networks/" k = false -> str_in "/forwardingRules/" k = false ->
  py_int int v = Ok n ->
  accept_list_entry int (k, v) acc = Ok (list_append acc (project_entry k n)).
Proof.
  intros Hk Hf Hv. unfold accept_list_entry. simpl. by rewrite Hk, Hf, Hv.
Qed.

Lemma py_int_not_value_error v msg : py_int int v <> Raise (ValueError msg).
Proof. destruct v as [s|]; simpl; [destruct (int s)|]; done. Qed.

Lemma basic_network_supported k v acc :
  str_in "/networks/" k = true ->
  accept_list_entry int (k, v) acc <> Raise (ValueError unsupported_endpoint_msg).
Proof.
  intros Hk. unfold accept_list_entry. simpl. rewrite Hk.
  pose proof (py_int_not_value_error v unsupported_endpoint_msg).
  destruct (py_int int v); simpl; congruence.
Qed.

Lemma basic_no_marker_supported k v acc :
  str_in "/forwardingRules/" k = false ->
  accept_list_entry int (k, v) acc <> Raise (ValueError unsupported_endpoint_msg).
Proof.
  intros Hk. unfold accept_list_entry. simpl. rewrite Hk.
  pose proof (py_int_not_value_error v unsupported_endpoint_msg).
  destruct (str_in "/networks/" k), (py_int int v); simpl; congruence.
Qed.

Lemma ebs_network k v acc n :
  str_in "/networks/" k = true -> truthy v = true -> py_int int v = Ok n ->
  accept_list_entry_ebs int (k, v) acc
  = Ok (list_append acc (network_entry k n)).
Proof.
  intros Hk Ht Hv. unfold accept_list_entry_ebs. simpl. by rewrite Hk, Ht, Hv.
Qed.

Lemma ebs_network_no_limit k v acc :
  str_in "/networks/" k = true -> truthy v = false ->
  accept_list_entry_ebs int (k, v) acc
  = Raise (ValueError (network_limit_required_msg k)).
Proof. intros Hk Ht. unfold accept_list_entry_ebs. simpl. by rewrite Hk, Ht. Qed.

Lemma ebs_endpoint k v acc n :
  str_in "/networks/" k = false -> str_in "/forwardingRules/" k = true ->
  truthy v = true -> py_int int v = Ok n ->
  accept_list_entry_ebs int (k, v) acc
  = Ok (list_append acc (endpoint_entry k (Some n))).
Proof.
  intros Hk Hf Ht Hv. unfold accept_list_entry_ebs. simpl.
  by rewrite Hk, Hf, Ht, Hv.
Qed.

Lemma ebs_endpoint_no_limit k v acc :
  str_in "/networks/" k = false -> str_in "/forwardingRules/" k = true ->
  truthy v = false ->
  accept_list_entry_ebs int (k, v) acc
  = Ok (list_append acc (endpoint_entry k None)).
Proof.
  intros Hk Hf Ht. unfold accept_list_entry_ebs. simpl. by rewrite Hk, Hf, Ht.
Qed.

Lemma ebs_project k v acc n :
  str_in "/networks/" k = false -> str_in "/forwardingRules/" k = false ->
  truthy v = true -> py_int int v = Ok n ->
  accept_list_entry_ebs int (k, v) acc
  = Ok (list_append acc (project_entry k n)).
Proof.
  intros Hk Hf Ht Hv. unfold accept_list_entry_ebs. simpl.
  by rewrite Hk, Hf, Ht, Hv.
Qed.

Lemma ebs_project_no_limit k v acc :
  str_in "/networks/" k = false -> str_in "/forwardingRules/" k = false ->
  truthy v = false ->
  accept_list_entry_ebs int (k, v) acc
  = Raise (ValueError (project_limit_required_msg k)).
Proof.
  intros Hk Hf Ht. unfold accept_list_entry_ebs. simpl. by rewrite Hk, Hf, Ht.
Qed.

Lemma GetConsumerAcceptList_items args dicts :
  args.(consumer_accept_list) = Some dicts ->
  GetConsumerAcceptList int args
  = for_each (flat_map sorted_items dicts) (accept_list_entry int) [].
Proof.
  intros H. unfold GetConsumerAcceptList. rewrite H. apply for_each_nested.
Qed.

Lemma GetConsumerAcceptListWithEndpointBasedSecurity_items args dicts :
  args.(consumer_accept_list) = Some dicts ->
  GetConsumerAcceptListWithEndpointBasedSecurity int args
  = for_each (flat_map sorted_items dicts) (accept_list_entry_ebs int) [].
Proof.
  intros H. unfold GetConsumerAcceptListWithEndpointBasedSecurity.
  rewrite H. apply for_each_nested.
Qed.
End normalizers.

(** ** Dicts: sorting the items forgets the iteration order *)

Lemma dict_wf_key_inj (d : dict) x y :
  dict_wf d = true -> x ∈ d -> y ∈ d -> x.1 = y.1 -> x = y.
Proof.
  unfold dict_wf. rewrite bool_decide_eq_true.
  induction d as [|z d IH]; intros Hnd Hx Hy Hxy; [by inversion Hx|].
  rewrite fmap_cons in Hnd. apply NoDup_cons in Hnd as [Hz Hnd].
  inversion Hx; inversion Hy; subst; auto.
  - exfalso. apply Hz. rewrite Hxy. by apply list_elem_of_fmap_2.
  - exfalso. apply Hz. rewrite <- Hxy. by apply list_elem_of_fmap_2.
Qed.

Lemma sorted_items_perm d : sorted_items d ≡ₚ d.
Proof. apply stable_sort_perm. Qed.

Lemma sorted_items_sorted d : Sorted (key_le String.ltb fst) (sorted_items d).
Proof. apply stable_sort_sorted, _. Qed.

Lemma sorted_items_order_free d1 d2 :
  dict_wf d1 = true -> d1 ≡ₚ d2 -> sorted_items d1 = sorted_items d2.
Proof.
  intros Hwf Hp. apply stable_sort_perm_eq; [apply _|done|].
  intros x y. by apply dict_wf_key_inj.
Qed.

Lemma flat_map_sorted_items_order_free ds1 ds2 :
  Forall (fun d => dict_wf d = true) ds1 -> Forall2 (≡ₚ) ds1 ds2 ->
  flat_map sorted_items ds1 = flat_map sorted_items ds2.
Proof.
  intros Hwf Hp. induction Hp as [|d1 d2 ds1 ds2 Hd Hds IH]; [done|].
  apply Forall_cons in Hwf as [Hwf1 Hwf]. simpl.
  by rewrite (sorted_items_order_free d1 d2), IH.
Qed.

(** ** [sorted_by_key] is what a sort asking Python's [<] computes *)

Lemma comparable_refl k : comparable k k = true.
Proof. unfold comparable. by rewrite !decide_True. Qed.

Lemma comparable_sym k1 k2 : comparable k1 k2 = comparable k2 k1.
Proof.
  destruct k1 as [i1 l1], k2 as [i2 l2]. unfold comparable. simpl.
  repeat case_decide; subst; try done;
    repeat match goal with |- context [match ?o with _ => _ end] =>
      destruct o end; done.
Qed.

(** A key between two others in the order cannot be comparable to both
    when they are not comparable to each other. *)
Lemma comparable_convex (x y z : limit_key) :
  comparable y x = true -> comparable y z = true ->
  comparable z x = false ->
  key_ltb y x = false -> key_ltb z y = false -> False.
Proof.
  destruct x as [xi xl], y as [yi yl], z as [zi zl].
  unfold comparable, key_ltb. cbn [fst snd].
  intros Hyx Hyz Hzx Hx Hz.
  destruct xi as [xi|], yi as [yi|], zi as [zi|],
    xl as [xl|], yl as [yl|], zl as [zl|];
    repeat case_decide; simplify_eq; try done.
  all: cbn [opt_ltb] in *.
  all: try (by destruct (ltb_total (ltb := String.ltb) _ _ Hx Hz)).
  all: try (by pose proof (ltb_total (ltb := String.ltb) _ _ Hx Hz);
            simplify_eq).
  all: exfalso; match goal with H : _ <> _ |- _ => apply H end;
    first [ by apply (ltb_total (ltb := String.ltb))
          | symmetry; by apply (ltb_total (ltb := String.ltb)) ].
Qed.

Lemma forallb_false_witness {A} (f : A -> bool) (l : list A) :
  forallb f l = false -> exists z, z ∈ l /\ f z = false.
Proof.
  induction l as [|y l IH]; simpl; [done|].
  destruct (f y) eqn:Hy; simpl.
  - intros (z & Hz & Hfz)%IH. exists z. split; [by right|done].
  - intros _. exists y. split; [by left|done].
Qed.

Lemma all_comparable_elem_of {A} (key : A -> limit_key) l :
  all_comparable key l = true
  <-> forall x y, x ∈ l -> y ∈ l -> comparable (key x) (key y) = true.
Proof.
  unfold all_comparable. rewrite forallb_forall. split.
  - intros H x y Hx Hy. apply list_elem_of_In in Hx, Hy.
    specialize (H x Hx). rewrite forallb_forall in H. by apply H.
  - intros H x Hx. apply forallb_forall. intros y Hy.
    apply H; by apply list_elem_of_In.
Qed.

Lemma all_comparable_cons {A} (key : A -> limit_key) x l :
  all_comparable key (x :: l)
  = forallb (fun y => comparable (key y) (key x)) l && all_comparable key l.
Proof.
  apply eq_true_iff_eq.
  rewrite andb_true_iff, !all_comparable_elem_of, forallb_forall. split.
  - intros H. split.
    + intros y Hy. apply H; [right; by apply list_elem_of_In|by left].
    + intros y z Hy Hz. apply H; by right.
  - intros [Hx Hl] y z Hy Hz.
    apply elem_of_cons in Hy as [->|Hy]; apply elem_of_cons in Hz as [->|Hz].
    + apply comparable_refl.
    + rewrite comparable_sym. by apply Hx, list_elem_of_In.
    + by apply Hx, list_elem_of_In.
    + by apply Hl.
Qed.

Lemma insort_py_ok {A} (key : A -> limit_key) x sl :
  (forall y, y ∈ sl -> comparable (key y) (key x) = true) ->
  insort_py key x sl = Ok (insort key_ltb key x sl).
Proof.
  induction sl as [|y sl IH]; intros Hc; simpl; [done|].
  unfold py_lt. rewrite (Hc y) by by left. cbn [bind].
  destruct (key_ltb (key y) (key x)); [|done].
  rewrite IH; [done|]. intros z Hz. apply Hc. by right.
Qed.

Lemma insort_py_raise {A} (key : A -> limit_key) x sl :
  StronglySorted (key_le key_ltb key) sl ->
  (forall y z, y ∈ sl -> z ∈ sl -> comparable (key y) (key z) = true) ->
  (exists z, z ∈ sl /\ comparable (key z) (key x) = false) ->
  insort_py key x sl = Raise TypeError.
Proof.
  induction 1 as [|y sl Hsl IH Hy]; intros Hc (z & Hz & Hzx).
  { by inversion Hz. }
  simpl. unfold py_lt.
  destruct (comparable (key y) (key x)) eqn:Hyx; [|done]. cbn [bind].
  apply elem_of_cons in Hz as [->|Hz]; [congruence|].
  destruct (key_ltb (key y) (key x)) eqn:Hlt.
  - rewrite IH; [done| |by exists z].
    intros u v Hu Hv. apply Hc; by right.
  - exfalso. apply (comparable_convex (key x) (key y) (key z)); try done.
    + apply Hc; [by left|by right].
    + rewrite Forall_forall in Hy. by apply Hy.
Qed.

(** The insertion sort that asks Python's [<] returns, and raises, as
    [sorted_by_key] does. *)
Lemma sort_py_sorted_by_key {A} (key : A -> limit_key) (l : list A) :
  sort_py key l = sorted_by_key key l.
Proof.
  induction l as [|x l IH]; [done|].
  cbn [sort_py]. rewrite IH. unfold sorted_by_key.
  rewrite all_comparable_cons.
  change (stable_sort key_ltb key (x :: l))
    with (insort key_ltb key x (stable_sort key_ltb key l)).
  destruct (all_comparable key l) eqn:Hl; cbn [bind].
  - rewrite andb_true_r.
    destruct (forallb _ l) eqn:Hx.
    + apply insort_py_ok. intros y Hy.
      rewrite forallb_forall in Hx. apply Hx, list_elem_of_In.
      by rewrite stable_sort_perm in Hy.
    + apply forallb_false_witness in Hx as (z & Hz & Hzx).
      apply insort_py_raise.
      * apply Sorted_StronglySorted; [apply key_le_trans, _|].
        apply stable_sort_sorted, _.
      * intros u v Hu Hv. rewrite stable_sort_perm in Hu, Hv.
        by apply (proj1 (all_comparable_elem_of key l) Hl).
      * exists z. split; [|done]. by rewrite stable_sort_perm.
  - by rewrite andb_false_r.
Qed.

(** ** The accept-list normalizers (claims C7, C8, C10) *)

(** *** Processing order *)

Lemma in_sorted_order_unique d items :
  dict_wf d = true -> in_sorted_order d items -> items = sorted_items d.
Proof.
  intros Hwf [Hp Hs].
  pose proof (key_le_trans String.ltb (fst : string * option string -> string))
    as Htrans.
  apply (Sorted_unique_strong (key_le String.ltb fst)).
  - intros x y Hx Hy Hxy Hyx. rewrite Hp in Hx.
    rewrite sorted_items_perm in Hy.
    apply (dict_wf_key_inj d); try done.
    symmetry. by apply (ltb_total (ltb := String.ltb)).
  - done.
  - apply sorted_items_sorted.
  - by rewrite Hp, sorted_items_perm.
Qed.

Lemma sorted_items_in_sorted_order d : in_sorted_order d (sorted_items d).
Proof. split; [apply sorted_items_perm|apply sorted_items_sorted]. Qed.

Lemma processing_order_unique dicts items :
  Forall (fun d => dict_wf d = true) dicts ->
  processing_order dicts items -> items = flat_map sorted_items dicts.
Proof.
  intros Hwf (per_mapping & Hper & ->).
  induction Hper as [|d its dicts per_mapping Hd Hper IH]; [done|].
  apply Forall_cons in Hwf as [Hwf1 Hwf]. simpl.
  by rewrite (in_sorted_order_unique d its Hwf1 Hd), IH.
Qed.

Lemma flat_map_sorted_items_processing_order dicts :
  processing_order dicts (flat_map sorted_items dicts).
Proof.
  exists (sorted_items <$> dicts). split.
  - induction dicts as [|d dicts IH]; constructor; [|done].
    apply sorted_items_in_sorted_order.
  - induction dicts as [|d dicts IH]; [done|]. simpl. by rewrite IH.
Qed.

(** *** From the loops to the items *)

Lemma for_each_processed {I E} (rule : I -> result E -> Prop)
    (body : I -> list E -> result (list E)) :
  (forall i acc,
      match body i acc with
      | Ok out => exists e, rule i (Ok e) /\ out = list_append acc e
      | Raise err => rule i (Raise err)
      end) ->
  forall items acc,
    match for_each items body acc with
    | Ok out =>
        exists entries,
          out = (acc ++ entries)%list /\ processed rule items (Ok entries)
    | Raise err => processed rule items (Raise err)
    end.
Proof.
  intros Hb. induction items as [|i items IH]; intros acc; simpl.
  - exists []. split; [by rewrite app_nil_r|constructor].
  - specialize (Hb i acc). destruct (body i acc) as [out|err]; cbn [bind].
    + destruct Hb as (e & He & ->). specialize (IH (list_append acc e)).
      destruct (for_each items body (list_append acc e)) as [out'|err'].
      * destruct IH as (entries & -> & Hes). exists (e :: entries).
        split; [unfold list_append; by rewrite <- app_assoc|].
        by constructor.
      * by apply (processed_later_error rule i e).
    + by constructor.
Qed.

Lemma processed_functional {I E} (rule : I -> result E -> Prop) :
  (forall i r1 r2, rule i r1 -> rule i r2 -> r1 = r2) ->
  forall items r1 r2,
    processed rule items r1 -> processed rule items r2 -> r1 = r2.
Proof.
  intros Hf items r1 r2 H1. revert r2.
  induction H1 as [|i e items entries He H1 IH|i e items err He H1 IH
                   |i err items He];
    intros r2 H2; inversion H2; subst; clear H2;
    repeat match goal with
           | Ha : rule ?i ?a, Hb : rule ?i ?b |- _ =>
               let Heq := fresh "Heq" in
               pose proof (Hf i a b Ha Hb) as Heq; clear Hb; simplify_eq
           end;
    repeat match goal with
           | Hp : processed rule _ _ |- _ => apply IH in Hp; simplify_eq
           end;
    done.
Qed.

Lemma processed_ok_inv {I E} (rule : I -> result E -> Prop) items entries :
  processed rule items (Ok entries) ->
  Forall2 (fun i e => rule i (Ok e)) items entries.
Proof.
  revert entries. induction items as [|i items IH]; intros entries H;
    inversion H; subst; constructor; auto.
Qed.

Lemma processed_raise_inv {I E} (rule : I -> result E -> Prop) items err :
  processed rule items (Raise err) ->
  exists i, i ∈ items /\ rule i (Raise err).
Proof.
  induction items as [|i items IH]; intros H; inversion H; subst.
  - destruct IH as (j & Hj & Hr); [done|]. exists j. split; [by right|done].
  - exists i. split; [by left|done].
Qed.

Lemma processed_first_error {I E} (rule : I -> result E -> Prop)
    before i after err :
  (forall j, j ∈ before -> exists e, rule j (Ok e)) ->
  rule i (Raise err) ->
  processed rule (before ++ i :: after) (Raise err).
Proof.
  intros Hb Hi. induction before as [|j before IH]; simpl.
  - by constructor.
  - destruct (Hb j) as [e He]; [by left|].
    apply (processed_later_error rule j e); [done|].
    apply IH. intros j' Hj'. apply Hb. by right.
Qed.

Lemma Forall2_elem_of_l {A B} (P : A -> B -> Prop) l k x :
  Forall2 P l k -> x ∈ l -> exists y, y ∈ k /\ P x y.
Proof.
  induction 1 as [|a b l k Hab Hlk IH]; intros Hx; [by inversion Hx|].
  apply elem_of_cons in Hx as [->|Hx].
  - exists b. split; [by left|done].
  - destruct (IH Hx) as (y & Hy & Hxy). exists y. split; [by right|done].
Qed.

Lemma Forall2_elem_of_r {A B} (P : A -> B -> Prop) l k y :
  Forall2 P l k -> y ∈ k -> exists x, x ∈ l /\ P x y.
Proof.
  induction 1 as [|a b l k Hab Hlk IH]; intros Hy; [by inversion Hy|].
  apply elem_of_cons in Hy as [->|Hy].
  - exists a. split; [by left|done].
  - destruct (IH Hy) as (x & Hx & Hxy). exists x. split; [by right|done].
Qed.

(** *** The two loop bodies follow the rules *)

Lemma accept_list_entry_rule int i acc :
  match service_attachments_utils.accept_list_entry int i acc with
  | Ok out => exists e, basic_form_rule int i (Ok e) /\ out = list_append acc e
  | Raise err => basic_form_rule int i (Raise err)
  end.
Proof.
  destruct i as [k v]. unfold service_attachments_utils.accept_list_entry.
  cbn [fst snd].
  destruct (str_in "/networks/" k) eqn:Hn.
  - destruct (py_int int v) as [n|err] eqn:Hv; cbn [bind].
    + exists (network_entry k n). split; [by constructor|done].
    + apply basic_rule_not_an_integer; auto.
  - destruct (str_in "/forwardingRules/" k) eqn:Hf.
    + by constructor.
    + destruct (py_int int v) as [n|err] eqn:Hv; cbn [bind].
      * exists (project_entry k n). split; [by constructor|done].
      * apply basic_rule_not_an_integer; auto.
Qed.

Lemma accept_list_entry_ebs_rule int i acc :
  match service_attachments_utils.accept_list_entry_ebs int i acc with
  | Ok out =>
      exists e, extended_form_rule int i (Ok e) /\ out = list_append acc e
  | Raise err => extended_form_rule int i (Raise err)
  end.
Proof.
  destruct i as [k v]. unfold service_attachments_utils.accept_list_entry_ebs.
  cbn [fst snd].
  destruct (str_in "/networks/" k) eqn:Hn.
  - destruct (truthy v) eqn:Ht; cbn [negb].
    + destruct (py_int int v) as [n|err] eqn:Hv; cbn [bind].
      * exists (network_entry k n). split; [by constructor|done].
      * by apply extended_rule_not_an_integer.
    + by constructor.
  - destruct (str_in "/forwardingRules/" k) eqn:Hf.
    + destruct (truthy v) eqn:Ht.
      * destruct (py_int int v) as [n|err] eqn:Hv; cbn [bind].
        -- exists (endpoint_entry k (Some n)). split; [by constructor|done].
        -- by apply extended_rule_not_an_integer.
      * exists (endpoint_entry k None). split; [by constructor|done].
    + destruct (truthy v) eqn:Ht; cbn [negb].
      * destruct (py_int int v) as [n|err] eqn:Hv; cbn [bind].
        -- exists (project_entry k n). split; [by constructor|done].
        -- by apply extended_rule_not_an_integer.
      * by apply extended_rule_project_no_limit.
Qed.

Lemma basic_form_rule_functional int i r1 r2 :
  basic_form_rule int i r1 -> basic_form_rule int i r2 -> r1 = r2.
Proof.
  intros H1 H2. inversion H1; subst; inversion H2; subst;
    repeat match goal with H : _ \/ _ |- _ => destruct H end;
    congruence.
Qed.

Lemma extended_form_rule_functional int i r1 r2 :
  extended_form_rule int i r1 -> extended_form_rule int i r2 -> r1 = r2.
Proof.
  intros H1 H2. inversion H1; subst; inversion H2; subst; congruence.
Qed.

Lemma GetConsumerAcceptList_processed int args dicts :
  args.(consumer_accept_list) = Some dicts ->
  processed (basic_form_rule int) (flat_map sorted_items dicts)
    (service_attachments_utils.GetConsumerAcceptList int args).
Proof.
  intros Hargs. rewrite (GetConsumerAcceptList_items int args dicts Hargs).
  pose proof (for_each_processed (basic_form_rule int) _
                (accept_list_entry_rule int)
                (flat_map sorted_items dicts) []) as H.
  destruct (for_each _ _ _) as [out|err]; [|done].
  by destruct H as (entries & -> & H).
Qed.

Lemma GetConsumerAcceptListWithEndpointBasedSecurity_processed
    int args dicts :
  args.(consumer_accept_list) = Some dicts ->
  processed (extended_form_rule int) (flat_map sorted_items dicts)
    (service_attachments_utils.GetConsumerAcceptListWithEndpointBasedSecurity
       int args).
Proof.
  intros Hargs.
  rewrite (GetConsumerAcceptListWithEndpointBasedSecurity_items
             int args dicts Hargs).
  pose proof (for_each_processed (extended_form_rule int) _
                (accept_list_entry_ebs_rule int)
                (flat_map sorted_items dicts) []) as H.
  destruct (for_each _ _ _) as [out|err]; [|done].
  by destruct H as (entries & -> & H).
Qed.

Lemma basic_form_rule_identifier int k v e :
  basic_form_rule int (k, v) (Ok e) ->
  entry_identifier e = Some k
  /\ (str_in "/networks/" k = true ->
      exists n, py_int int v = Ok n /\ e = network_entry k n).
Proof.
  intros H. inversion H; subst; (split; [done|]); intros Hn;
    [by eexists|congruence].
Qed.

Lemma extended_form_rule_identifier int k v e :
  extended_form_rule int (k, v) (Ok e) ->
  entry_identifier e = Some k
  /\ (str_in "/networks/" k = true ->
      truthy v = true /\ exists n, py_int int v = Ok n /\ e = network_entry k n).
Proof.
  intros H. inversion H; subst; (split; [done|]); intros Hn;
    try congruence. split; [done|]. by eexists.
Qed.



(** The examples of the specification: an endpoint without a limit, the
    same endpoint with the limit 5, and a network URL without a limit. *)
Example extended_form_run :
  service_attachments_utils.GetConsumerAcceptListWithEndpointBasedSecurity
    int_decimal (args_accept [[("regions/r/forwardingRules/e1", None)]] false)
  = Ok [endpoint_entry "regions/r/forwardingRules/e1" None]
  /\ service_attachments_utils.GetConsumerAcceptListWithEndpointBasedSecurity
       int_decimal
       (args_accept [[("regions/r/forwardingRules/e1", Some "5")]] false)
     = Ok [endpoint_entry "regions/r/forwardingRules/e1" (Some 5)]
  /\ service_attachments_utils.GetConsumerAcceptListWithEndpointBasedSecurity
       int_decimal
       (args_accept [[("projects/p1", Some "10")];
                     [("global/networks/n1", None)]] false)
     = Raise (ValueError
                "Connection limit is required for network URL: global/networks/n1").
Proof. repeat split; reflexivity. Qed.

(** C8.  The basic-form normalizer on a whole input.  The items are taken
    mapping after mapping, each mapping in sorted order of its
    identifiers, and what the call returns is what [basic_form_rule] gives
    item by item: a network URL gives a network-limit entry, otherwise an
    endpoint URL is the unsupported error, otherwise the item gives a
    project-limit entry; the limit of an entry is [int(limit)], and a limit
    that [int] rejects is that item's error.  The result does not depend on
    the iteration order of the mappings. *)
Theorem C8_basic_form_entries
    (int : string -> option Z) (args : Namespace) (dicts : list dict)
    (items : list (string * option string)) :
  args.(consumer_accept_list) = Some dicts ->
  Forall (fun d => dict_wf d = true) dicts ->
  processing_order dicts items ->
  (forall r,
      service_attachments_utils.GetConsumerAcceptList int args = r
      <-> processed (basic_form_rule int) items r)
  /\ (forall args' dicts',
      args'.(consumer_accept_list) = Some dicts' ->
      Forall2 (≡ₚ) dicts dicts' ->
      service_attachments_utils.GetConsumerAcceptList int args'
      = service_attachments_utils.GetConsumerAcceptList int args).
Proof.
  intros Hargs Hwf Horder. split.
  - intros r. rewrite (processing_order_unique dicts items Hwf Horder).
    pose proof (GetConsumerAcceptList_processed int args dicts Hargs) as Hrun.
    split.
    + by intros <-.
    + intros Hr.
      apply (processed_functional (basic_form_rule int)
               (basic_form_rule_functional int) _ _ _ Hrun Hr).
  - intros args' dicts' Hargs' Hperm.
    rewrite (GetConsumerAcceptList_items int args dicts),
      (GetConsumerAcceptList_items int args' dicts') by done.
    by rewrite (flat_map_sorted_items_order_free dicts dicts').
Qed.

Lemma C8_basic_form_entries_witness :
  processed (basic_form_rule int_decimal)
    [("projects/p1", Some "10"); ("projects/p2", Some "20");
     ("global/networks/n1", Some "7")]
    (Ok [project_entry "projects/p1" 10; project_entry "projects/p2" 20;
         network_entry "global/networks/n1" 7]).
Proof.
  destruct (C8_basic_form_entries int_decimal
              (args_accept accept_input_2 false) accept_input_2
              [("projects/p1", Some "10"); ("projects/p2", Some "20");
               ("global/networks/n1", Some "7")]) as [Hrun _].
  - reflexivity.
  - repeat constructor.
  - exists [[("projects/p1", Some "10"); ("projects/p2", Some "20")];
            [("global/networks/n1", Some "7")]].
    split; [|reflexivity].
    repeat constructor.
  - apply Hrun. reflexivity.
Defined.

(** The examples of the specification: a single project, and an input
    with an endpoint URL. *)
Example basic_form_run :
  service_attachments_utils.GetConsumerAcceptList int_decimal
    (args_accept [[("projects/p1", Some "10")]] false)
  = Ok [project_entry "projects/p1" 10]
  /\ service_attachments_utils.GetConsumerAcceptList int_decimal
       (args_accept [[("projects/p1", Some "10");
                      ("regions/r/forwardingRules/e1", Some "5")]] false)
     = Raise (ValueError
                "Private Service Connect Endpoint URL is not supported for consumer accept list").
Proof. split; reflexivity. Qed.

(** Against C8 read for every limit value: a project identifier whose
    limit is not an integer gives no project-limit entry; the call fails
    with the error of [int]. *)
Lemma C8_limit_not_an_integer_counterexample :
  args_limit_not_an_integer.(consumer_accept_list)
  = Some [[("projects/p1", Some "abc")]]
  /\ str_in "/networks/" "projects/p1" = false
  /\ str_in "/forwardingRules/" "projects/p1" = false
  /\ service_attachments_utils.GetConsumerAcceptList int_decimal
       args_limit_not_an_integer
     = Raise (IntValueError "abc").
Proof. repeat split; reflexivity. Qed.

(** C10.  The network test comes first in both normalizers.  An item of
    the input whose identifier has both ['/networks/'] and
    ['/forwardingRules/'] gives a network entry in the output of either
    normalizer, and every entry that carries this identifier is a network
    entry.  The basic form raises the unsupported-endpoint error only for
    an identifier without ['/networks/']; in the extended form the item
    needs a non-empty limit, and where it is the first item in error the
    call fails with the error naming the network URL. *)
Theorem C10_network_marker_first
    (int : string -> option Z) (args : Namespace) (dicts : list dict)
    (items : list (string * option string)) (k : string) (v : option string) :
  args.(consumer_accept_list) = Some dicts ->
  Forall (fun d => dict_wf d = true) dicts ->
  processing_order dicts items ->
  (k, v) ∈ items ->
  str_in "/networks/" k = true ->
  str_in "/forwardingRules/" k = true ->
  (forall out,
      service_attachments_utils.GetConsumerAcceptList int args = Ok out ->
      (exists n, py_int int v = Ok n /\ network_entry k n ∈ out)
      /\ (forall e, e ∈ out -> entry_identifier e = Some k ->
                    is_network_entry k e))
  /\ (service_attachments_utils.GetConsumerAcceptList int args
      = Raise (ValueError service_attachments_utils.unsupported_endpoint_msg) ->
      exists k' v',
        (k', v') ∈ items /\ str_in "/networks/" k' = false
        /\ str_in "/forwardingRules/" k' = true)
  /\ (forall out,
      service_attachments_utils.GetConsumerAcceptListWithEndpointBasedSecurity
        int args = Ok out ->
      truthy v = true
      /\ (exists n, py_int int v = Ok n /\ network_entry k n ∈ out)
      /\ (forall e, e ∈ out -> entry_identifier e = Some k ->
                    is_network_entry k e))
  /\ (truthy v = false ->
      (forall out,
          service_attachments_utils.GetConsumerAcceptListWithEndpointBasedSecurity
            int args <> Ok out)
      /\ (forall before after,
          items = (before ++ (k, v) :: after)%list ->
          (forall i, i ∈ before ->
                     exists e, extended_form_rule int i (Ok e)) ->
          service_attachments_utils.GetConsumerAcceptListWithEndpointBasedSecurity
            int args
          = Raise (ValueError
                     (service_attachments_utils.network_limit_required_msg k)))).
Proof.
  intros Hargs Hwf Horder Hin Hn Hf.
  rewrite (processing_order_unique dicts items Hwf Horder) in *.
  pose proof (GetConsumerAcceptList_processed int args dicts Hargs) as Hbasic.
  pose proof (GetConsumerAcceptListWithEndpointBasedSecurity_processed
                int args dicts Hargs) as Hext.
  repeat apply conj.
  - intros out Hout. rewrite Hout in Hbasic.
    apply processed_ok_inv in Hbasic. split.
    + destruct (Forall2_elem_of_l _ _ _ _ Hbasic Hin) as (e & He & Hrule).
      apply basic_form_rule_identifier in Hrule as [_ Hnet].
      destruct (Hnet Hn) as (n & Hv & ->). by exists n.
    + intros e He Hid.
      destruct (Forall2_elem_of_r _ _ _ _ Hbasic He) as ([k' v'] & _ & Hrule).
      apply basic_form_rule_identifier in Hrule as [Hid' Hnet].
      assert (k' = k) as -> by congruence.
      destruct (Hnet Hn) as (n & _ & ->). by exists n.
  - intros Hraise. rewrite Hraise in Hbasic.
    apply processed_raise_inv in Hbasic as ([k' v'] & Hin' & Hrule).
    exists k', v'. split; [done|].
    inversion Hrule; subst; [done|].
    match goal with H : py_int _ _ = Raise _ |- _ =>
      by apply py_int_not_value_error in H end.
  - intros out Hout. rewrite Hout in Hext.
    apply processed_ok_inv in Hext.
    destruct (Forall2_elem_of_l _ _ _ _ Hext Hin) as (e & He & Hrule).
    apply extended_form_rule_identifier in Hrule as [_ Hnet].
    destruct (Hnet Hn) as (Ht & n & Hv & ->).
    split; [done|]. split; [by exists n|].
    intros e He' Hid.
    destruct (Forall2_elem_of_r _ _ _ _ Hext He') as ([k' v'] & _ & Hrule).
    apply extended_form_rule_identifier in Hrule as [Hid' Hnet'].
    assert (k' = k) as -> by congruence.
    destruct (Hnet' Hn) as (_ & n' & _ & ->). by exists n'.
  - intros Ht. split.
    + intros out Hout. rewrite Hout in Hext.
      apply processed_ok_inv in Hext.
      destruct (Forall2_elem_of_l _ _ _ _ Hext Hin) as (e & He & Hrule).
      apply extended_form_rule_identifier in Hrule as [_ Hnet].
      destruct (Hnet Hn) as (Ht' & _). congruence.
    + intros before after Hitems Hbefore.
      apply (processed_functional (extended_form_rule int)
               (extended_form_rule_functional int) _ _ _ Hext).
      rewrite Hitems. apply processed_first_error; [done|].
      by constructor.
Qed.

Lemma C10_network_marker_first_witness :
  ((exists n,
      py_int int_decimal (Some "3") = Ok n
      /\ network_entry "x/networks/n/forwardingRules/e" n
         ∈ [project_entry "projects/p1" 10;
            network_entry "x/networks/n/forwardingRules/e" 3])
  /\ forall e,
      e ∈ [project_entry "projects/p1" 10;
           network_entry "x/networks/n/forwardingRules/e" 3] ->
      entry_identifier e = Some "x/networks/n/forwardingRules/e" ->
      is_network_entry "x/networks/n/forwardingRules/e" e)
  /\ truthy (Some "3") = true
  /\ (exists n,
        py_int int_decimal (Some "3") = Ok n
        /\ network_entry "x/networks/n/forwardingRules/e" n
           ∈ [project_entry "projects/p1" 10;
              network_entry "x/networks/n/forwardingRules/e" 3]).
Proof.
  destruct (C10_network_marker_first int_decimal
              (args_accept accept_input_both_markers false)
              accept_input_both_markers
              [("projects/p1", Some "10");
               ("x/networks/n/forwardingRules/e", Some "3")]
              "x/networks/n/forwardingRules/e" (Some "3"))
    as (Hbasic & _ & Hext & _).
  - reflexivity.
  - repeat constructor.
  - exists [[("projects/p1", Some "10");
             ("x/networks/n/forwardingRules/e", Some "3")]].
    split; [|reflexivity].
    repeat constructor.
  - right. left.
  - reflexivity.
  - reflexivity.
  - split; [apply Hbasic; reflexivity|].
    destruct (Hext [project_entry "projects/p1" 10;
                    network_entry "x/networks/n/forwardingRules/e" 3])
      as (Ht & Hn & _); [reflexivity|].
    exact (conj Ht Hn).
Defined.

(** The same identifier in the extended form, without a limit. *)
Example network_marker_first_needs_a_limit :
  service_attachments_utils.GetConsumerAcceptListWithEndpointBasedSecurity
    int_decimal
    (args_accept [[("x/networks/n/forwardingRules/e", None)]] false)
  = Raise (ValueError
             "Connection limit is required for network URL: x/networks/n/forwardingRules/e").
Proof. reflexivity. Qed.

(** ** Pruning of obsolete entries (claim C4) *)

Lemma list_in_true x xs : list_in x xs = true <-> x ∈ xs.
Proof. unfold list_in. apply bool_decide_eq_true. Qed.

Lemma list_in_false x xs : list_in x xs = false <-> x ∉ xs.
Proof. unfold list_in. apply bool_decide_eq_false. Qed.

Lemma list_remove_first x xs :
  x ∈ xs -> removed_first x xs (list_remove x xs).
Proof.
  induction xs as [|y xs IH]; intros Hx; [by inversion Hx|]. simpl.
  destruct (decide (x = y)) as [->|Hne].
  - exists [], xs. repeat split. apply not_elem_of_nil.
  - destruct IH as (l1 & l2 & -> & Hl1 & ->).
    { inversion Hx; subst; done. }
    exists (y :: l1), l2. repeat split.
    rewrite not_elem_of_cons. done.
Qed.

Lemma removed_first_NoDup x xs ys :
  removed_first x xs ys -> NoDup xs -> x ∉ ys.
Proof.
  intros (l1 & l2 & -> & Hl1 & ->) Hnd.
  apply NoDup_app in Hnd as (_ & _ & Hl2). apply NoDup_cons in Hl2 as [Hx _].
  rewrite elem_of_app. tauto.
Qed.

Lemma filter_length_same {A} (f : A -> bool) (l : list A) :
  length (List.filter f l) = length l -> List.filter f l = l.
Proof.
  induction l as [|x l IH]; simpl; [done|].
  destruct (f x); simpl; intros H.
  - f_equal. apply IH. lia.
  - pose proof (List.filter_length_le f l). lia.
Qed.

Lemma filter_keep_ext {A} (keep keep' : A -> bool) (P : A -> Prop) l :
  (forall e, keep e = true <-> P e) -> (forall e, keep' e = true <-> P e) ->
  List.filter keep l = List.filter keep' l.
Proof.
  intros H H'. apply List.filter_ext. intros e.
  specialize (H e). specialize (H' e).
  destruct (keep e), (keep' e); intuition congruence.
Qed.

Lemma keep_accepted_spec ids e :
  service_attachments_utils.keep_accepted ids e = true
  <-> ~ obsolete_accepted ids e.
Proof.
  unfold service_attachments_utils.keep_accepted, obsolete_accepted.
  destruct (messages.endpointUrl e) as [[|c u]|].
  - split; [|done]. intros _ (url & [= <-] & Hne & _). done.
  - rewrite bool_decide_eq_true. split.
    + intros Hin (url & [= <-] & _ & Hnot). done.
    + intros Hno. destruct (decide (trailing_id (String c u) ∈ ids)); [done|].
      exfalso. apply Hno. by exists (String c u).
  - split; [|done]. intros _ (url & [=] & _).
Qed.

Lemma keep_rejected_spec ids e :
  service_attachments_utils.keep_rejected ids e = true
  <-> ~ obsolete_rejected ids e.
Proof.
  unfold service_attachments_utils.keep_rejected, obsolete_rejected.
  rewrite orb_true_iff, negb_true_iff, bool_decide_eq_true.
  destruct (str_in "/forwardingRules/" e);
    destruct (decide (trailing_id e ∈ ids)); intuition congruence.
Qed.

(** The marking of the Field-Clear List, for a pass that changed the
    list. *)
Lemma mark_cleared_empty name cf :
  let cf' := mark_cleared name true cf in
  (name ∈ cf' /\ (NoDup cf -> NoDup cf'))
  /\ (name ∈ cf -> cf' = cf)
  /\ (name ∉ cf -> cf' = list_append cf name).
Proof.
  unfold mark_cleared, list_append. simpl.
  destruct (list_in name cf) eqn:Hin; simpl.
  - apply list_in_true in Hin. repeat split; auto; done.
  - apply list_in_false in Hin. repeat split; auto.
    + apply elem_of_app. right. by left.
    + intros Hnd. apply NoDup_app. repeat split; auto.
      * intros x Hx Hx'. apply list_elem_of_singleton in Hx' as ->. done.
      * apply NoDup_singleton.
    + done.
Qed.

Lemma mark_cleared_nonempty name cf :
  let cf' := mark_cleared name false cf in
  (name ∈ cf -> removed_first name cf cf' /\ (NoDup cf -> name ∉ cf'))
  /\ (name ∉ cf -> cf' = cf).
Proof.
  unfold mark_cleared. simpl.
  destruct (list_in name cf) eqn:Hin; simpl.
  - apply list_in_true in Hin. split; [|done]. intros _.
    pose proof (list_remove_first name cf Hin) as Hr. split; [done|].
    by apply removed_first_NoDup.
  - apply list_in_false in Hin. split; done.
Qed.

(** One pass, for any list field: filter, compare the lengths, mark. *)
Lemma filter_pass_pruning {A} (obsolete : A -> Prop) (keep : A -> bool)
    name (l : list A) cf :
  (forall e, keep e = true <-> ~ obsolete e) ->
  let cleaned := List.filter keep l in
  let changed := negb (bool_decide (length cleaned = length l)) in
  pruning_pass obsolete name (Some l) cf changed (Some cleaned)
    (if changed then mark_cleared name (bool_decide (cleaned = [])) cf
     else cf).
Proof.
  intros Hkeep cleaned changed. unfold pruning_pass. simpl.
  split; [|split; [|split; [|split]]].
  - intros keep' Hkeep'. f_equal. by apply (filter_keep_ext _ _ (fun e => ~ obsolete e)).
  - unfold changed. rewrite negb_false_iff, bool_decide_eq_true. done.
  - by intros ->.
  - intros -> Hempty. rewrite bool_decide_true by done. apply mark_cleared_empty.
  - intros -> Hne. rewrite bool_decide_false by done.
    apply mark_cleared_nonempty.
Qed.

Lemma pruning_pass_untouched {A} (obsolete : A -> Prop) name old cf :
  old = None \/ old = Some [] ->
  pruning_pass obsolete name old cf false old cf.
Proof.
  intros Hold. unfold pruning_pass.
  split; [|split; [|split; [|split]]]; try done.
  intros keep _. by destruct Hold as [-> | ->].
Qed.

Lemma CleanObsoleteAcceptedEndpointUrls_eq sa ids cf :
  service_attachments_utils.CleanObsoleteAcceptedEndpointUrls sa ids cf
  = match sa.(messages.consumerAcceptLists) with
    | None | Some [] => (false, sa, cf)
    | Some l =>
        let cleaned := List.filter (service_attachments_utils.keep_accepted ids) l in
        let changed := negb (bool_decide (length cleaned = length l)) in
        (changed, assign.consumerAcceptLists (Some cleaned) sa,
         if changed
         then mark_cleared consumerAcceptLists_name (bool_decide (cleaned = [])) cf
         else cf)
    end.
Proof.
  unfold service_attachments_utils.CleanObsoleteAcceptedEndpointUrls,
    mark_cleared.
  destruct (messages.consumerAcceptLists sa) as [[|e l]|]; try done.
  cbv zeta. case_decide as Hlen.
  - by rewrite (bool_decide_true (length _ = length _)).
  - rewrite (bool_decide_false (length _ = length _)) by done.
    simpl negb. cbv iota.
    repeat match goal with |- context [if ?b then _ else _] =>
      destruct b eqn:? end; done.
Qed.

Lemma CleanObsoleteRejectedEndpointUrls_eq sa ids cf :
  service_attachments_utils.CleanObsoleteRejectedEndpointUrls sa ids cf
  = match sa.(messages.consumerRejectLists) with
    | None | Some [] => (false, sa, cf)
    | Some l =>
        let cleaned := List.filter (service_attachments_utils.keep_rejected ids) l in
        let changed := negb (bool_decide (length cleaned = length l)) in
        (changed, assign.consumerRejectLists (Some cleaned) sa,
         if changed
         then mark_cleared consumerRejectLists_name (bool_decide (cleaned = [])) cf
         else cf)
    end.
Proof.
  unfold service_attachments_utils.CleanObsoleteRejectedEndpointUrls,
    mark_cleared.
  destruct (messages.consumerRejectLists sa) as [[|e l]|]; try done.
  cbv zeta. case_decide as Hlen.
  - by rewrite (bool_decide_true (length _ = length _)).
  - rewrite (bool_decide_false (length _ = length _)) by done.
    simpl negb. cbv iota.
    repeat match goal with |- context [if ?b then _ else _] =>
      destruct b eqn:? end; done.
Qed.

Lemma assign_consumerAcceptLists_same sa :
  assign.consumerAcceptLists sa.(messages.consumerAcceptLists) sa = sa.
Proof. by destruct sa. Qed.

Lemma assign_consumerRejectLists_same sa :
  assign.consumerRejectLists sa.(messages.consumerRejectLists) sa = sa.
Proof. by destruct sa. Qed.

Lemma CleanObsoleteAccepted_fields sa ids cf changed sa' cf' :
  service_attachments_utils.CleanObsoleteAcceptedEndpointUrls sa ids cf
  = (changed, sa', cf') ->
  exists accept, sa' = assign.consumerAcceptLists accept sa.
Proof.
  rewrite CleanObsoleteAcceptedEndpointUrls_eq.
  destruct (messages.consumerAcceptLists sa) as [[|e0 l]|];
    intros [= <- <- <-];
    first [ by eexists
          | exists (messages.consumerAcceptLists sa);
            by rewrite assign_consumerAcceptLists_same ].
Qed.

Lemma CleanObsoleteRejected_fields sa ids cf changed sa' cf' :
  service_attachments_utils.CleanObsoleteRejectedEndpointUrls sa ids cf
  = (changed, sa', cf') ->
  exists reject, sa' = assign.consumerRejectLists reject sa.
Proof.
  rewrite CleanObsoleteRejectedEndpointUrls_eq.
  destruct (messages.consumerRejectLists sa) as [[|e0 l]|];
    intros [= <- <- <-];
    first [ by eexists
          | exists (messages.consumerRejectLists sa);
            by rewrite assign_consumerRejectLists_same ].
Qed.

Lemma filter_keeps {A} (keep : A -> bool) (l : list A) e :
  e ∈ l -> keep e = true -> e ∈ List.filter keep l.
Proof.
  rewrite !list_elem_of_In, List.filter_In. auto.
Qed.

(** C4.  Each pruning pass keeps exactly the entries that are not obsolete
    (accept entries without an endpoint URL and reject entries without the
    endpoint-path marker are always kept) and touches no other field of the
    attachment; it returns false when the length is unchanged; when the
    length changed it returns true and, if the list is now empty, the field
    name is in the Field-Clear List afterwards, appended only when it was
    absent (so a list without duplicates stays so), and if the list is not
    empty the name, when present, is removed. *)
Theorem C4_pruning_passes
    (service_attachment : messages.ServiceAttachment)
    (connected_endpoint_ids : gset string) (cleared_fields : list string)
    (changed : bool) (sa' : messages.ServiceAttachment) (cf' : list string) :
  (service_attachments_utils.CleanObsoleteAcceptedEndpointUrls
     service_attachment connected_endpoint_ids cleared_fields
   = (changed, sa', cf') ->
   pruning_pass (obsolete_accepted connected_endpoint_ids)
     "consumerAcceptLists"
     service_attachment.(messages.consumerAcceptLists) cleared_fields
     changed sa'.(messages.consumerAcceptLists) cf'
   /\ (forall e,
        e ∈ default [] service_attachment.(messages.consumerAcceptLists) ->
        truthy e.(messages.endpointUrl) = false ->
        e ∈ default [] sa'.(messages.consumerAcceptLists))
   /\ sa' = assign.consumerAcceptLists sa'.(messages.consumerAcceptLists)
              service_attachment)
  /\ (service_attachments_utils.CleanObsoleteRejectedEndpointUrls
        service_attachment connected_endpoint_ids cleared_fields
      = (changed, sa', cf') ->
      pruning_pass (obsolete_rejected connected_endpoint_ids)
        "consumerRejectLists"
        service_attachment.(messages.consumerRejectLists) cleared_fields
        changed sa'.(messages.consumerRejectLists) cf'
      /\ (forall e,
           e ∈ default [] service_attachment.(messages.consumerRejectLists) ->
           str_in "/forwardingRules/" e = false ->
           e ∈ default [] sa'.(messages.consumerRejectLists))
      /\ sa' = assign.consumerRejectLists sa'.(messages.consumerRejectLists)
                 service_attachment).
Proof.
  split.
  - rewrite CleanObsoleteAcceptedEndpointUrls_eq.
    destruct (messages.consumerAcceptLists service_attachment)
      as [[|e0 l]|] eqn:Hold.
    + intros [= <- <- <-]. rewrite Hold. split; [|split].
      * apply pruning_pass_untouched. by right.
      * done.
      * by rewrite <- Hold, assign_consumerAcceptLists_same.
    + intros [= <- <- <-]. split; [|split].
      * apply (filter_pass_pruning _ _ consumerAcceptLists_name (e0 :: l)).
        apply keep_accepted_spec.
      * intros e He Ht. apply (filter_keeps _ (e0 :: l)); [done|].
        unfold service_attachments_utils.keep_accepted.
        by destruct (messages.endpointUrl e) as [[|??]|].
      * by destruct service_attachment.
    + intros [= <- <- <-]. rewrite Hold. split; [|split].
      * apply pruning_pass_untouched. by left.
      * done.
      * by rewrite <- Hold, assign_consumerAcceptLists_same.
  - rewrite CleanObsoleteRejectedEndpointUrls_eq.
    destruct (messages.consumerRejectLists service_attachment)
      as [[|e0 l]|] eqn:Hold.
    + intros [= <- <- <-]. rewrite Hold. split; [|split].
      * apply pruning_pass_untouched. by right.
      * done.
      * by rewrite <- Hold, assign_consumerRejectLists_same.
    + intros [= <- <- <-]. split; [|split].
      * apply (filter_pass_pruning _ _ consumerRejectLists_name (e0 :: l)).
        apply keep_rejected_spec.
      * intros e He Ht. apply (filter_keeps _ (e0 :: l)); [done|].
        unfold service_attachments_utils.keep_rejected. by rewrite Ht.
      * by destruct service_attachment.
    + intros [= <- <- <-]. rewrite Hold. split; [|split].
      * apply pruning_pass_untouched. by left.
      * done.
      * by rewrite <- Hold, assign_consumerRejectLists_same.
Qed.

Lemma C4_pruning_passes_witness :
  pruning_pass (obsolete_accepted connected_ids_2) "consumerAcceptLists"
    (Some [endpoint_entry "projects/c/regions/r/forwardingRules/e3" None])
    [] true (Some []) ["consumerAcceptLists"]
  /\ pruning_pass (obsolete_rejected connected_ids_2) "consumerRejectLists"
       (Some ["projects/c/regions/r/forwardingRules/e3"; "projects/p9"])
       ["consumerRejectLists"] true (Some ["projects/p9"]) [].
Proof.
  split.
  - apply (proj1 (C4_pruning_passes attachment_2 connected_ids_2 [] true
                    (assign.consumerAcceptLists (Some []) attachment_2)
                    ["consumerAcceptLists"])).
    vm_compute. reflexivity.
  - apply (proj2 (C4_pruning_passes attachment_2 connected_ids_2
                    ["consumerRejectLists"] true
                    (assign.consumerRejectLists (Some ["projects/p9"])
                       attachment_2)
                    [])).
    vm_compute. reflexivity.
Defined.

(** ** The service-account name hook (claim C9) *)

Lemma truthy_Some s : s <> "" -> truthy (Some s) = true.
Proof. by destruct s. Qed.

(** C9.  With [service_account] specified: a missing project raises the
    required-argument error naming [--project]; otherwise a missing
    location raises the one naming [--location]; in both cases [args] and
    the request are as before the call.  With both present the hook
    returns the request with [apiKey.serviceAccountName] set to
    ['projects/{project}/locations/{location}/serviceAccounts/{id}'], the
    other fields of the request and of its [apiKey] being kept. *)
Theorem C9_service_account_name_hook
    (ref : string) (args : hooks.Namespace) (request : hooks.Request)
    (sa_id : string) :
  args.(hooks.service_account) = Some sa_id ->
  (truthy args.(hooks.project) = false ->
   hooks.ConstructServiceAccountName ref args request
   = (Raise (RequiredArgumentException "--project"
               "The --project flag is required."),
      (args, request)))
  /\ (truthy args.(hooks.project) = true ->
      truthy args.(hooks.location) = false ->
      hooks.ConstructServiceAccountName ref args request
      = (Raise (RequiredArgumentException "--location"
                  "The --location flag is required."),
         (args, request)))
  /\ (forall project location,
      args.(hooks.project) = Some project -> project <> "" ->
      args.(hooks.location) = Some location -> location <> "" ->
      exists request',
        hooks.ConstructServiceAccountName ref args request
        = (Ok request',
           ({| hooks.service_account := None;
               hooks.project := Some project;
               hooks.location := Some location |}, request'))
        /\ hooks.serviceAccountName <$> request'.(hooks.apiKey)
           = Some (Some ("projects/" ++ project ++ "/locations/" ++ location
                         ++ "/serviceAccounts/" ++ sa_id))
        /\ hooks.apiKeyOtherFields <$> request'.(hooks.apiKey)
           = Some (default [] (hooks.apiKeyOtherFields
                               <$> request.(hooks.apiKey)))
        /\ request'.(hooks.requestOtherFields)
           = request.(hooks.requestOtherFields)).
Proof.
  intros Hsa. unfold hooks.ConstructServiceAccountName. rewrite Hsa.
  split; [|split].
  - by intros ->.
  - by intros -> ->.
  - intros project location -> Hp -> Hl.
    rewrite !truthy_Some by done. simpl.
    eexists. split; [reflexivity|].
    destruct (hooks.apiKey request) eqn:Hkey; simpl; rewrite ?Hkey; done.
Qed.

Lemma C9_service_account_name_hook_witness :
  hooks.ConstructServiceAccountName "keys/k1"
    {| hooks.service_account := Some "robot"; hooks.project := None;
       hooks.location := Some "us-west1" |} request_1
  = (Raise (RequiredArgumentException "--project"
              "The --project flag is required."),
     ({| hooks.service_account := Some "robot"; hooks.project := None;
         hooks.location := Some "us-west1" |}, request_1))
  /\ hooks.ConstructServiceAccountName "keys/k1"
       {| hooks.service_account := Some "robot"; hooks.project := Some "p1";
          hooks.location := Some "" |} request_1
     = (Raise (RequiredArgumentException "--location"
                 "The --location flag is required."),
        ({| hooks.service_account := Some "robot"; hooks.project := Some "p1";
            hooks.location := Some "" |}, request_1))
  /\ exists request',
       hooks.ConstructServiceAccountName "keys/k1"
         {| hooks.service_account := Some "robot"; hooks.project := Some "p1";
            hooks.location := Some "us-west1" |} request_1
       = (Ok request',
          ({| hooks.service_account := None; hooks.project := Some "p1";
              hooks.location := Some "us-west1" |}, request'))
       /\ hooks.serviceAccountName <$> request'.(hooks.apiKey)
          = Some (Some "projects/p1/locations/us-west1/serviceAccounts/robot").
Proof.
  split; [|split].
  - apply (C9_service_account_name_hook "keys/k1"
             {| hooks.service_account := Some "robot"; hooks.project := None;
                hooks.location := Some "us-west1" |} request_1 "robot" eq_refl).
    reflexivity.
  - apply (C9_service_account_name_hook "keys/k1"
             {| hooks.service_account := Some "robot";
                hooks.project := Some "p1";
                hooks.location := Some "" |} request_1 "robot" eq_refl);
      reflexivity.
  - destruct (C9_service_account_name_hook "keys/k1"
                {| hooks.service_account := Some "robot";
                   hooks.project := Some "p1";
                   hooks.location := Some "us-west1" |} request_1 "robot"
                eq_refl) as (_ & _ & Hok).
    destruct (Hok "p1" "us-west1" eq_refl ltac:(discriminate)
                eq_refl ltac:(discriminate))
      as (request' & Hrun & Hname & _).
    exists request'. split; [exact Hrun|exact Hname].
Defined.

(** ** The statements of [_Modify], one at a time *)

Lemma frame_refl pruning args st : frame pruning args st st.
Proof. unfold frame, unmodified_fields. tauto. Qed.

Lemma frame_trans pruning args st1 st2 st3 :
  frame pruning args st1 st2 -> frame pruning args st2 st3 ->
  frame pruning args st1 st3.
Proof.
  unfold frame, unmodified_fields. intuition (eauto; congruence).
Qed.

Section steps.
Variable int : string -> option Z.
Variable support : bool.
Variable args : Namespace.

Local Ltac frame_step :=
  unfold frame, unmodified_fields; simpl;
  repeat split; intros; try done; try congruence.

Lemma modify_target_service_frame st :
  frame (pruning_requested support args) args st (UpdateHelper.modify_target_service args st).
Proof.
  unfold UpdateHelper.modify_target_service.
  destruct (target_service args) eqn:E; [|apply frame_refl]. frame_step.
Qed.

Lemma modify_description_frame st :
  frame (pruning_requested support args) args st (UpdateHelper.modify_description args st).
Proof.
  unfold UpdateHelper.modify_description.
  destruct (description args) eqn:E; [|apply frame_refl].
  destruct (negb _); [|apply frame_refl]. frame_step.
Qed.

Lemma modify_connection_preference_frame st :
  frame (pruning_requested support args) args st (UpdateHelper.modify_connection_preference args st).
Proof.
  unfold UpdateHelper.modify_connection_preference.
  destruct (connection_preference args) eqn:E; [|apply frame_refl].
  destruct (negb _); [|apply frame_refl]. frame_step.
Qed.

Lemma modify_enable_proxy_protocol_frame st :
  frame (pruning_requested support args) args st (UpdateHelper.modify_enable_proxy_protocol args st).
Proof.
  unfold UpdateHelper.modify_enable_proxy_protocol.
  destruct (enable_proxy_protocol args) eqn:E; [|apply frame_refl].
  destruct (negb _); [|apply frame_refl]. frame_step.
Qed.

Lemma modify_nat_subnets_frame st :
  frame (pruning_requested support args) args st (UpdateHelper.modify_nat_subnets args st).
Proof.
  unfold UpdateHelper.modify_nat_subnets.
  destruct (nat_subnets args) eqn:E; [|apply frame_refl].
  match goal with |- context [if ?b then _ else _] => destruct b end;
    [|apply frame_refl].
  frame_step.
Qed.

Lemma modify_consumer_reject_list_frame st :
  frame (pruning_requested support args) args st (UpdateHelper.modify_consumer_reject_list args st).
Proof.
  unfold UpdateHelper.modify_consumer_reject_list.
  destruct (consumer_reject_list args) eqn:E; [|apply frame_refl].
  match goal with |- context [if ?b then _ else _] => destruct b end;
    [|apply frame_refl].
  destruct (bool_decide _); frame_step.
  unfold list_append. apply elem_of_app. by left.
Qed.

Lemma modify_consumer_accept_list_frame st st' :
  UpdateHelper.modify_consumer_accept_list int support args st = Ok st' ->
  frame (pruning_requested support args) args st st'.
Proof.
  unfold UpdateHelper.modify_consumer_accept_list.
  destruct (consumer_accept_list args) eqn:E;
    [|intros [= <-]; apply frame_refl].
  destruct (UpdateHelper._GetConsumerAcceptList _ _ _); [|done]. simpl.
  destruct (sorted_by_key _ _); [|done]. simpl.
  match goal with |- context [bind ?m _] => destruct m as [[|]|] end;
    simpl; [|intros [= <-]; apply frame_refl|done].
  destruct (bool_decide _); intros [= <-]; frame_step.
  unfold list_append. apply elem_of_app. by left.
Qed.

Lemma _RemoveObsoleteEndpointEntries_fields sa cf updated sa' cf' :
  UpdateHelper._RemoveObsoleteEndpointEntries sa cf = (updated, sa', cf') ->
  exists accept reject,
    sa' = assign.consumerRejectLists reject
            (assign.consumerAcceptLists accept sa).
Proof.
  unfold UpdateHelper._RemoveObsoleteEndpointEntries.
  destruct (service_attachments_utils.CleanObsoleteAcceptedEndpointUrls _ _ _)
    as [[a sa1] cf1] eqn:Ha.
  destruct (service_attachments_utils.CleanObsoleteRejectedEndpointUrls _ _ _)
    as [[r sa2] cf2] eqn:Hr.
  intros [= <- <- <-].
  destruct (CleanObsoleteAccepted_fields _ _ _ _ _ _ Ha) as [accept ->].
  destruct (CleanObsoleteRejected_fields _ _ _ _ _ _ Hr) as [reject ->].
  by exists accept, reject.
Qed.

Lemma modify_remove_obsolete_frame st st' :
  UpdateHelper.modify_remove_obsolete support args st = Ok st' ->
  frame (pruning_requested support args) args st st'.
Proof.
  unfold UpdateHelper.modify_remove_obsolete, pruning_requested.
  destruct (support && _) eqn:Hp; [|intros [= <-]; apply frame_refl].
  destruct (_ || _); [done|].
  destruct (UpdateHelper._RemoveObsoleteEndpointEntries _ _)
    as [[updated sa'] cf'] eqn:Hr.
  apply _RemoveObsoleteEndpointEntries_fields in Hr as (a & r & ->).
  intros [= <-]. frame_step.
Qed.

Lemma modify_reconcile_connections_frame st :
  frame (pruning_requested support args) args st (UpdateHelper.modify_reconcile_connections args st).
Proof.
  unfold UpdateHelper.modify_reconcile_connections.
  destruct (reconcile_connections args) eqn:E; [|apply frame_refl].
  destruct (negb _); [|apply frame_refl]. frame_step.
Qed.

Lemma modify_propagated_connection_limit_frame st :
  frame (pruning_requested support args) args st
    (UpdateHelper.modify_propagated_connection_limit args st).
Proof.
  unfold UpdateHelper.modify_propagated_connection_limit.
  destruct (propagated_connection_limit args) eqn:E; [|apply frame_refl].
  destruct (negb _); [|apply frame_refl]. frame_step.
Qed.

Lemma before_accept_list_frame st :
  frame (pruning_requested support args) args st (before_accept_list args st).
Proof.
  unfold before_accept_list.
  repeat (eapply frame_trans;
          [|first [ apply modify_consumer_reject_list_frame
                  | apply modify_nat_subnets_frame
                  | apply modify_enable_proxy_protocol_frame
                  | apply modify_connection_preference_frame
                  | apply modify_description_frame ]]).
  apply modify_target_service_frame.
Qed.

Lemma _Modify_body_inv st0 st :
  UpdateHelper._Modify_body int support args st0 = Ok st ->
  exists st7 st8,
    UpdateHelper.modify_consumer_accept_list int support args
      (before_accept_list args st0) = Ok st7
    /\ UpdateHelper.modify_remove_obsolete support args st7 = Ok st8
    /\ st = UpdateHelper.modify_propagated_connection_limit args
              (UpdateHelper.modify_reconcile_connections args st8).
Proof.
  unfold UpdateHelper._Modify_body. cbv zeta.
  fold (before_accept_list args st0).
  destruct (UpdateHelper.modify_consumer_accept_list _ _ _ _)
    as [st7|] eqn:H7; cbn [bind]; [|discriminate].
  destruct (UpdateHelper.modify_remove_obsolete _ _ _) as [st8|] eqn:H8;
    cbn [bind]; [|discriminate].
  intros [= <-]. exists st7, st8. auto.
Qed.

Lemma _Modify_body_frame st0 st :
  UpdateHelper._Modify_body int support args st0 = Ok st ->
  frame (pruning_requested support args) args st0 st.
Proof.
  intros H. apply _Modify_body_inv in H as (st7 & st8 & H7 & H8 & ->).
  eapply frame_trans; [|apply modify_propagated_connection_limit_frame].
  eapply frame_trans; [|apply modify_reconcile_connections_frame].
  eapply frame_trans; [|by apply modify_remove_obsolete_frame].
  eapply frame_trans; [|by apply modify_consumer_accept_list_frame].
  apply before_accept_list_frame.
Qed.

Lemma _Modify_inv old_resource cleared_fields r st :
  UpdateHelper._Modify int support args old_resource cleared_fields
  = Ok (r, st) ->
  UpdateHelper._Modify_body int support args
    (UpdateHelper.enter old_resource cleared_fields) = Ok st
  /\ r = if st.(UpdateHelper.is_updated)
         then Some st.(UpdateHelper.replacement) else None.
Proof.
  unfold UpdateHelper._Modify.
  destruct (UpdateHelper._Modify_body _ _ _ _) as [st'|]; cbn [bind];
    [|discriminate].
  destruct (UpdateHelper.is_updated st') eqn:Hu; intros [= <- <-];
    by rewrite Hu.
Qed.
End steps.

(** ** The patch builder (claims C1, C3, C5, C6) *)

(** C1.  The code at a description override given together with the
    pruning flag, on an attachment with nothing to prune: the copy has the
    new description, yet [_Modify] returns [None] and [Run] returns the
    fetched resource without a Patch request, because the result of the
    pruning pass overwrites [is_updated]. *)
Theorem C1_description_update_lost_after_pruning (int : string -> option Z) :
  exists st,
    UpdateHelper._Modify int true args_description_and_pruning attachment_1 []
    = Ok (None, st)
    /\ st.(UpdateHelper.replacement).(messages.description) = Some "new"
    /\ attachment_1.(messages.description) = Some "old"
    /\ st.(UpdateHelper.replacement).(messages.consumerAcceptLists)
       = attachment_1.(messages.consumerAcceptLists)
    /\ st.(UpdateHelper.replacement).(messages.consumerRejectLists)
       = attachment_1.(messages.consumerRejectLists)
    /\ UpdateHelper.Run int true args_description_and_pruning attachment_1
       = Ok (UpdateHelper.ReturnOldResource attachment_1).
Proof.
  eexists. split; [vm_compute; reflexivity|]. vm_compute. auto.
Qed.

(** Without the pruning flag the same override is sent. *)
Example description_update_sent (int : string -> option Z) :
  UpdateHelper.Run int true args_description attachment_1
  = Ok (UpdateHelper.PatchRequest
          (assign.description (Some "new") attachment_1) []).
Proof. vm_compute. reflexivity. Qed.

(** C3.  When [_Modify] returns, the fetched resource is as it was, and
    in the replacement it returns every field whose override is absent
    (and, for the accept and reject lists, that the pruning pass did not
    run) is the field of the fetched resource, as are the fields that
    cannot be overridden. *)
Theorem C3_only_overridden_fields_change
    (int : string -> option Z) (support : bool) (args : Namespace)
    (S : messages.ServiceAttachment) (cleared_fields : list string)
    (r : option messages.ServiceAttachment) (st : UpdateHelper.Store) :
  UpdateHelper._Modify int support args S cleared_fields = Ok (r, st) ->
  st.(UpdateHelper.old_resource) = S
  /\ (forall replacement,
       r = Some replacement ->
       unmodified_fields (pruning_requested support args) args S replacement).
Proof.
  intros H. apply _Modify_inv in H as [Hbody ->].
  apply _Modify_body_frame in Hbody as (Hold & Hfields & _).
  split; [exact Hold|].
  intros replacement Hr.
  destruct (UpdateHelper.is_updated st); [|done].
  by injection Hr as <-.
Qed.

Lemma C3_only_overridden_fields_change_witness :
  unmodified_fields false args_description attachment_1
    (assign.description (Some "new") attachment_1).
Proof.
  destruct (C3_only_overridden_fields_change int_decimal false
              args_description attachment_1 []
              (Some (assign.description (Some "new") attachment_1))
              (UpdateHelper.set_is_updated true
                 (UpdateHelper.set_replacement
                    (assign.description (Some "new") attachment_1)
                    (UpdateHelper.enter attachment_1 []))))
    as [_ Hfields].
  - vm_compute. reflexivity.
  - apply (Hfields _ eq_refl).
Defined.

(** Whether the accept-list block raises, and what, depends on the store
    through the fetched resource only. *)
Lemma modify_consumer_accept_list_outcome int support args st1 st2 :
  st1.(UpdateHelper.old_resource) = st2.(UpdateHelper.old_resource) ->
  match UpdateHelper.modify_consumer_accept_list int support args st1,
        UpdateHelper.modify_consumer_accept_list int support args st2 with
  | Ok _, Ok _ => True
  | Raise e1, Raise e2 => e1 = e2
  | _, _ => False
  end.
Proof.
  intros Hold. unfold UpdateHelper.modify_consumer_accept_list.
  rewrite Hold.
  destruct (consumer_accept_list args); [|done].
  destruct (UpdateHelper._GetConsumerAcceptList _ _ _); [|done]. simpl.
  destruct (sorted_by_key _ _); [|done]. simpl.
  match goal with |- context [bind ?m _] => destruct m as [[|]|] end;
    simpl; try done.
  by destruct (bool_decide _).
Qed.

Lemma modify_remove_obsolete_conflict args st :
  args.(remove_obsolete_endpoint_accept_reject_entries) = true ->
  is_Some args.(consumer_accept_list) \/ is_Some args.(consumer_reject_list) ->
  UpdateHelper.modify_remove_obsolete true args st
  = Raise (ConflictingArgumentsException UpdateHelper.conflicting_msg).
Proof.
  intros Hflag Hlists. unfold UpdateHelper.modify_remove_obsolete.
  rewrite Hflag. simpl.
  destruct Hlists as [H|H].
  - by rewrite (bool_decide_true _ H).
  - rewrite (bool_decide_true _ H). by rewrite orb_true_r.
Qed.

Lemma Run_raise int support args old_resource e :
  UpdateHelper._Modify_body int support args
    (UpdateHelper.enter old_resource []) = Raise e ->
  UpdateHelper.Run int support args old_resource = Raise e.
Proof.
  intros H. unfold UpdateHelper.Run, UpdateHelper._Modify. by rewrite H.
Qed.

Lemma _Modify_body_conflict int args st0 :
  args.(remove_obsolete_endpoint_accept_reject_entries) = true ->
  is_Some args.(consumer_accept_list) \/ is_Some args.(consumer_reject_list) ->
  UpdateHelper._Modify_body int true args st0
  = match UpdateHelper.modify_consumer_accept_list int true args
            (before_accept_list args st0) with
    | Ok _ => Raise (ConflictingArgumentsException UpdateHelper.conflicting_msg)
    | Raise e => Raise e
    end.
Proof.
  intros Hflag Hlists. unfold UpdateHelper._Modify_body. cbv zeta.
  fold (before_accept_list args st0).
  destruct (UpdateHelper.modify_consumer_accept_list _ _ _ _) as [st7|];
    cbn [bind]; [|done].
  by rewrite modify_remove_obsolete_conflict.
Qed.

(** C5.  With endpoint based security supported, the pruning flag given
    together with an accept-list or reject-list override always ends in
    an error, so [Run] neither returns a resource nor issues a Patch
    request.  The error is the conflicting-arguments one unless the
    accept-list block, which runs first, raised its own error. *)
Theorem C5_pruning_flag_conflicts_with_list_overrides
    (int : string -> option Z) (args : Namespace)
    (old_resource : messages.ServiceAttachment) :
  args.(remove_obsolete_endpoint_accept_reject_entries) = true ->
  is_Some args.(consumer_accept_list) \/ is_Some args.(consumer_reject_list) ->
  (exists e, UpdateHelper.Run int true args old_resource = Raise e)
  /\ (forall st',
       UpdateHelper.modify_consumer_accept_list int true args
         (UpdateHelper.enter old_resource []) = Ok st' ->
       UpdateHelper.Run int true args old_resource
       = Raise (ConflictingArgumentsException
                  "--remove-obsolete-endpoint-accept-reject-entries cannot be specified with --consumer-accept-list or --consumer-reject-list."))
  /\ (forall e,
       UpdateHelper.modify_consumer_accept_list int true args
         (UpdateHelper.enter old_resource []) = Raise e ->
       UpdateHelper.Run int true args old_resource = Raise e)
  /\ (args.(consumer_accept_list) = None ->
      UpdateHelper.Run int true args old_resource
      = Raise (ConflictingArgumentsException
                 "--remove-obsolete-endpoint-accept-reject-entries cannot be specified with --consumer-accept-list or --consumer-reject-list.")).
Proof.
  intros Hflag Hlists.
  pose proof (_Modify_body_conflict int args
                (UpdateHelper.enter old_resource []) Hflag Hlists) as Hbody.
  pose proof (modify_consumer_accept_list_outcome int true args
                (before_accept_list args (UpdateHelper.enter old_resource []))
                (UpdateHelper.enter old_resource [])) as Hout.
  destruct (before_accept_list_frame true args
              (UpdateHelper.enter old_resource [])) as [Hold _].
  specialize (Hout Hold).
  destruct (UpdateHelper.modify_consumer_accept_list int true args
              (before_accept_list args _)) as [st7|e7];
    destruct (UpdateHelper.modify_consumer_accept_list int true args
                (UpdateHelper.enter old_resource [])) as [st|e] eqn:Hent;
    try done.
  - apply Run_raise in Hbody. repeat split; eauto; try done.
  - subst e7. apply Run_raise in Hbody. repeat split; eauto; try done.
    + by intros e' [= <-].
    + intros Hnone. exfalso.
      unfold UpdateHelper.modify_consumer_accept_list in Hent.
      by rewrite Hnone in Hent.
Qed.

Lemma C5_pruning_flag_conflicts_with_list_overrides_witness :
  UpdateHelper.Run int_decimal true (args_reject ["projects/p9"] true)
    attachment_1
  = Raise (ConflictingArgumentsException
             "--remove-obsolete-endpoint-accept-reject-entries cannot be specified with --consumer-accept-list or --consumer-reject-list.").
Proof.
  apply (C5_pruning_flag_conflicts_with_list_overrides int_decimal
           (args_reject ["projects/p9"] true) attachment_1 eq_refl).
  - right. exists ["projects/p9"]. reflexivity.
  - reflexivity.
Defined.

(** Against C5 read without its proviso: a network URL given without a
    limit, together with the pruning flag, ends in the normalizer's error,
    not in the conflicting-arguments error. *)
Lemma C5_conflict_preempted_counterexample :
  args_network_without_limit.(remove_obsolete_endpoint_accept_reject_entries)
  = true
  /\ is_Some args_network_without_limit.(consumer_accept_list)
  /\ UpdateHelper.Run int_decimal true args_network_without_limit
       attachment_1
     = Raise (ValueError
                "Connection limit is required for network URL: global/networks/n1")
  /\ UpdateHelper.Run int_decimal true args_network_without_limit
       attachment_1
     <> Raise (ConflictingArgumentsException UpdateHelper.conflicting_msg).
Proof.
  split; [reflexivity|]. split; [by eexists|].
  split; [vm_compute; reflexivity|]. vm_compute. discriminate.
Qed.

(** *** The Field-Clear List on explicit list overrides *)


Lemma sorted_by_key_perm {A} (key : A -> limit_key) l sl :
  sorted_by_key key l = Ok sl -> sl ≡ₚ l.
Proof.
  unfold sorted_by_key. destruct (all_comparable key l); [|done].
  intros [= <-]. apply stable_sort_perm.
Qed.

Lemma modify_remove_obsolete_not_run support args st st' :
  is_Some args.(consumer_accept_list) \/ is_Some args.(consumer_reject_list) ->
  UpdateHelper.modify_remove_obsolete support args st = Ok st' ->
  pruning_requested support args = false /\ st' = st.
Proof.
  intros Hlists. unfold UpdateHelper.modify_remove_obsolete, pruning_requested.
  destruct (support && _); [|by intros [= <-]].
  destruct Hlists as [H|H]; rewrite (bool_decide_true _ H);
    rewrite ?orb_true_r; done.
Qed.


(** ** Change detection (claim C2) *)

Lemma for_each_invariant {A S} (P : S -> Prop) (xs : list A)
    (body : A -> S -> result S) s s' :
  (forall x t t', body x t = Ok t' -> P t -> P t') ->
  for_each xs body s = Ok s' -> P s -> P s'.
Proof.
  intros Hbody. revert s. induction xs as [|x xs IH]; intros s; simpl.
  - by intros [= <-].
  - destruct (body x s) as [t|] eqn:Hx; simpl; [|done].
    intros Hrest Hs. apply (IH t Hrest). by apply (Hbody x s t).
Qed.

Lemma accept_list_entry_shaped int item acc out :
  service_attachments_utils.accept_list_entry int item acc = Ok out ->
  Forall basic_shaped acc -> Forall basic_shaped out.
Proof.
  destruct item as [k v]. unfold service_attachments_utils.accept_list_entry.
  cbn [fst snd]. intros H Hacc.
  destruct (str_in "/networks/" k) eqn:Hn.
  - destruct (py_int int v) as [n|]; cbn [bind] in H; [|discriminate].
    injection H as <-. apply Forall_app. split; [done|].
    constructor; [|done]. exists k, n. by left.
  - destruct (str_in "/forwardingRules/" k); [discriminate|].
    destruct (py_int int v) as [n|]; cbn [bind] in H; [|discriminate].
    injection H as <-. apply Forall_app. split; [done|].
    constructor; [|done]. exists k, n. by right.
Qed.

Lemma list_append_shaped {A} (P : A -> Prop) (acc : list A) (e : A) :
  Forall P acc -> P e -> Forall P (list_append acc e).
Proof.
  intros Hacc He. apply Forall_app. split; [done|]. by constructor.
Qed.

Lemma accept_list_entry_ebs_shaped int item acc out :
  service_attachments_utils.accept_list_entry_ebs int item acc = Ok out ->
  Forall ebs_shaped acc -> Forall ebs_shaped out.
Proof.
  destruct item as [k v].
  unfold service_attachments_utils.accept_list_entry_ebs.
  cbn [fst snd]. intros H Hacc.
  destruct (str_in "/networks/" k) eqn:Hn.
  - destruct (truthy v); cbn [negb] in H; [|discriminate].
    destruct (py_int int v) as [n|]; cbn [bind] in H; [|discriminate].
    injection H as <-. apply list_append_shaped; [done|].
    exists k. left. split; [done|]. by exists n.
  - destruct (str_in "/forwardingRules/" k) eqn:Hf.
    + destruct (truthy v).
      * destruct (py_int int v) as [n|]; cbn [bind] in H; [|discriminate].
        injection H as <-. apply list_append_shaped; [done|].
        exists k. right. left. repeat split; try done. by exists (Some n).
      * injection H as <-. apply list_append_shaped; [done|].
        exists k. right. left. repeat split; try done. by exists None.
    + destruct (truthy v); cbn [negb] in H; [|discriminate].
      destruct (py_int int v) as [n|]; cbn [bind] in H; [|discriminate].
      injection H as <-. apply list_append_shaped; [done|].
      exists k. right. right. repeat split; try done. by exists n.
Qed.

Lemma _GetConsumerAcceptList_shaped int support args new :
  UpdateHelper._GetConsumerAcceptList int support args = Ok new ->
  if support then Forall ebs_shaped new else Forall basic_shaped new.
Proof.
  unfold UpdateHelper._GetConsumerAcceptList.
  destruct support.
  - unfold service_attachments_utils.GetConsumerAcceptListWithEndpointBasedSecurity.
    destruct (consumer_accept_list args) as [dicts|]; [|done].
    rewrite for_each_nested. intros H.
    apply (for_each_invariant (Forall ebs_shaped) _ _ _ _
             (accept_list_entry_ebs_shaped int) H). constructor.
  - unfold service_attachments_utils.GetConsumerAcceptList.
    destruct (consumer_accept_list args) as [dicts|]; [|done].
    rewrite for_each_nested. intros H.
    apply (for_each_invariant (Forall basic_shaped) _ _ _ _
             (accept_list_entry_shaped int) H). constructor.
Qed.

Lemma basic_shaped_key_inj e1 e2 :
  basic_shaped e1 -> basic_shaped e2 ->
  UpdateHelper._GetProjectOrNetwork e1 = UpdateHelper._GetProjectOrNetwork e2 ->
  e1 = e2.
Proof.
  intros (k1 & n1 & [[H1 ->]|[H1 ->]]) (k2 & n2 & [[H2 ->]|[H2 ->]]);
    unfold UpdateHelper._GetProjectOrNetwork; cbn; intros Hkey;
    simplify_eq; congruence.
Qed.

Lemma ebs_shaped_key_inj e1 e2 :
  ebs_shaped e1 -> ebs_shaped e2 ->
  UpdateHelper._GetProjectOrNetworkOrEndpoint e1
  = UpdateHelper._GetProjectOrNetworkOrEndpoint e2 ->
  e1 = e2.
Proof.
  intros (k1 & [(H1 & n1 & ->)|[(H1 & F1 & o1 & ->)|(H1 & F1 & n1 & ->)]])
         (k2 & [(H2 & n2 & ->)|[(H2 & F2 & o2 & ->)|(H2 & F2 & n2 & ->)]]);
    unfold UpdateHelper._GetProjectOrNetworkOrEndpoint; cbn; intros Hkey;
    simplify_eq; congruence.
Qed.

Lemma all_comparable_perm {A} (key : A -> limit_key) l1 l2 :
  l1 ≡ₚ l2 -> all_comparable key l1 = all_comparable key l2.
Proof.
  intros Hp. apply eq_true_iff_eq. rewrite !all_comparable_elem_of.
  split; intros H x y Hx Hy; apply H;
    first [by rewrite Hp | by rewrite <- Hp].
Qed.

(** Sorting by key cannot tell apart two orders of the same entries when
    no two distinct entries share a key. *)
Lemma sorted_by_key_perm_eq {A} (key : A -> limit_key) l1 l2 :
  l1 ≡ₚ l2 ->
  (forall x y, x ∈ l1 -> y ∈ l1 -> key x = key y -> x = y) ->
  sorted_by_key key l1 = sorted_by_key key l2.
Proof.
  intros Hp Hinj. unfold sorted_by_key.
  rewrite (all_comparable_perm key l1 l2 Hp).
  by rewrite (stable_sort_perm_eq key_ltb key l1 l2 Hp Hinj).
Qed.

Lemma sorted_str_perm_eq (l1 l2 : list string) :
  l1 ≡ₚ l2 -> sorted_str l1 = sorted_str l2.
Proof.
  intros Hp. unfold sorted_str. apply stable_sort_perm_eq; [apply _|done|].
  by intros x y _ _.
Qed.

Lemma new_accept_list_order_free int support args new old_list :
  UpdateHelper._GetConsumerAcceptList int support args = Ok new ->
  new ≡ₚ old_list ->
  sorted_by_key (UpdateHelper._GetProjectOrNetworkOrEndpointBasedOnArg support)
    new
  = sorted_by_key (UpdateHelper._GetProjectOrNetworkOrEndpointBasedOnArg support)
      old_list.
Proof.
  intros Hnew Hp. apply sorted_by_key_perm_eq; [done|].
  apply _GetConsumerAcceptList_shaped in Hnew.
  unfold UpdateHelper._GetProjectOrNetworkOrEndpointBasedOnArg.
  intros x y Hx Hy. destruct support; rewrite Forall_forall in Hnew.
  - apply ebs_shaped_key_inj; by apply Hnew.
  - apply basic_shaped_key_inj; by apply Hnew.
Qed.

Example reordered_reject_list_is_no_change :
  UpdateHelper.Run int_decimal false (args_reject ["a"; "b"] false)
    attachment_1
  = Ok (UpdateHelper.ReturnOldResource attachment_1).
Proof. vm_compute. reflexivity. Qed.

Example reordered_accept_list_is_no_change :
  UpdateHelper.Run int_decimal false
    (args_accept [[("projects/p1", Some "10")]; [("projects/p2", Some "20")]]
       false)
    attachment_1
  = Ok (UpdateHelper.ReturnOldResource attachment_1).
Proof. vm_compute. reflexivity. Qed.

(** Two endpoint entries for one URL, one with and one without a limit,
    cannot be sorted. *)
Example unordered_limits_raise :
  UpdateHelper.Run int_decimal true
    (args_accept [[("regions/r/forwardingRules/e1", None)];
                  [("regions/r/forwardingRules/e1", Some "5")]] false)
    attachment_1
  = Raise TypeError.
Proof. vm_compute. reflexivity. Qed.

(** Against C2 read for the target: giving the target of the fetched
    resource again marks the result updated and a Patch request is sent. *)
Lemma C2_same_target_counterexample :
  args_same_target.(target_service) = attachment_1.(messages.targetService)
  /\ (UpdateHelper.modify_target_service args_same_target
        (UpdateHelper.enter attachment_1 [])).(UpdateHelper.is_updated)
     = true
  /\ UpdateHelper.Run int_decimal false args_same_target attachment_1
     = Ok (UpdateHelper.PatchRequest attachment_1 []).
Proof. split; [reflexivity|]. split; [reflexivity|]. vm_compute. reflexivity. Qed.

(** * Further properties of the code *)

(** ** Trailing identifiers and the connected-endpoint set *)

Lemma str_in_slash_cons c s :
  str_in "/" (String c s) = Ascii.eqb c "/" || str_in "/" s.
Proof.
  cbn [str_in String.prefix].
  destruct (Ascii.eqb_spec c "/") as [->|Hne].
  - destruct (ascii_dec "/" "/"); [|done]. by destruct s.
  - by destruct (ascii_dec "/" c) as [<-|].
Qed.

Lemma no_slash_cons c s :
  no_slash (String c s) <-> Ascii.eqb c "/" = false /\ no_slash s.
Proof. unfold no_slash. rewrite str_in_slash_cons. apply orb_false_iff. Qed.

Lemma string_app_cons c (s t : string) : String c s ++ t = String c (s ++ t).
Proof. reflexivity. Qed.

Lemma string_app_nil_l (t : string) : "" ++ t = t.
Proof. reflexivity. Qed.

Lemma string_app_assoc (s1 s2 s3 : string) :
  (s1 ++ s2) ++ s3 = s1 ++ (s2 ++ s3).
Proof.
  induction s1 as [|c s1 IH]; [done|]. by rewrite !string_app_cons, IH.
Qed.

Lemma string_app_nil_r (s : string) : s ++ "" = s.
Proof. induction s as [|c s IH]; [done|]. by rewrite string_app_cons, IH. Qed.

Lemma last_segment_from_no_slash acc s :
  no_slash s -> last_segment_from acc s = acc ++ s.
Proof.
  revert acc. induction s as [|c s IH]; intros acc Hs; cbn [last_segment_from].
  - by rewrite string_app_nil_r.
  - apply no_slash_cons in Hs as [Hc Hs]. rewrite Hc, IH by done.
    by rewrite string_app_assoc.
Qed.

Lemma last_segment_from_after_slash acc prefix s :
  last_segment_from acc (prefix ++ String "/" s) = last_segment s.
Proof.
  revert acc. induction prefix as [|c p IH]; intros acc.
  - done.
  - rewrite string_app_cons. cbn [last_segment_from].
    destruct (Ascii.eqb c "/"); apply IH.
Qed.

Lemma no_slash_snoc acc c :
  no_slash acc -> Ascii.eqb c "/" = false -> no_slash (acc ++ String c "").
Proof.
  intros Hacc Hc. induction acc as [|a acc IHa].
  - apply no_slash_cons. by split.
  - rewrite string_app_cons. apply no_slash_cons in Hacc as [Ha Hacc].
    apply no_slash_cons. auto.
Qed.

Lemma last_segment_from_never_slash acc s :
  no_slash acc -> no_slash (last_segment_from acc s).
Proof.
  revert acc. induction s as [|c s IH]; intros acc Hacc;
    cbn [last_segment_from]; [done|].
  destruct (Ascii.eqb c "/") eqn:Hc; apply IH; [done|].
  by apply no_slash_snoc.
Qed.

Lemma rstrip_slash_no_slash s : no_slash s -> rstrip_slash s = s.
Proof.
  induction s as [|c s IH]; intros Hs; cbn [rstrip_slash]; [done|].
  apply no_slash_cons in Hs as [Hc Hs]. rewrite IH by done.
  destruct s; [by rewrite Hc|done].
Qed.

Lemma rstrip_slash_app s t :
  rstrip_slash t <> "" -> rstrip_slash (s ++ t) = s ++ rstrip_slash t.
Proof.
  intros Ht. induction s as [|c s IH]; [done|].
  rewrite !string_app_cons. cbn [rstrip_slash]. rewrite IH.
  destruct (s ++ rstrip_slash t) eqn:E; [|done].
  destruct s; [by rewrite string_app_nil_l in E|by rewrite string_app_cons in E].
Qed.

Lemma rstrip_slash_trailing s : rstrip_slash (s ++ "/") = rstrip_slash s.
Proof.
  induction s as [|c s IH]; [done|].
  rewrite string_app_cons. cbn [rstrip_slash]. by rewrite IH.
Qed.

(** The trailing identifier of [prefix/id] is [id]; trailing slashes do not
    count; the result holds no slash. *)
Lemma trailing_id_of_path prefix id :
  id <> "" -> no_slash id -> trailing_id (prefix ++ "/" ++ id) = id.
Proof.
  intros Hne Hid. unfold trailing_id.
  assert (Hr : rstrip_slash ("/" ++ id) = "/" ++ id).
  { rewrite rstrip_slash_app; rewrite rstrip_slash_no_slash; done. }
  rewrite rstrip_slash_app by (rewrite Hr; done). rewrite Hr.
  unfold last_segment.
  change ("/" ++ id) with (String "/" id).
  rewrite last_segment_from_after_slash. unfold last_segment.
  by rewrite last_segment_from_no_slash.
Qed.

Lemma trailing_id_trailing_slash s : trailing_id (s ++ "/") = trailing_id s.
Proof. unfold trailing_id. by rewrite rstrip_slash_trailing. Qed.

Lemma trailing_id_no_slash s : no_slash (trailing_id s).
Proof. apply last_segment_from_never_slash. reflexivity. Qed.

Lemma elem_of_GetConnectedEndpointIds sa x :
  x ∈ service_attachments_utils.GetConnectedEndpointIds sa
  <-> exists ep url,
        ep ∈ default [] sa.(messages.connectedEndpoints)
        /\ ep.(messages.endpointWithId) = Some url /\ url <> ""
        /\ trailing_id url = x.
Proof.
  unfold service_attachments_utils.GetConnectedEndpointIds.
  rewrite elem_of_list_to_set, list_elem_of_omap. split.
  - intros (ep & Hep & Hx). exists ep.
    destruct (messages.endpointWithId ep) as [[|c u]|]; try done.
    exists (String c u). simpl in Hx. by injection Hx as <-.
  - intros (ep & url & Hep & Hurl & Hne & <-). exists ep. split; [done|].
    rewrite Hurl. by destruct url.
Qed.

(** X1.  The connected-endpoint identifiers are exactly the trailing path
    segments of the non-empty [endpointWithId] URLs: an attachment without
    connected endpoints has none, an endpoint [prefix/id] (with or without
    a trailing slash) contributes [id], and no identifier holds a slash. *)
Theorem GetConnectedEndpointIds_trailing_segments
    (sa : messages.ServiceAttachment) :
  (forall x,
      x ∈ service_attachments_utils.GetConnectedEndpointIds sa
      <-> exists ep url,
            ep ∈ default [] sa.(messages.connectedEndpoints)
            /\ ep.(messages.endpointWithId) = Some url /\ url <> ""
            /\ trailing_id url = x)
  /\ (sa.(messages.connectedEndpoints) = None
      \/ sa.(messages.connectedEndpoints) = Some [] ->
      service_attachments_utils.GetConnectedEndpointIds sa = ∅)
  /\ (forall ep prefix id,
      ep ∈ default [] sa.(messages.connectedEndpoints) ->
      id <> "" -> no_slash id ->
      ep.(messages.endpointWithId) = Some (prefix ++ "/" ++ id)
      \/ ep.(messages.endpointWithId) = Some ((prefix ++ "/" ++ id) ++ "/") ->
      id ∈ service_attachments_utils.GetConnectedEndpointIds sa)
  /\ (forall x,
      x ∈ service_attachments_utils.GetConnectedEndpointIds sa -> no_slash x).
Proof.
  split; [|split; [|split]].
  - apply elem_of_GetConnectedEndpointIds.
  - unfold service_attachments_utils.GetConnectedEndpointIds.
    by intros [-> | ->].
  - intros ep prefix id Hep Hne Hid Hurl.
    apply elem_of_GetConnectedEndpointIds. exists ep.
    destruct Hurl as [Hurl|Hurl]; eexists; (split; [done|]);
      (split; [exact Hurl|]); split.
    + destruct prefix; done.
    + by apply trailing_id_of_path.
    + destruct prefix; done.
    + rewrite trailing_id_trailing_slash. by apply trailing_id_of_path.
  - intros x (ep & url & _ & _ & _ & <-)%elem_of_GetConnectedEndpointIds.
    apply trailing_id_no_slash.
Qed.

Lemma GetConnectedEndpointIds_trailing_segments_witness :
  "e2" ∈ service_attachments_utils.GetConnectedEndpointIds attachment_2.
Proof.
  destruct (GetConnectedEndpointIds_trailing_segments attachment_2)
    as (_ & _ & Hpath & _).
  apply (Hpath {| messages.endpointWithId :=
                    Some "projects/c/regions/r/forwardingRules/e2/";
                  messages.endpoint := None |}
           "projects/c/regions/r/forwardingRules" "e2").
  - right. left.
  - discriminate.
  - reflexivity.
  - right. reflexivity.
Defined.

(** ** The accept-list normalizers as a whole *)

Lemma for_each_ok_mono {A S} (xs : list A) (body body' : A -> S -> result S)
    s out :
  (forall x t t', body x t = Ok t' -> body' x t = Ok t') ->
  for_each xs body s = Ok out -> for_each xs body' s = Ok out.
Proof.
  intros Hb. revert s. induction xs as [|x xs IH]; intros s; simpl; [done|].
  destruct (body x s) as [t|] eqn:Hx; cbn [bind]; [|done].
  rewrite (Hb x s t Hx). cbn [bind]. apply IH.
Qed.

Lemma accept_list_entry_appends int item acc out :
  service_attachments_utils.accept_list_entry int item acc = Ok out ->
  exists e, out = list_append acc e /\ entry_identifier e = Some item.1.
Proof.
  destruct item as [k v]. unfold service_attachments_utils.accept_list_entry.
  cbn [fst snd]. intros H.
  destruct (str_in "/networks/" k);
    [|destruct (str_in "/forwardingRules/" k); [discriminate|]];
    (destruct (py_int int v) as [n|]; cbn [bind] in H; [|discriminate]);
    injection H as <-; eexists; split; reflexivity.
Qed.

Lemma accept_list_entry_ebs_appends int item acc out :
  service_attachments_utils.accept_list_entry_ebs int item acc = Ok out ->
  exists e, out = list_append acc e /\ entry_identifier e = Some item.1.
Proof.
  destruct item as [k v].
  unfold service_attachments_utils.accept_list_entry_ebs.
  cbn [fst snd]. intros H.
  destruct (str_in "/networks/" k);
    [|destruct (str_in "/forwardingRules/" k)];
    destruct (truthy v); cbn [negb] in H; try discriminate;
    try (destruct (py_int int v) as [n|]; cbn [bind] in H; [|discriminate]);
    injection H as <-; eexists; split; reflexivity.
Qed.

Lemma for_each_appends {A E} (ident : E -> option string)
    (body : A * option string -> list E -> result (list E))
    (items : list (A * option string)) (name : A -> string) acc out :
  (forall item t t', body item t = Ok t' ->
     exists e, t' = list_append t e /\ ident e = Some (name item.1)) ->
  for_each items body acc = Ok out ->
  ident <$> out = ((ident <$> acc) ++ (Some ∘ name ∘ fst <$> items))%list.
Proof.
  intros Hb. revert acc. induction items as [|item items IH]; intros acc; simpl.
  - intros [= <-]. by rewrite app_nil_r.
  - destruct (body item acc) as [t|] eqn:Hx; cbn [bind]; [|done].
    intros Hrest. rewrite (IH t Hrest).
    destruct (Hb item acc t Hx) as (e & -> & He).
    unfold list_append. rewrite fmap_app. cbn. rewrite He.
    by rewrite <- app_assoc.
Qed.

(** X2.  Both normalizers give one entry per item of the input, carrying the
    item's identifier, mapping after mapping and in sorted order within a
    mapping: no entry is dropped, added or moved. *)
Theorem normalizers_keep_every_identifier
    (int : string -> option Z) (args : Namespace) (dicts : list dict)
    (out : list messages.ServiceAttachmentConsumerProjectLimit) :
  args.(consumer_accept_list) = Some dicts ->
  (service_attachments_utils.GetConsumerAcceptList int args = Ok out
   \/ service_attachments_utils.GetConsumerAcceptListWithEndpointBasedSecurity
        int args = Ok out) ->
  entry_identifier <$> out
  = (Some ∘ fst <$> flat_map sorted_items dicts)
  /\ length out = length (flat_map sorted_items dicts).
Proof.
  intros Hargs Hout.
  assert (H : entry_identifier <$> out
              = Some ∘ fst <$> flat_map sorted_items dicts).
  { destruct Hout as [Hout|Hout].
    - rewrite (GetConsumerAcceptList_items int args dicts Hargs) in Hout.
      apply (for_each_appends entry_identifier _ _ id [] out
               (accept_list_entry_appends int) Hout).
    - rewrite (GetConsumerAcceptListWithEndpointBasedSecurity_items
                 int args dicts Hargs) in Hout.
      apply (for_each_appends entry_identifier _ _ id [] out
               (accept_list_entry_ebs_appends int) Hout). }
  split; [exact H|].
  apply (f_equal length) in H. by rewrite !length_fmap in H.
Qed.

Lemma normalizers_keep_every_identifier_witness :
  entry_identifier
  <$> [project_entry "projects/p1" 10; project_entry "projects/p2" 20;
       network_entry "global/networks/n1" 7]
  = (Some ∘ fst
     <$> flat_map sorted_items
           [[("projects/p2", Some "20"); ("projects/p1", Some "10")];
            [("global/networks/n1", Some "7")]])
  /\ length [project_entry "projects/p1" 10; project_entry "projects/p2" 20;
             network_entry "global/networks/n1" 7]
     = length (flat_map sorted_items
                 [[("projects/p2", Some "20"); ("projects/p1", Some "10")];
                  [("global/networks/n1", Some "7")]]).
Proof.
  apply (normalizers_keep_every_identifier int_decimal
           (args_accept [[("projects/p2", Some "20");
                          ("projects/p1", Some "10")];
                         [("global/networks/n1", Some "7")]] false)).
  - reflexivity.
  - left. reflexivity.
Defined.

(** X3.  Every entry the normalizers build has exactly one of its three
    identifier fields set.  The basic form never sets [endpointUrl] and
    always sets a limit; in the extended form only endpoint entries can
    come without a limit. *)
Theorem normalizers_build_one_identifier_per_entry
    (int : string -> option Z) (args : Namespace)
    (out : list messages.ServiceAttachmentConsumerProjectLimit)
    (e : messages.ServiceAttachmentConsumerProjectLimit) :
  e ∈ out ->
  (service_attachments_utils.GetConsumerAcceptList int args = Ok out ->
   e.(messages.endpointUrl) = None
   /\ is_Some e.(messages.connectionLimit)
   /\ (is_Some e.(messages.projectIdOrNum)
       <-> e.(messages.networkUrl) = None))
  /\ (service_attachments_utils.GetConsumerAcceptListWithEndpointBasedSecurity
        int args = Ok out ->
      (e.(messages.connectionLimit) = None ->
       is_Some e.(messages.endpointUrl))
      /\ ((is_Some e.(messages.projectIdOrNum)
           /\ e.(messages.networkUrl) = None
           /\ e.(messages.endpointUrl) = None)
          \/ (e.(messages.projectIdOrNum) = None
              /\ is_Some e.(messages.networkUrl)
              /\ e.(messages.endpointUrl) = None)
          \/ (e.(messages.projectIdOrNum) = None
              /\ e.(messages.networkUrl) = None
              /\ is_Some e.(messages.endpointUrl)))).
Proof.
  intros He. split; intros Hout.
  - pose proof (_GetConsumerAcceptList_shaped int false args out Hout) as Hs.
    cbn in Hs. rewrite Forall_forall in Hs.
    destruct (Hs e He) as (k & n & [[_ ->]|[_ ->]]); cbn;
      repeat split; eauto; try done; by intros [? ?].
  - pose proof (_GetConsumerAcceptList_shaped int true args out Hout) as Hs.
    cbn in Hs. rewrite Forall_forall in Hs.
    destruct (Hs e He)
      as (k & [(_ & n & ->)|[(_ & _ & o & ->)|(_ & _ & n & ->)]]); cbn.
    + split; [done|]. right. left. eauto.
    + split; [eauto|]. right. right. eauto.
    + split; [done|]. left. eauto.
Qed.

Lemma normalizers_build_one_identifier_per_entry_witness :
  is_Some (endpoint_entry "regions/r/forwardingRules/e1" None)
            .(messages.endpointUrl).
Proof.
  destruct (normalizers_build_one_identifier_per_entry int_decimal
              (args_accept [[("regions/r/forwardingRules/e1", None)]] false)
              [endpoint_entry "regions/r/forwardingRules/e1" None]
              (endpoint_entry "regions/r/forwardingRules/e1" None))
    as [_ Hebs].
  - by left.
  - destruct (Hebs eq_refl) as [Hlimit _]. apply Hlimit. reflexivity.
Defined.

Lemma accept_list_entry_ebs_extends int item acc out :
  int "" = None ->
  service_attachments_utils.accept_list_entry int item acc = Ok out ->
  service_attachments_utils.accept_list_entry_ebs int item acc = Ok out.
Proof.
  intros Hint. destruct item as [k v].
  unfold service_attachments_utils.accept_list_entry,
    service_attachments_utils.accept_list_entry_ebs.
  cbn [fst snd]. intros H.
  assert (Ht : truthy v = true).
  { destruct v as [[|c s]|]; [|done|].
    - destruct (str_in "/networks/" k);
        [|destruct (str_in "/forwardingRules/" k); [discriminate|]];
        cbn in H; by rewrite Hint in H.
    - destruct (str_in "/networks/" k);
        [|destruct (str_in "/forwardingRules/" k)]; discriminate. }
  rewrite Ht. cbn [negb].
  destruct (str_in "/networks/" k); [done|].
  destruct (str_in "/forwardingRules/" k); [discriminate|done].
Qed.

(** X4.  Whatever the basic form accepts, the extended form accepts with the
    same result (the builtin [int] rejecting the empty string, as it
    does). *)
Theorem extended_form_agrees_where_basic_form_succeeds
    (int : string -> option Z) (args : Namespace)
    (out : list messages.ServiceAttachmentConsumerProjectLimit) :
  int "" = None ->
  service_attachments_utils.GetConsumerAcceptList int args = Ok out ->
  service_attachments_utils.GetConsumerAcceptListWithEndpointBasedSecurity
    int args = Ok out.
Proof.
  intros Hint.
  unfold service_attachments_utils.GetConsumerAcceptList,
    service_attachments_utils.GetConsumerAcceptListWithEndpointBasedSecurity.
  destruct (consumer_accept_list args) as [dicts|]; [|done].
  rewrite !for_each_nested. apply for_each_ok_mono.
  intros item t t'. by apply accept_list_entry_ebs_extends.
Qed.

Lemma extended_form_agrees_where_basic_form_succeeds_witness :
  service_attachments_utils.GetConsumerAcceptListWithEndpointBasedSecurity
    int_decimal
    (args_accept [[("projects/p2", Some "20"); ("projects/p1", Some "10")]]
       false)
  = Ok [project_entry "projects/p1" 10; project_entry "projects/p2" 20].
Proof.
  apply (extended_form_agrees_where_basic_form_succeeds int_decimal);
    reflexivity.
Defined.

(** ** The pruning pass as a whole *)

Lemma CleanObsoleteAccepted_closed sa ids cf :
  let cleaned :=
    List.filter (service_attachments_utils.keep_accepted ids)
    <$> sa.(messages.consumerAcceptLists) in
  let changed :=
    negb (bool_decide (length (default [] cleaned)
                       = length (default [] sa.(messages.consumerAcceptLists))))
  in
  service_attachments_utils.CleanObsoleteAcceptedEndpointUrls sa ids cf
  = (changed, assign.consumerAcceptLists cleaned sa,
     if changed
     then mark_cleared consumerAcceptLists_name
            (bool_decide (default [] cleaned = [])) cf
     else cf).
Proof.
  rewrite CleanObsoleteAcceptedEndpointUrls_eq.
  destruct (messages.consumerAcceptLists sa) as [[|e l]|] eqn:Hl; cbn zeta.
  - cbn. by rewrite <- Hl, assign_consumerAcceptLists_same.
  - reflexivity.
  - cbn. by rewrite <- Hl, assign_consumerAcceptLists_same.
Qed.

Lemma CleanObsoleteRejected_closed sa ids cf :
  let cleaned :=
    List.filter (service_attachments_utils.keep_rejected ids)
    <$> sa.(messages.consumerRejectLists) in
  let changed :=
    negb (bool_decide (length (default [] cleaned)
                       = length (default [] sa.(messages.consumerRejectLists))))
  in
  service_attachments_utils.CleanObsoleteRejectedEndpointUrls sa ids cf
  = (changed, assign.consumerRejectLists cleaned sa,
     if changed
     then mark_cleared consumerRejectLists_name
            (bool_decide (default [] cleaned = [])) cf
     else cf).
Proof.
  rewrite CleanObsoleteRejectedEndpointUrls_eq.
  destruct (messages.consumerRejectLists sa) as [[|e l]|] eqn:Hl; cbn zeta.
  - cbn. by rewrite <- Hl, assign_consumerRejectLists_same.
  - reflexivity.
  - cbn. by rewrite <- Hl, assign_consumerRejectLists_same.
Qed.

(** [_RemoveObsoleteEndpointEntries] in one equation. *)
Lemma _RemoveObsoleteEndpointEntries_closed sa cf :
  let ids := service_attachments_utils.GetConnectedEndpointIds sa in
  let accept :=
    List.filter (service_attachments_utils.keep_accepted ids)
    <$> sa.(messages.consumerAcceptLists) in
  let reject :=
    List.filter (service_attachments_utils.keep_rejected ids)
    <$> sa.(messages.consumerRejectLists) in
  let accept_changed :=
    negb (bool_decide (length (default [] accept) = length (accept_entries sa)))
  in
  let reject_changed :=
    negb (bool_decide (length (default [] reject) = length (reject_entries sa)))
  in
  let cf1 :=
    if accept_changed
    then mark_cleared consumerAcceptLists_name
           (bool_decide (default [] accept = [])) cf
    else cf in
  UpdateHelper._RemoveObsoleteEndpointEntries sa cf
  = (accept_changed || reject_changed,
     assign.consumerRejectLists reject (assign.consumerAcceptLists accept sa),
     if reject_changed
     then mark_cleared consumerRejectLists_name
            (bool_decide (default [] reject = [])) cf1
     else cf1).
Proof.
  cbn zeta. unfold UpdateHelper._RemoveObsoleteEndpointEntries.
  rewrite CleanObsoleteAccepted_closed. cbn zeta.
  rewrite CleanObsoleteRejected_closed. cbn zeta.
  unfold accept_entries, reject_entries. cbn [messages.consumerRejectLists
    assign.consumerAcceptLists].
  repeat match goal with
         | |- context [bool_decide (length ?a = length ?b)] =>
             destruct (bool_decide (length a = length b))
         end;
    reflexivity.
Qed.

Lemma filter_filter_same {A} (f : A -> bool) (l : list A) :
  List.filter f (List.filter f l) = List.filter f l.
Proof.
  induction l as [|x l IH]; simpl; [done|].
  destruct (f x) eqn:Hx; simpl; rewrite ?Hx, IH; done.
Qed.

Lemma filter_same_iff {A} (f : A -> bool) (l : list A) :
  length (List.filter f l) = length l <-> forall e, e ∈ l -> f e = true.
Proof.
  split.
  - intros H%filter_length_same e He.
    rewrite <- H in He. apply list_elem_of_In, List.filter_In in He. tauto.
  - intros H. f_equal. induction l as [|x l IH]; simpl; [done|].
    rewrite (H x) by by left. f_equal. apply IH. intros e He. apply H.
    by right.
Qed.

Lemma elem_of_filter_bool {A} (f : A -> bool) (l : list A) e :
  e ∈ List.filter f l <-> e ∈ l /\ f e = true.
Proof. rewrite !list_elem_of_In. apply List.filter_In. Qed.

Lemma default_fmap_filter {A} (f : A -> bool) (o : option (list A)) :
  default [] (List.filter f <$> o) = List.filter f (default [] o).
Proof. by destruct o. Qed.

Lemma assign_lists_same sa :
  assign.consumerRejectLists sa.(messages.consumerRejectLists)
    (assign.consumerAcceptLists sa.(messages.consumerAcceptLists) sa)
  = sa.
Proof. by destruct sa. Qed.

(** X5.  The pruning pass leaves nothing for a second pass: run again on its
    own result, it finds the lengths unchanged, returns [False] and
    leaves the attachment and [cleared_fields] as they are. *)
Theorem pruning_pass_is_idempotent
    (sa : messages.ServiceAttachment) (cf : list string)
    (updated : bool) (sa' : messages.ServiceAttachment) (cf' : list string) :
  UpdateHelper._RemoveObsoleteEndpointEntries sa cf = (updated, sa', cf') ->
  UpdateHelper._RemoveObsoleteEndpointEntries sa' cf' = (false, sa', cf').
Proof.
  rewrite _RemoveObsoleteEndpointEntries_closed. cbn zeta.
  intros [= _ <- _]. rewrite _RemoveObsoleteEndpointEntries_closed. cbn zeta.
  set (ids := service_attachments_utils.GetConnectedEndpointIds sa).
  change (service_attachments_utils.GetConnectedEndpointIds
            (assign.consumerRejectLists _ (assign.consumerAcceptLists _ sa)))
    with ids.
  unfold accept_entries, reject_entries.
  cbn [messages.consumerAcceptLists messages.consumerRejectLists
       assign.consumerRejectLists assign.consumerAcceptLists].
  assert (Ha : List.filter (service_attachments_utils.keep_accepted ids)
               <$> (List.filter (service_attachments_utils.keep_accepted ids)
                    <$> messages.consumerAcceptLists sa)
               = List.filter (service_attachments_utils.keep_accepted ids)
                 <$> messages.consumerAcceptLists sa).
  { destruct (messages.consumerAcceptLists sa); [|done]. cbn.
    by rewrite filter_filter_same. }
  assert (Hr : List.filter (service_attachments_utils.keep_rejected ids)
               <$> (List.filter (service_attachments_utils.keep_rejected ids)
                    <$> messages.consumerRejectLists sa)
               = List.filter (service_attachments_utils.keep_rejected ids)
                 <$> messages.consumerRejectLists sa).
  { destruct (messages.consumerRejectLists sa); [|done]. cbn.
    by rewrite filter_filter_same. }
  rewrite Ha, Hr. rewrite !bool_decide_true by done. reflexivity.
Qed.

Lemma pruning_pass_is_idempotent_witness :
  UpdateHelper._RemoveObsoleteEndpointEntries
    (assign.consumerRejectLists (Some ["projects/p9"])
       (assign.consumerAcceptLists (Some []) attachment_2))
    ["consumerAcceptLists"]
  = (false,
     assign.consumerRejectLists (Some ["projects/p9"])
       (assign.consumerAcceptLists (Some []) attachment_2),
     ["consumerAcceptLists"]).
Proof.
  apply (pruning_pass_is_idempotent attachment_2 [] true).
  vm_compute. reflexivity.
Defined.

Lemma _RemoveObsoleteEndpointEntries_lists sa cf updated sa' cf' :
  UpdateHelper._RemoveObsoleteEndpointEntries sa cf = (updated, sa', cf') ->
  let ids := service_attachments_utils.GetConnectedEndpointIds sa in
  accept_entries sa'
  = List.filter (service_attachments_utils.keep_accepted ids)
      (accept_entries sa)
  /\ reject_entries sa'
     = List.filter (service_attachments_utils.keep_rejected ids)
         (reject_entries sa)
  /\ service_attachments_utils.GetConnectedEndpointIds sa' = ids
  /\ updated
     = negb (bool_decide (length (accept_entries sa')
                          = length (accept_entries sa)))
       || negb (bool_decide (length (reject_entries sa')
                             = length (reject_entries sa))).
Proof.
  rewrite _RemoveObsoleteEndpointEntries_closed. cbn zeta.
  intros [= <- <- _]. unfold accept_entries, reject_entries.
  cbn [messages.consumerAcceptLists messages.consumerRejectLists
       assign.consumerRejectLists assign.consumerAcceptLists].
  by rewrite !default_fmap_filter.
Qed.

(** X6.  After the pruning pass no obsolete entry is left and every other
    entry is still there; the pass returns [False] exactly when the
    attachment had no obsolete entry, and then it has changed neither the
    attachment nor [cleared_fields]. *)
Theorem pruning_pass_removes_exactly_the_obsolete
    (sa : messages.ServiceAttachment) (cf : list string)
    (updated : bool) (sa' : messages.ServiceAttachment) (cf' : list string) :
  UpdateHelper._RemoveObsoleteEndpointEntries sa cf = (updated, sa', cf') ->
  let ids := service_attachments_utils.GetConnectedEndpointIds sa in
  (forall e, e ∈ accept_entries sa'
             <-> e ∈ accept_entries sa /\ ~ obsolete_accepted ids e)
  /\ (forall e, e ∈ reject_entries sa'
                <-> e ∈ reject_entries sa /\ ~ obsolete_rejected ids e)
  /\ (updated = false
      <-> (forall e, e ∈ accept_entries sa -> ~ obsolete_accepted ids e)
          /\ (forall e, e ∈ reject_entries sa -> ~ obsolete_rejected ids e))
  /\ (updated = false -> sa' = sa /\ cf' = cf).
Proof.
  intros Hrun ids.
  destruct (_RemoveObsoleteEndpointEntries_lists _ _ _ _ _ Hrun)
    as (Ha & Hr & _ & Hu).
  fold ids in Ha, Hr.
  assert (Hiff : updated = false
                 <-> (forall e, e ∈ accept_entries sa ->
                                ~ obsolete_accepted ids e)
                     /\ (forall e, e ∈ reject_entries sa ->
                                   ~ obsolete_rejected ids e)).
  { rewrite Hu, orb_false_iff, !negb_false_iff, !bool_decide_eq_true.
    rewrite Ha, Hr, !filter_same_iff.
    split; intros [H1 H2]; split; intros e He.
    - by apply keep_accepted_spec, H1.
    - by apply keep_rejected_spec, H2.
    - by apply keep_accepted_spec, H1.
    - by apply keep_rejected_spec, H2. }
  split; [|split; [|split]].
  - intros e. rewrite Ha, elem_of_filter_bool. by rewrite keep_accepted_spec.
  - intros e. rewrite Hr, elem_of_filter_bool. by rewrite keep_rejected_spec.
  - exact Hiff.
  - intros ->. revert Hrun Hu.
    rewrite _RemoveObsoleteEndpointEntries_closed. cbn zeta.
    intros [= Hu' <- <-] _. apply orb_false_iff in Hu' as [Hua Hur].
    rewrite Hua, Hur. split; [|done].
    apply negb_false_iff, bool_decide_eq_true in Hua, Hur.
    rewrite default_fmap_filter in Hua. rewrite default_fmap_filter in Hur.
    apply filter_length_same in Hua. apply filter_length_same in Hur.
    unfold accept_entries, reject_entries in Hua, Hur.
    destruct sa as [? ? ? ? ? [rl|] [al|] ? ? ? ?]; cbn in *;
      unfold assign.consumerRejectLists, assign.consumerAcceptLists; cbn;
      rewrite ?Hua, ?Hur; reflexivity.
Qed.

Lemma pruning_pass_removes_exactly_the_obsolete_witness :
  "projects/p9"
  ∈ reject_entries
      (assign.consumerRejectLists (Some ["projects/p9"])
         (assign.consumerAcceptLists (Some []) attachment_2))
  <-> "projects/p9" ∈ reject_entries attachment_2
      /\ ~ obsolete_rejected connected_ids_2 "projects/p9".
Proof.
  destruct (pruning_pass_removes_exactly_the_obsolete attachment_2 [] true
              (assign.consumerRejectLists (Some ["projects/p9"])
                 (assign.consumerAcceptLists (Some []) attachment_2))
              ["consumerAcceptLists"]) as (_ & Hr & _).
  - vm_compute. reflexivity.
  - apply Hr.
Defined.

(** X7.  Entries are matched with connected endpoints by trailing identifier
    only, so the prefixes of the two URLs (a project ID in one, a project
    number in the other) do not matter: an accept entry for the endpoint
    [prefix/id], and a reject entry [prefix/id] that has the endpoint
    marker, survive the pass exactly when [id] is the trailing identifier
    of a connected endpoint. *)
Theorem pruning_matches_by_trailing_identifier
    (sa : messages.ServiceAttachment) (cf : list string)
    (updated : bool) (sa' : messages.ServiceAttachment) (cf' : list string)
    (prefix id : string) :
  UpdateHelper._RemoveObsoleteEndpointEntries sa cf = (updated, sa', cf') ->
  id <> "" -> no_slash id ->
  (forall e,
      e.(messages.endpointUrl) = Some (prefix ++ "/" ++ id) ->
      e ∈ accept_entries sa'
      <-> e ∈ accept_entries sa
          /\ id ∈ service_attachments_utils.GetConnectedEndpointIds sa)
  /\ (str_in "/forwardingRules/" (prefix ++ "/" ++ id) = true ->
      (prefix ++ "/" ++ id) ∈ reject_entries sa'
      <-> (prefix ++ "/" ++ id) ∈ reject_entries sa
          /\ id ∈ service_attachments_utils.GetConnectedEndpointIds sa).
Proof.
  intros Hrun Hne Hid.
  destruct (_RemoveObsoleteEndpointEntries_lists _ _ _ _ _ Hrun)
    as (Ha & Hr & _ & _).
  split.
  - intros e He. rewrite Ha, elem_of_filter_bool.
    unfold service_attachments_utils.keep_accepted. rewrite He.
    destruct (prefix ++ "/" ++ id) as [|c u] eqn:E.
    { by destruct prefix. }
    rewrite <- E, trailing_id_of_path, bool_decide_eq_true by done. done.
  - intros Hf. rewrite Hr, elem_of_filter_bool.
    unfold service_attachments_utils.keep_rejected. rewrite Hf.
    cbn [negb orb]. by rewrite trailing_id_of_path, bool_decide_eq_true.
Qed.

Lemma pruning_matches_by_trailing_identifier_witness :
  "projects/123/regions/r/forwardingRules/e1"
  ∈ reject_entries
      (assign.consumerRejectLists
         (Some ["projects/123/regions/r/forwardingRules/e1"]) attachment_2)
  <-> "projects/123/regions/r/forwardingRules/e1"
      ∈ reject_entries
          (assign.consumerRejectLists
             (Some ["projects/123/regions/r/forwardingRules/e1"]) attachment_2)
      /\ "e1" ∈ service_attachments_utils.GetConnectedEndpointIds
                  (assign.consumerRejectLists
                     (Some ["projects/123/regions/r/forwardingRules/e1"])
                     attachment_2).
Proof.
  destruct (pruning_matches_by_trailing_identifier
              (assign.consumerRejectLists
                 (Some ["projects/123/regions/r/forwardingRules/e1"])
                 attachment_2)
              [] true
              (assign.consumerAcceptLists (Some [])
                 (assign.consumerRejectLists
                    (Some ["projects/123/regions/r/forwardingRules/e1"])
                    attachment_2))
              ["consumerAcceptLists"]
              "projects/123/regions/r/forwardingRules" "e1")
    as [_ Hr].
  - vm_compute. reflexivity.
  - discriminate.
  - reflexivity.
  - apply Hr. reflexivity.
Defined.

(** ** What each statement of [_Modify] writes *)

Lemma same_field_refl f sa : same_field f sa sa.
Proof. by destruct f. Qed.

Lemma same_field_trans f sa1 sa2 sa3 :
  same_field f sa1 sa2 -> same_field f sa2 sa3 -> same_field f sa1 sa3.
Proof. destruct f; simpl; congruence. Qed.

Lemma only_writes_refl fields st : only_writes fields st st.
Proof. split; [done|]. intros. apply same_field_refl. Qed.

(** A field that a step does not write is carried over. *)
Lemma same_field_step f fields st0 st st' :
  same_field f st0 st.(UpdateHelper.replacement) ->
  only_writes fields st st' -> f ∉ fields ->
  same_field f st0 st'.(UpdateHelper.replacement).
Proof.
  intros H0 [_ Hw] Hf. eapply same_field_trans; [exact H0|]. by apply Hw.
Qed.

Local Ltac writes_own_field :=
  split; [reflexivity|];
  let f := fresh "f" in let Hf := fresh "Hf" in
  intros f Hf; destruct f; try reflexivity;
  exfalso; apply Hf; repeat first [by left | right].

Lemma modify_target_service_only_writes args st :
  only_writes [F_targetService] st (UpdateHelper.modify_target_service args st).
Proof.
  unfold UpdateHelper.modify_target_service.
  destruct (target_service args); [|apply only_writes_refl].
  writes_own_field.
Qed.

Lemma modify_description_only_writes args st :
  only_writes [F_description] st (UpdateHelper.modify_description args st).
Proof.
  unfold UpdateHelper.modify_description.
  destruct (description args); [|apply only_writes_refl].
  destruct (negb _); [|apply only_writes_refl]. writes_own_field.
Qed.

Lemma modify_connection_preference_only_writes args st :
  only_writes [F_connectionPreference] st
    (UpdateHelper.modify_connection_preference args st).
Proof.
  unfold UpdateHelper.modify_connection_preference.
  destruct (connection_preference args); [|apply only_writes_refl].
  destruct (negb _); [|apply only_writes_refl]. writes_own_field.
Qed.

Lemma modify_enable_proxy_protocol_only_writes args st :
  only_writes [F_enableProxyProtocol] st
    (UpdateHelper.modify_enable_proxy_protocol args st).
Proof.
  unfold UpdateHelper.modify_enable_proxy_protocol.
  destruct (enable_proxy_protocol args); [|apply only_writes_refl].
  destruct (negb _); [|apply only_writes_refl]. writes_own_field.
Qed.

Lemma modify_nat_subnets_only_writes args st :
  only_writes [F_natSubnets] st (UpdateHelper.modify_nat_subnets args st).
Proof.
  unfold UpdateHelper.modify_nat_subnets.
  destruct (nat_subnets args); [|apply only_writes_refl].
  match goal with |- context [if ?b then _ else _] => destruct b end;
    [|apply only_writes_refl].
  writes_own_field.
Qed.

Lemma modify_consumer_reject_list_only_writes args st :
  only_writes [F_consumerRejectLists] st
    (UpdateHelper.modify_consumer_reject_list args st).
Proof.
  unfold UpdateHelper.modify_consumer_reject_list.
  destruct (consumer_reject_list args); [|apply only_writes_refl].
  match goal with |- context [if ?b then _ else _] => destruct b end;
    [|apply only_writes_refl].
  destruct (bool_decide _); writes_own_field.
Qed.

Lemma modify_consumer_accept_list_only_writes int support args st st' :
  UpdateHelper.modify_consumer_accept_list int support args st = Ok st' ->
  only_writes [F_consumerAcceptLists] st st'.
Proof.
  unfold UpdateHelper.modify_consumer_accept_list.
  destruct (consumer_accept_list args);
    [|intros [= <-]; apply only_writes_refl].
  destruct (UpdateHelper._GetConsumerAcceptList _ _ _); [|done]. cbn [bind].
  destruct (sorted_by_key _ _); [|done]. cbn [bind].
  match goal with |- context [bind ?m _] => destruct m as [[|]|] end;
    cbn [bind]; [|intros [= <-]; apply only_writes_refl|done].
  destruct (bool_decide _); intros [= <-]; writes_own_field.
Qed.

Lemma modify_remove_obsolete_only_writes support args st st' :
  UpdateHelper.modify_remove_obsolete support args st = Ok st' ->
  only_writes [F_consumerAcceptLists; F_consumerRejectLists] st st'.
Proof.
  unfold UpdateHelper.modify_remove_obsolete.
  destruct (support && _); [|intros [= <-]; apply only_writes_refl].
  destruct (_ || _); [done|].
  destruct (UpdateHelper._RemoveObsoleteEndpointEntries _ _)
    as [[updated sa'] cf'] eqn:Hr.
  apply _RemoveObsoleteEndpointEntries_fields in Hr as (a & r & ->).
  intros [= <-]. writes_own_field.
Qed.

Lemma modify_reconcile_connections_only_writes args st :
  only_writes [F_reconcileConnections] st
    (UpdateHelper.modify_reconcile_connections args st).
Proof.
  unfold UpdateHelper.modify_reconcile_connections.
  destruct (reconcile_connections args); [|apply only_writes_refl].
  destruct (negb _); [|apply only_writes_refl]. writes_own_field.
Qed.

Lemma modify_propagated_connection_limit_only_writes args st :
  only_writes [F_propagatedConnectionLimit] st
    (UpdateHelper.modify_propagated_connection_limit args st).
Proof.
  unfold UpdateHelper.modify_propagated_connection_limit.
  destruct (propagated_connection_limit args); [|apply only_writes_refl].
  destruct (negb _); [|apply only_writes_refl]. writes_own_field.
Qed.

(** ** What each statement of [_Modify] establishes *)

Lemma sorted_str_perm l : sorted_str l ≡ₚ l.
Proof. apply stable_sort_perm. Qed.

Lemma sorted_str_idem l : sorted_str (sorted_str l) = sorted_str l.
Proof. apply sorted_str_perm_eq, sorted_str_perm. Qed.

Lemma sorted_str_eq_perm l1 l2 : sorted_str l1 = sorted_str l2 -> l1 ≡ₚ l2.
Proof.
  intros H. rewrite <- (sorted_str_perm l1), H. apply sorted_str_perm.
Qed.

Lemma modify_target_service_sets args st target :
  args.(target_service) = Some target ->
  (UpdateHelper.modify_target_service args st)
    .(UpdateHelper.replacement).(messages.targetService) = Some target.
Proof. intros H. unfold UpdateHelper.modify_target_service. by rewrite H. Qed.

Lemma modify_description_sets args st d :
  args.(description) = Some d ->
  st.(UpdateHelper.replacement).(messages.description)
  = st.(UpdateHelper.old_resource).(messages.description) ->
  (UpdateHelper.modify_description args st)
    .(UpdateHelper.replacement).(messages.description) = Some d.
Proof.
  intros H Hsame. unfold UpdateHelper.modify_description. rewrite H.
  case_bool_decide as Hd; cbn [negb]; [by rewrite Hsame|done].
Qed.

Lemma modify_connection_preference_sets args st token :
  args.(connection_preference) = Some token ->
  st.(UpdateHelper.replacement).(messages.connectionPreference)
  = st.(UpdateHelper.old_resource).(messages.connectionPreference) ->
  (UpdateHelper.modify_connection_preference args st)
    .(UpdateHelper.replacement).(messages.connectionPreference)
  = service_attachments_utils.GetConnectionPreference args.
Proof.
  intros H Hsame. unfold UpdateHelper.modify_connection_preference. rewrite H.
  case_bool_decide as Hd; cbn [negb]; [by rewrite Hsame|done].
Qed.

Lemma modify_enable_proxy_protocol_sets args st b :
  args.(enable_proxy_protocol) = Some b ->
  st.(UpdateHelper.replacement).(messages.enableProxyProtocol)
  = st.(UpdateHelper.old_resource).(messages.enableProxyProtocol) ->
  (UpdateHelper.modify_enable_proxy_protocol args st)
    .(UpdateHelper.replacement).(messages.enableProxyProtocol) = Some b.
Proof.
  intros H Hsame. unfold UpdateHelper.modify_enable_proxy_protocol. rewrite H.
  case_bool_decide as Hd; cbn [negb]; [by rewrite Hsame|done].
Qed.

Lemma modify_reconcile_connections_sets args st b :
  args.(reconcile_connections) = Some b ->
  st.(UpdateHelper.replacement).(messages.reconcileConnections)
  = st.(UpdateHelper.old_resource).(messages.reconcileConnections) ->
  (UpdateHelper.modify_reconcile_connections args st)
    .(UpdateHelper.replacement).(messages.reconcileConnections) = Some b.
Proof.
  intros H Hsame. unfold UpdateHelper.modify_reconcile_connections. rewrite H.
  case_bool_decide as Hd; cbn [negb]; [by rewrite Hsame|done].
Qed.

Lemma modify_propagated_connection_limit_sets args st n :
  args.(propagated_connection_limit) = Some n ->
  st.(UpdateHelper.replacement).(messages.propagatedConnectionLimit)
  = st.(UpdateHelper.old_resource).(messages.propagatedConnectionLimit) ->
  (UpdateHelper.modify_propagated_connection_limit args st)
    .(UpdateHelper.replacement).(messages.propagatedConnectionLimit) = Some n.
Proof.
  intros H Hsame. unfold UpdateHelper.modify_propagated_connection_limit.
  rewrite H. case_bool_decide as Hd; cbn [negb]; [by rewrite Hsame|done].
Qed.

Lemma modify_nat_subnets_sets args st l :
  args.(nat_subnets) = Some l ->
  st.(UpdateHelper.replacement).(messages.natSubnets)
  = st.(UpdateHelper.old_resource).(messages.natSubnets) ->
  exists l',
    (UpdateHelper.modify_nat_subnets args st)
      .(UpdateHelper.replacement).(messages.natSubnets) = Some l'
    /\ sorted_str l = sorted_str l'.
Proof.
  intros H Hsame. unfold UpdateHelper.modify_nat_subnets.
  rewrite H. unfold UpdateHelper._GetNatSubnets. rewrite H.
  destruct (messages.natSubnets (UpdateHelper.old_resource st))
    as [old_list|] eqn:Hold.
  - case_bool_decide as Hd; cbn [negb].
    + exists old_list. by rewrite Hsame.
    + exists (sorted_str l). by rewrite sorted_str_idem.
  - exists (sorted_str l). by rewrite sorted_str_idem.
Qed.

Lemma modify_consumer_reject_list_sets args st l :
  args.(consumer_reject_list) = Some l ->
  st.(UpdateHelper.replacement).(messages.consumerRejectLists)
  = st.(UpdateHelper.old_resource).(messages.consumerRejectLists) ->
  exists l',
    (UpdateHelper.modify_consumer_reject_list args st)
      .(UpdateHelper.replacement).(messages.consumerRejectLists) = Some l'
    /\ sorted_str l = sorted_str l'.
Proof.
  intros H Hsame. unfold UpdateHelper.modify_consumer_reject_list. rewrite H.
  destruct (messages.consumerRejectLists (UpdateHelper.old_resource st))
    as [old_list|] eqn:Hold.
  - case_bool_decide as Hd; cbn [negb].
    + exists old_list. by rewrite Hsame.
    + exists (sorted_str l). split; [|by rewrite sorted_str_idem].
      by destruct (bool_decide _).
  - exists (sorted_str l). split; [|by rewrite sorted_str_idem].
    by destruct (bool_decide _).
Qed.

Lemma modify_consumer_accept_list_sets int support args st st' dicts :
  UpdateHelper.modify_consumer_accept_list int support args st = Ok st' ->
  args.(consumer_accept_list) = Some dicts ->
  st.(UpdateHelper.replacement).(messages.consumerAcceptLists)
  = st.(UpdateHelper.old_resource).(messages.consumerAcceptLists) ->
  exists new sorted_new l',
    UpdateHelper._GetConsumerAcceptList int support args = Ok new
    /\ sorted_by_key
         (UpdateHelper._GetProjectOrNetworkOrEndpointBasedOnArg support) new
       = Ok sorted_new
    /\ st'.(UpdateHelper.replacement).(messages.consumerAcceptLists) = Some l'
    /\ sorted_by_key
         (UpdateHelper._GetProjectOrNetworkOrEndpointBasedOnArg support) l'
       = Ok sorted_new.
Proof.
  unfold UpdateHelper.modify_consumer_accept_list. intros H Harg Hsame.
  rewrite Harg in H.
  destruct (UpdateHelper._GetConsumerAcceptList int support args)
    as [new|] eqn:Hnew; [|done]. cbn [bind] in H.
  destruct (sorted_by_key _ new) as [sn|] eqn:Hsn; [|done]. cbn [bind] in H.
  assert (Hidem : sorted_by_key
            (UpdateHelper._GetProjectOrNetworkOrEndpointBasedOnArg support) sn
          = Ok sn).
  { rewrite <- Hsn. symmetry. apply (new_accept_list_order_free int support args);
      [done|]. symmetry. by apply sorted_by_key_perm in Hsn. }
  exists new, sn.
  destruct (messages.consumerAcceptLists (UpdateHelper.old_resource st))
    as [old_list|] eqn:Hold.
  - destruct (sorted_by_key _ old_list) as [so|] eqn:Hso; [|done].
    cbn [bind] in H. case_bool_decide as Hd; cbn [negb] in H.
    + injection H as <-. exists old_list. rewrite Hsame. by subst so.
    + exists sn. destruct (bool_decide (sn = [])); by injection H as <-.
  - cbn [bind] in H. exists sn.
    destruct (bool_decide (sn = [])); by injection H as <-.
Qed.

Ltac field_not_written :=
  let Hin := fresh "Hin" in
  intros Hin;
  repeat (apply elem_of_cons in Hin as [Hin|Hin]; [discriminate Hin|]);
  by apply elem_of_nil in Hin.

(** Carries a field over the statements that do not write it. *)
Ltac carry_field :=
  first
    [ apply same_field_refl
    | eapply same_field_step; cycle 1;
      [ first [ apply modify_propagated_connection_limit_only_writes
              | apply modify_reconcile_connections_only_writes
              | apply modify_consumer_reject_list_only_writes
              | apply modify_nat_subnets_only_writes
              | apply modify_enable_proxy_protocol_only_writes
              | apply modify_connection_preference_only_writes
              | apply modify_description_only_writes
              | apply modify_target_service_only_writes
              | eassumption ]
      | field_not_written
      | carry_field ] ].

Lemma before_accept_list_old_resource args st :
  (before_accept_list args st).(UpdateHelper.old_resource)
  = st.(UpdateHelper.old_resource).
Proof. apply (before_accept_list_frame false args st). Qed.

(** The stores [_Modify] goes through, with what is known of each. *)
Lemma _Modify_body_stores int support args S cf st :
  UpdateHelper._Modify_body int support args (UpdateHelper.enter S cf) = Ok st ->
  exists st7 st8,
    UpdateHelper.modify_consumer_accept_list int support args
      (before_accept_list args (UpdateHelper.enter S cf)) = Ok st7
    /\ UpdateHelper.modify_remove_obsolete support args st7 = Ok st8
    /\ st = UpdateHelper.modify_propagated_connection_limit args
              (UpdateHelper.modify_reconcile_connections args st8)
    /\ only_writes [F_consumerAcceptLists]
         (before_accept_list args (UpdateHelper.enter S cf)) st7
    /\ only_writes [F_consumerAcceptLists; F_consumerRejectLists] st7 st8
    /\ st7.(UpdateHelper.old_resource) = S
    /\ st8.(UpdateHelper.old_resource) = S.
Proof.
  intros H. apply _Modify_body_inv in H as (st7 & st8 & H7 & H8 & ->).
  exists st7, st8.
  pose proof (modify_consumer_accept_list_only_writes _ _ _ _ _ H7) as W7.
  pose proof (modify_remove_obsolete_only_writes _ _ _ _ H8) as W8.
  assert (Ho7 : UpdateHelper.old_resource st7 = S).
  { rewrite (proj1 W7). apply before_accept_list_old_resource. }
  assert (Ho8 : UpdateHelper.old_resource st8 = S)
    by (by rewrite (proj1 W8)).
  exact (conj H7 (conj H8 (conj eq_refl (conj W7 (conj W8 (conj Ho7 Ho8)))))).
Qed.

(** In the store [_Modify] ends with, the replacement holds every
    override that was given. *)
Lemma _Modify_body_overrides int support args S cf st :
  UpdateHelper._Modify_body int support args (UpdateHelper.enter S cf) = Ok st ->
  let rep := st.(UpdateHelper.replacement) in
  (forall target, args.(target_service) = Some target ->
                  rep.(messages.targetService) = Some target)
  /\ (forall d, args.(description) = Some d ->
                rep.(messages.description) = Some d)
  /\ (forall token, args.(connection_preference) = Some token ->
        rep.(messages.connectionPreference)
        = service_attachments_utils.GetConnectionPreference args)
  /\ (forall b, args.(enable_proxy_protocol) = Some b ->
                rep.(messages.enableProxyProtocol) = Some b)
  /\ (forall l, args.(nat_subnets) = Some l ->
        exists l', rep.(messages.natSubnets) = Some l'
                   /\ sorted_str l = sorted_str l')
  /\ (forall l, args.(consumer_reject_list) = Some l ->
        exists l', rep.(messages.consumerRejectLists) = Some l'
                   /\ sorted_str l = sorted_str l')
  /\ (forall dicts, args.(consumer_accept_list) = Some dicts ->
        exists new sorted_new l',
          UpdateHelper._GetConsumerAcceptList int support args = Ok new
          /\ sorted_by_key
               (UpdateHelper._GetProjectOrNetworkOrEndpointBasedOnArg support)
               new = Ok sorted_new
          /\ rep.(messages.consumerAcceptLists) = Some l'
          /\ sorted_by_key
               (UpdateHelper._GetProjectOrNetworkOrEndpointBasedOnArg support)
               l' = Ok sorted_new)
  /\ (forall b, args.(reconcile_connections) = Some b ->
                rep.(messages.reconcileConnections) = Some b)
  /\ (forall n, args.(propagated_connection_limit) = Some n ->
                rep.(messages.propagatedConnectionLimit) = Some n).
Proof.
  intros H.
  apply _Modify_body_stores in H
    as (st7 & st8 & H7 & H8 & -> & W7 & W8 & Ho7 & Ho8).
  unfold before_accept_list in *.
  set (st0 := UpdateHelper.enter S cf) in *.
  set (s1 := UpdateHelper.modify_target_service args st0) in *.
  set (s2 := UpdateHelper.modify_description args s1) in *.
  set (s3 := UpdateHelper.modify_connection_preference args s2) in *.
  set (s4 := UpdateHelper.modify_enable_proxy_protocol args s3) in *.
  set (s5 := UpdateHelper.modify_nat_subnets args s4) in *.
  set (s6 := UpdateHelper.modify_consumer_reject_list args s5) in *.
  set (s9 := UpdateHelper.modify_reconcile_connections args st8) in *.
  assert (Ho1 : UpdateHelper.old_resource s1 = S)
    by apply (modify_target_service_only_writes args st0).
  assert (Ho2 : UpdateHelper.old_resource s2 = S)
    by (rewrite <- Ho1; apply (modify_description_only_writes args s1)).
  assert (Ho3 : UpdateHelper.old_resource s3 = S)
    by (rewrite <- Ho2; apply (modify_connection_preference_only_writes args s2)).
  assert (Ho4 : UpdateHelper.old_resource s4 = S)
    by (rewrite <- Ho3; apply (modify_enable_proxy_protocol_only_writes args s3)).
  assert (Ho5 : UpdateHelper.old_resource s5 = S)
    by (rewrite <- Ho4; apply (modify_nat_subnets_only_writes args s4)).
  assert (Ho6 : UpdateHelper.old_resource s6 = S)
    by (rewrite <- Ho5; apply (modify_consumer_reject_list_only_writes args s5)).
  assert (Ho9 : UpdateHelper.old_resource s9 = S)
    by (rewrite <- Ho8; apply (modify_reconcile_connections_only_writes args st8)).
  cbv zeta. repeat apply conj.
  - intros target Harg.
    rewrite <- (modify_target_service_sets args st0 target Harg).
    change (same_field F_targetService (UpdateHelper.replacement s1)
              (UpdateHelper.replacement
                 (UpdateHelper.modify_propagated_connection_limit args s9))).
    carry_field.
  - intros d Harg.
    rewrite <- (modify_description_sets args s1 d Harg).
    + change (same_field F_description (UpdateHelper.replacement s2)
                (UpdateHelper.replacement
                   (UpdateHelper.modify_propagated_connection_limit args s9))).
      carry_field.
    + rewrite Ho1.
      change (same_field F_description S (UpdateHelper.replacement s1)).
      carry_field.
  - intros token Harg.
    rewrite <- (modify_connection_preference_sets args s2 token Harg).
    + change (same_field F_connectionPreference (UpdateHelper.replacement s3)
                (UpdateHelper.replacement
                   (UpdateHelper.modify_propagated_connection_limit args s9))).
      carry_field.
    + rewrite Ho2.
      change (same_field F_connectionPreference S
                (UpdateHelper.replacement s2)).
      carry_field.
  - intros b Harg.
    rewrite <- (modify_enable_proxy_protocol_sets args s3 b Harg).
    + change (same_field F_enableProxyProtocol (UpdateHelper.replacement s4)
                (UpdateHelper.replacement
                   (UpdateHelper.modify_propagated_connection_limit args s9))).
      carry_field.
    + rewrite Ho3.
      change (same_field F_enableProxyProtocol S
                (UpdateHelper.replacement s3)).
      carry_field.
  - intros l Harg.
    destruct (modify_nat_subnets_sets args s4 l Harg) as (l' & Hl' & Hs).
    + rewrite Ho4.
      change (same_field F_natSubnets S (UpdateHelper.replacement s4)).
      carry_field.
    + exists l'. split; [|done]. rewrite <- Hl'.
      change (same_field F_natSubnets (UpdateHelper.replacement s5)
                (UpdateHelper.replacement
                   (UpdateHelper.modify_propagated_connection_limit args s9))).
      carry_field.
  - intros l Harg.
    destruct (modify_remove_obsolete_not_run support args st7 st8)
      as [_ ->]; [right; rewrite Harg; by eexists|done|]. clear W8.
    destruct (modify_consumer_reject_list_sets args s5 l Harg)
      as (l' & Hl' & Hs).
    + rewrite Ho5.
      change (same_field F_consumerRejectLists S
                (UpdateHelper.replacement s5)).
      carry_field.
    + exists l'. split; [|done]. rewrite <- Hl'.
      change (same_field F_consumerRejectLists (UpdateHelper.replacement s6)
                (UpdateHelper.replacement
                   (UpdateHelper.modify_propagated_connection_limit args s9))).
      carry_field.
  - intros dicts Harg.
    destruct (modify_remove_obsolete_not_run support args st7 st8)
      as [_ ->]; [left; rewrite Harg; by eexists|done|]. clear W8.
    destruct (modify_consumer_accept_list_sets int support args s6 st7 dicts
                H7 Harg) as (new & sn & l' & Hnew & Hsn & Hl' & Hsl').
    + rewrite Ho6.
      change (same_field F_consumerAcceptLists S
                (UpdateHelper.replacement s6)).
      carry_field.
    + exists new, sn, l'. repeat split; try done. rewrite <- Hl'.
      change (same_field F_consumerAcceptLists (UpdateHelper.replacement st7)
                (UpdateHelper.replacement
                   (UpdateHelper.modify_propagated_connection_limit args s9))).
      clear W7. carry_field.
  - intros b Harg.
    rewrite <- (modify_reconcile_connections_sets args st8 b Harg).
    + change (same_field F_reconcileConnections (UpdateHelper.replacement s9)
                (UpdateHelper.replacement
                   (UpdateHelper.modify_propagated_connection_limit args s9))).
      carry_field.
    + rewrite Ho8.
      change (same_field F_reconcileConnections S
                (UpdateHelper.replacement st8)).
      carry_field.
  - intros n Harg.
    apply (modify_propagated_connection_limit_sets args s9 n Harg).
    rewrite Ho9.
    change (same_field F_propagatedConnectionLimit S
              (UpdateHelper.replacement s9)).
    carry_field.
Qed.

(** ** [Run]: what is sent, and when *)

Lemma Run_eq int support args old :
  UpdateHelper.Run int support args old
  = (st <- UpdateHelper._Modify_body int support args
             (UpdateHelper.enter old []);;
     Ok (if st.(UpdateHelper.is_updated)
         then UpdateHelper.PatchRequest st.(UpdateHelper.replacement)
                st.(UpdateHelper.cleared_fields)
         else UpdateHelper.ReturnOldResource st.(UpdateHelper.old_resource))).
Proof.
  unfold UpdateHelper.Run, UpdateHelper._Modify.
  destruct (UpdateHelper._Modify_body _ _ _ _) as [st|]; cbn [bind]; [|done].
  by destruct (UpdateHelper.is_updated st).
Qed.

Lemma Run_patch_inv int support args old rep cf :
  UpdateHelper.Run int support args old
  = Ok (UpdateHelper.PatchRequest rep cf) ->
  exists st,
    UpdateHelper._Modify_body int support args (UpdateHelper.enter old [])
    = Ok st
    /\ st.(UpdateHelper.is_updated) = true
    /\ st.(UpdateHelper.replacement) = rep
    /\ st.(UpdateHelper.cleared_fields) = cf.
Proof.
  rewrite Run_eq.
  destruct (UpdateHelper._Modify_body _ _ _ _) as [st|]; cbn [bind]; [|done].
  destruct (UpdateHelper.is_updated st) eqn:Hu; [|done].
  intros [= <- <-]. by exists st.
Qed.

Lemma before_accept_list_no_overrides args st :
  no_overrides args -> before_accept_list args st = st.
Proof.
  intros (H1 & H2 & H3 & H4 & H5 & H6 & _).
  unfold before_accept_list, UpdateHelper.modify_consumer_reject_list,
    UpdateHelper.modify_nat_subnets, UpdateHelper.modify_enable_proxy_protocol,
    UpdateHelper.modify_connection_preference,
    UpdateHelper.modify_description, UpdateHelper.modify_target_service.
  by rewrite H1, H2, H3, H4, H5, H6.
Qed.

Lemma _Modify_body_no_overrides int support args st :
  no_overrides args ->
  UpdateHelper._Modify_body int support args st
  = UpdateHelper.modify_remove_obsolete support args st.
Proof.
  intros Hno. unfold UpdateHelper._Modify_body. cbv zeta.
  fold (before_accept_list args st).
  rewrite (before_accept_list_no_overrides _ _ Hno).
  destruct Hno as (_ & _ & _ & _ & _ & _ & H7 & H8 & H9).
  unfold UpdateHelper.modify_consumer_accept_list,
    UpdateHelper.modify_reconcile_connections,
    UpdateHelper.modify_propagated_connection_limit.
  rewrite H7, H8, H9. cbn [bind].
  by destruct (UpdateHelper.modify_remove_obsolete support args st).
Qed.

(** X9.  With no field override and the pruning pass not requested, [Run]
    sends no request and returns the fetched resource. *)
Theorem update_without_overrides_returns_fetched_resource
    (int : string -> option Z) (support : bool) (args : Namespace)
    (old_resource : messages.ServiceAttachment) :
  no_overrides args ->
  pruning_requested support args = false ->
  UpdateHelper.Run int support args old_resource
  = Ok (UpdateHelper.ReturnOldResource old_resource).
Proof.
  intros Hno Hpr. rewrite Run_eq, (_Modify_body_no_overrides _ _ _ _ Hno).
  unfold UpdateHelper.modify_remove_obsolete.
  unfold pruning_requested in Hpr. by rewrite Hpr.
Qed.

Lemma update_without_overrides_returns_fetched_resource_witness :
  UpdateHelper.Run int_decimal true no_args attachment_2
  = Ok (UpdateHelper.ReturnOldResource attachment_2).
Proof.
  apply update_without_overrides_returns_fetched_resource.
  - by repeat split.
  - reflexivity.
Defined.

Lemma _RemoveObsoleteEndpointEntries_flag sa cf updated sa' cf' :
  UpdateHelper._RemoveObsoleteEndpointEntries sa cf = (updated, sa', cf') ->
  (updated = false <-> nothing_obsolete sa)
  /\ (updated = false -> sa' = sa /\ cf' = cf).
Proof.
  intros Hrun.
  destruct (_RemoveObsoleteEndpointEntries_lists _ _ _ _ _ Hrun)
    as (Ha & Hr & _ & Hu).
  split.
  - rewrite Hu, orb_false_iff, !negb_false_iff, !bool_decide_eq_true.
    rewrite Ha, Hr, !filter_same_iff. unfold nothing_obsolete. cbv zeta.
    split; intros [H1 H2]; split; intros e He.
    + by apply keep_accepted_spec, H1.
    + by apply keep_rejected_spec, H2.
    + by apply keep_accepted_spec, H1.
    + by apply keep_rejected_spec, H2.
  - intros ->. revert Hrun Hu.
    rewrite _RemoveObsoleteEndpointEntries_closed. cbn zeta.
    intros [= Hu' <- <-] _. apply orb_false_iff in Hu' as [Hua Hur].
    rewrite Hua, Hur. split; [|done].
    apply negb_false_iff, bool_decide_eq_true in Hua.
    apply negb_false_iff, bool_decide_eq_true in Hur.
    rewrite default_fmap_filter in Hua. rewrite default_fmap_filter in Hur.
    apply filter_length_same in Hua. apply filter_length_same in Hur.
    unfold accept_entries, reject_entries in Hua, Hur.
    destruct sa as [? ? ? ? ? [rl|] [al|] ? ? ? ?]; cbn in *;
      unfold assign.consumerRejectLists, assign.consumerAcceptLists; cbn;
      rewrite ?Hua, ?Hur; reflexivity.
Qed.

(** X10.  The pruning flag alone, on the tracks that support it: when no entry
    of the fetched resource is obsolete, [Run] sends nothing and returns
    the fetched resource; otherwise it sends a Patch request whose accept
    and reject lists are the fetched ones without their obsolete entries.
    It never raises. *)
Theorem pruning_flag_alone_patches_iff_obsolete
    (int : string -> option Z) (args : Namespace)
    (old_resource : messages.ServiceAttachment) :
  no_overrides args ->
  args.(remove_obsolete_endpoint_accept_reject_entries) = true ->
  let ids := service_attachments_utils.GetConnectedEndpointIds old_resource in
  (nothing_obsolete old_resource ->
   UpdateBeta.Run int args old_resource
   = Ok (UpdateHelper.ReturnOldResource old_resource))
  /\ (~ nothing_obsolete old_resource ->
      exists replacement cleared_fields,
        UpdateBeta.Run int args old_resource
        = Ok (UpdateHelper.PatchRequest replacement cleared_fields)
        /\ accept_entries replacement
           = List.filter (service_attachments_utils.keep_accepted ids)
               (accept_entries old_resource)
        /\ reject_entries replacement
           = List.filter (service_attachments_utils.keep_rejected ids)
               (reject_entries old_resource)).
Proof.
  intros Hno Hflag ids. unfold UpdateBeta.Run.
  rewrite Run_eq, (_Modify_body_no_overrides _ _ _ _ Hno).
  unfold UpdateHelper.modify_remove_obsolete,
    UpdateBeta._support_endpoint_based_security_arg.
  rewrite Hflag. cbn [andb].
  destruct Hno as (_ & _ & _ & _ & _ & -> & -> & _).
  rewrite !bool_decide_false by (intros [? ?]; discriminate). cbn [orb].
  cbn [UpdateHelper.enter UpdateHelper.replacement
       UpdateHelper.cleared_fields].
  destruct (UpdateHelper._RemoveObsoleteEndpointEntries old_resource [])
    as [[updated sa'] cf'] eqn:Hrun.
  cbn [bind UpdateHelper.set_is_updated UpdateHelper.set_cleared_fields
       UpdateHelper.set_replacement UpdateHelper.is_updated
       UpdateHelper.replacement UpdateHelper.cleared_fields
       UpdateHelper.old_resource].
  destruct (_RemoveObsoleteEndpointEntries_flag _ _ _ _ _ Hrun) as [Hiff _].
  destruct (_RemoveObsoleteEndpointEntries_lists _ _ _ _ _ Hrun)
    as (Ha & Hr & _ & _).
  split.
  - intros Hclean. apply Hiff in Hclean. by rewrite Hclean.
  - intros Hobs. destruct updated.
    + by exists sa', cf'.
    + exfalso. by apply Hobs, Hiff.
Qed.

Lemma pruning_flag_alone_patches_iff_obsolete_witness :
  exists replacement cleared_fields,
    UpdateBeta.Run int_decimal args_pruning_only attachment_2
    = Ok (UpdateHelper.PatchRequest replacement cleared_fields)
    /\ accept_entries replacement
       = List.filter (service_attachments_utils.keep_accepted connected_ids_2)
           (accept_entries attachment_2)
    /\ reject_entries replacement
       = List.filter (service_attachments_utils.keep_rejected connected_ids_2)
           (reject_entries attachment_2).
Proof.
  destruct (pruning_flag_alone_patches_iff_obsolete int_decimal
              args_pruning_only attachment_2) as [_ Hobs].
  - by repeat split.
  - reflexivity.
  - apply Hobs. intros Hclean.
    destruct (_RemoveObsoleteEndpointEntries_flag attachment_2 []
                true
                (assign.consumerRejectLists (Some ["projects/p9"])
                   (assign.consumerAcceptLists (Some []) attachment_2))
                ["consumerAcceptLists"]) as [Hiff _].
    + vm_compute. reflexivity.
    + apply Hiff in Hclean. discriminate Hclean.
Defined.

(** ** The errors of the accept-list block and of the conflict check *)

Lemma for_each_raise_inv {A S} (P : exn -> Prop) (xs : list A)
    (body : A -> S -> result S) s e :
  (forall x s e, body x s = Raise e -> P e) ->
  for_each xs body s = Raise e -> P e.
Proof.
  intros Hb. revert s. induction xs as [|x xs IH]; intros s; simpl; [done|].
  destruct (body x s) as [s'|e'] eqn:Hx; cbn [bind].
  - apply IH.
  - intros [= <-]. by apply (Hb x s).
Qed.

Lemma py_int_error int v e : py_int int v = Raise e -> accept_list_error e.
Proof.
  unfold py_int, accept_list_error. destruct v as [s|].
  - destruct (int s); [done|]. intros [= <-]. right. left. by eexists.
  - intros [= <-]. by right; right.
Qed.

Lemma bind_py_int_error {B} int v (k : Z -> B) e :
  (n <- py_int int v;; Ok (k n)) = Raise e -> accept_list_error e.
Proof.
  destruct (py_int int v) eqn:Hv; cbn [bind]; [done|].
  intros [= <-]. by apply (py_int_error int v).
Qed.

Lemma accept_list_entry_error int item acc e :
  service_attachments_utils.accept_list_entry int item acc = Raise e ->
  accept_list_error e.
Proof.
  unfold service_attachments_utils.accept_list_entry. cbv zeta.
  destruct (str_in "/networks/" item.1); [apply bind_py_int_error|].
  destruct (str_in "/forwardingRules/" item.1); [|apply bind_py_int_error].
  intros [= <-]. left. by eexists.
Qed.

Lemma accept_list_entry_ebs_error int item acc e :
  service_attachments_utils.accept_list_entry_ebs int item acc = Raise e ->
  accept_list_error e.
Proof.
  unfold service_attachments_utils.accept_list_entry_ebs. cbv zeta.
  destruct (str_in "/networks/" item.1).
  { destruct (negb _); [|apply bind_py_int_error].
    intros [= <-]. left. by eexists. }
  destruct (str_in "/forwardingRules/" item.1).
  { destruct (truthy _); [apply bind_py_int_error|done]. }
  destruct (negb _); [|apply bind_py_int_error].
  intros [= <-]. left. by eexists.
Qed.

Lemma _GetConsumerAcceptList_error int support args e :
  UpdateHelper._GetConsumerAcceptList int support args = Raise e ->
  accept_list_error e.
Proof.
  unfold UpdateHelper._GetConsumerAcceptList,
    service_attachments_utils.GetConsumerAcceptList,
    service_attachments_utils.GetConsumerAcceptListWithEndpointBasedSecurity.
  destruct support, (consumer_accept_list args) as [dicts|];
    try (intros [= <-]; by right; right).
  - apply for_each_raise_inv. intros d acc e'.
    apply for_each_raise_inv. intros item acc'.
    apply accept_list_entry_ebs_error.
  - apply for_each_raise_inv. intros d acc e'.
    apply for_each_raise_inv. intros item acc'.
    apply accept_list_entry_error.
Qed.

Lemma sorted_by_key_error {A} (key : A -> limit_key) l e :
  sorted_by_key key l = Raise e -> e = TypeError.
Proof.
  unfold sorted_by_key. destruct (all_comparable key l); [done|].
  by intros [= <-].
Qed.

Lemma modify_consumer_accept_list_error int support args st e :
  UpdateHelper.modify_consumer_accept_list int support args st = Raise e ->
  is_Some args.(consumer_accept_list) /\ accept_list_error e.
Proof.
  unfold UpdateHelper.modify_consumer_accept_list.
  destruct (consumer_accept_list args) as [dicts|]; [|done].
  intros H. split; [by eexists|]. revert H.
  destruct (UpdateHelper._GetConsumerAcceptList _ _ _) as [new|e1] eqn:Hnew;
    cbn [bind].
  2: { intros [= <-]. by apply _GetConsumerAcceptList_error in Hnew. }
  destruct (sorted_by_key _ new) as [sn|e2] eqn:Hsn; cbn [bind].
  2: { intros [= <-]. apply sorted_by_key_error in Hsn as ->.
       by right; right. }
  destruct (messages.consumerAcceptLists (UpdateHelper.old_resource st))
    as [old_list|].
  - destruct (sorted_by_key _ old_list) as [so|e3] eqn:Hso; cbn [bind].
    + by repeat destruct (bool_decide _).
    + intros [= <-]. apply sorted_by_key_error in Hso as ->.
      by right; right.
  - cbn [bind]. by destruct (bool_decide _).
Qed.

Lemma modify_remove_obsolete_error support args st e :
  UpdateHelper.modify_remove_obsolete support args st = Raise e ->
  e = ConflictingArgumentsException UpdateHelper.conflicting_msg
  /\ pruning_requested support args = true
  /\ (is_Some args.(consumer_accept_list)
      \/ is_Some args.(consumer_reject_list)).
Proof.
  unfold UpdateHelper.modify_remove_obsolete, pruning_requested.
  destruct (support && _); [|done].
  destruct (bool_decide (is_Some (consumer_accept_list args))) eqn:Ha.
  { intros [= <-]. apply bool_decide_eq_true in Ha. auto. }
  destruct (bool_decide (is_Some (consumer_reject_list args))) eqn:Hr.
  { intros [= <-]. apply bool_decide_eq_true in Hr. auto. }
  cbn [orb]. by destruct (UpdateHelper._RemoveObsoleteEndpointEntries _ _)
    as [[? ?] ?].
Qed.

Lemma _Modify_body_error int support args st0 e :
  UpdateHelper._Modify_body int support args st0 = Raise e ->
  (is_Some args.(consumer_accept_list) /\ accept_list_error e)
  \/ (e = ConflictingArgumentsException UpdateHelper.conflicting_msg
      /\ pruning_requested support args = true
      /\ (is_Some args.(consumer_accept_list)
          \/ is_Some args.(consumer_reject_list))).
Proof.
  unfold UpdateHelper._Modify_body. cbv zeta.
  fold (before_accept_list args st0).
  destruct (UpdateHelper.modify_consumer_accept_list _ _ _ _) as [st7|e7]
    eqn:H7; cbn [bind].
  2: { intros [= <-]. left. by apply modify_consumer_accept_list_error in H7. }
  destruct (UpdateHelper.modify_remove_obsolete _ _ _) as [st8|e8] eqn:H8;
    cbn [bind]; [done|].
  intros [= <-]. right. by apply modify_remove_obsolete_error in H8.
Qed.

(** ** The GA track *)

Lemma before_accept_list_with_pruning_flag b args st :
  before_accept_list (with_pruning_flag b args) st
  = before_accept_list args st.
Proof. reflexivity. Qed.

Lemma modify_consumer_accept_list_with_pruning_flag int support b args st :
  UpdateHelper.modify_consumer_accept_list int support
    (with_pruning_flag b args) st
  = UpdateHelper.modify_consumer_accept_list int support args st.
Proof. reflexivity. Qed.

Lemma modify_remove_obsolete_unsupported args st :
  UpdateHelper.modify_remove_obsolete false args st = Ok st.
Proof. reflexivity. Qed.

(** X12.  On the GA track, which does not support endpoint based security, the
    pruning flag is never read: [Run] does the same whatever its value,
    and it cannot end in the conflicting-arguments error. *)
Theorem GA_track_never_reads_the_pruning_flag
    (int : string -> option Z) (args : Namespace)
    (old_resource : messages.ServiceAttachment) (b : bool) :
  Update.Run int (with_pruning_flag b args) old_resource
  = Update.Run int args old_resource
  /\ (forall msg,
         Update.Run int args old_resource
         <> Raise (ConflictingArgumentsException msg)).
Proof.
  unfold Update.Run, Update._support_endpoint_based_security_arg. split.
  - rewrite !Run_eq. unfold UpdateHelper._Modify_body. cbv zeta.
    fold (before_accept_list (with_pruning_flag b args)
            (UpdateHelper.enter old_resource [])).
    fold (before_accept_list args (UpdateHelper.enter old_resource [])).
    rewrite before_accept_list_with_pruning_flag,
      modify_consumer_accept_list_with_pruning_flag.
    destruct (UpdateHelper.modify_consumer_accept_list _ _ _ _) as [st7|];
      cbn [bind]; [|done].
    rewrite !modify_remove_obsolete_unsupported. cbn [bind]. reflexivity.
  - intros msg Hrun. rewrite Run_eq in Hrun.
    destruct (UpdateHelper._Modify_body _ _ _ _) as [st|e] eqn:Hbody;
      cbn [bind] in Hrun; [done|].
    injection Hrun as ->.
    apply _Modify_body_error in Hbody
      as [[_ [[? ?]|[[? ?]|?]]]|(_ & Hp & _)]; done.
Qed.

(** ** Keys that cannot be ordered *)

Lemma sorted_by_key_incomparable {A} (key : A -> limit_key) l x y :
  x ∈ l -> y ∈ l -> comparable (key x) (key y) = false ->
  sorted_by_key key l = Raise TypeError.
Proof.
  intros Hx Hy Hc. unfold sorted_by_key.
  destruct (all_comparable key l) eqn:Hall; [|done].
  unfold all_comparable in Hall. rewrite forallb_forall in Hall.
  apply list_elem_of_In in Hx, Hy. specialize (Hall x Hx).
  rewrite forallb_forall in Hall. specialize (Hall y Hy). congruence.
Qed.

Lemma _Modify_body_accept_list_raises int support args st0 e :
  UpdateHelper.modify_consumer_accept_list int support args
    (before_accept_list args st0) = Raise e ->
  UpdateHelper._Modify_body int support args st0 = Raise e.
Proof.
  intros H. unfold UpdateHelper._Modify_body. cbv zeta.
  fold (before_accept_list args st0). by rewrite H.
Qed.

(** X13.  An accept list that names the same endpoint once without a limit and
    once with one cannot be sorted: the keys [(url, None)] and [(url, n)]
    are compared on their second component, [sorted] raises [TypeError],
    and so does [Run], before any request is built. *)
Theorem same_endpoint_with_and_without_limit_raises_TypeError
    (int : string -> option Z) (args : Namespace)
    (old_resource : messages.ServiceAttachment)
    (new : list messages.ServiceAttachmentConsumerProjectLimit)
    (url : string) (n : Z) :
  service_attachments_utils.GetConsumerAcceptListWithEndpointBasedSecurity
    int args = Ok new ->
  endpoint_entry url None ∈ new ->
  endpoint_entry url (Some n) ∈ new ->
  UpdateBeta.Run int args old_resource = Raise TypeError.
Proof.
  intros Hnew H1 H2. unfold UpdateBeta.Run.
  apply Run_raise, _Modify_body_accept_list_raises.
  unfold UpdateHelper.modify_consumer_accept_list,
    UpdateHelper._GetConsumerAcceptList,
    UpdateBeta._support_endpoint_based_security_arg.
  destruct (consumer_accept_list args) as [dicts|] eqn:Hargs.
  - rewrite Hnew. cbn [bind].
    rewrite (sorted_by_key_incomparable _ new _ _ H1 H2); [done|].
    unfold comparable. cbn.
    rewrite decide_True by done. by rewrite decide_False.
  - unfold
      service_attachments_utils.GetConsumerAcceptListWithEndpointBasedSecurity
      in Hnew. by rewrite Hargs in Hnew.
Qed.

Lemma same_endpoint_with_and_without_limit_raises_TypeError_witness :
  UpdateBeta.Run int_decimal args_endpoint_twice attachment_1
  = Raise TypeError.
Proof.
  apply (same_endpoint_with_and_without_limit_raises_TypeError int_decimal
           args_endpoint_twice attachment_1
           [endpoint_entry "projects/c/regions/r/forwardingRules/e1" None;
            endpoint_entry "projects/c/regions/r/forwardingRules/e1" (Some 5)]
           "projects/c/regions/r/forwardingRules/e1" 5).
  - vm_compute. reflexivity.
  - left.
  - right. left.
Defined.

(** ** The overrides in the request *)

Lemma sorted_by_key_same_perm {A} (key : A -> limit_key) l1 l2 sl :
  sorted_by_key key l1 = Ok sl -> sorted_by_key key l2 = Ok sl -> l1 ≡ₚ l2.
Proof.
  intros H1%sorted_by_key_perm H2%sorted_by_key_perm. by rewrite <- H1, H2.
Qed.

(** X14.  A Patch request carries every override that was given: target,
    description, connection preference, proxy protocol, reconcile
    connections and propagated connection limit hold the given values, and
    the NAT subnets, the reject list and the accept list hold the given
    entries (for the accept list, as normalized), in some order. *)
Theorem patch_request_holds_every_override
    (int : string -> option Z) (support : bool) (args : Namespace)
    (old_resource replacement : messages.ServiceAttachment)
    (cleared_fields : list string) :
  UpdateHelper.Run int support args old_resource
  = Ok (UpdateHelper.PatchRequest replacement cleared_fields) ->
  (forall target, args.(target_service) = Some target ->
                  replacement.(messages.targetService) = Some target)
  /\ (forall d, args.(description) = Some d ->
                replacement.(messages.description) = Some d)
  /\ (forall token, args.(connection_preference) = Some token ->
        replacement.(messages.connectionPreference)
        = service_attachments_utils.GetConnectionPreference args)
  /\ (forall b, args.(enable_proxy_protocol) = Some b ->
                replacement.(messages.enableProxyProtocol) = Some b)
  /\ (forall l, args.(nat_subnets) = Some l ->
        exists l', replacement.(messages.natSubnets) = Some l' /\ l' ≡ₚ l)
  /\ (forall l, args.(consumer_reject_list) = Some l ->
        exists l',
          replacement.(messages.consumerRejectLists) = Some l' /\ l' ≡ₚ l)
  /\ (forall dicts, args.(consumer_accept_list) = Some dicts ->
        exists new l',
          UpdateHelper._GetConsumerAcceptList int support args = Ok new
          /\ replacement.(messages.consumerAcceptLists) = Some l'
          /\ l' ≡ₚ new)
  /\ (forall b, args.(reconcile_connections) = Some b ->
                replacement.(messages.reconcileConnections) = Some b)
  /\ (forall n, args.(propagated_connection_limit) = Some n ->
                replacement.(messages.propagatedConnectionLimit) = Some n).
Proof.
  intros (st & Hbody & _ & <- & _)%Run_patch_inv.
  destruct (_Modify_body_overrides _ _ _ _ _ _ Hbody)
    as (H1 & H2 & H3 & H4 & H5 & H6 & H7 & H8 & H9).
  repeat apply conj; try assumption.
  - intros l Harg. destruct (H5 l Harg) as (l' & Hl' & Hs).
    exists l'. split; [done|]. symmetry. by apply sorted_str_eq_perm.
  - intros l Harg. destruct (H6 l Harg) as (l' & Hl' & Hs).
    exists l'. split; [done|]. symmetry. by apply sorted_str_eq_perm.
  - intros dicts Harg.
    destruct (H7 dicts Harg) as (new & sn & l' & Hnew & Hsn & Hl' & Hsl').
    exists new, l'. repeat split; try done.
    by apply (sorted_by_key_same_perm _ _ _ _ Hsl' Hsn).
Qed.

Lemma patch_request_holds_every_override_witness :
  exists l',
    messages.consumerRejectLists
      (assign.consumerRejectLists (Some ["c"; "d"]) attachment_1) = Some l'
    /\ l' ≡ₚ ["d"; "c"].
Proof.
  destruct (patch_request_holds_every_override int_decimal true
              (args_reject ["d"; "c"] false) attachment_1
              (assign.consumerRejectLists (Some ["c"; "d"]) attachment_1) [])
    as (_ & _ & _ & _ & _ & Hreject & _).
  - vm_compute. reflexivity.
  - apply Hreject. reflexivity.
Defined.

(** ** A Patch request is sent only for a real change *)

Lemma sorted_by_key_idem int support args new sorted_new :
  UpdateHelper._GetConsumerAcceptList int support args = Ok new ->
  sorted_by_key
    (UpdateHelper._GetProjectOrNetworkOrEndpointBasedOnArg support) new
  = Ok sorted_new ->
  sorted_by_key
    (UpdateHelper._GetProjectOrNetworkOrEndpointBasedOnArg support) sorted_new
  = Ok sorted_new.
Proof.
  intros Hnew Hsn. rewrite <- Hsn. symmetry.
  apply (new_accept_list_order_free int support args); [done|].
  symmetry. by apply sorted_by_key_perm in Hsn.
Qed.

Local Ltac compared_step :=
  match goal with
  | |- context [negb (bool_decide ?P)] =>
      destruct (bool_decide_reflect P) as [Heq|Hne]; cbn [negb];
      [by left|right; repeat split; try done; cbn; congruence]
  end.

Lemma modify_description_compares args st :
  skips_or_differs F_description st (UpdateHelper.modify_description args st).
Proof.
  unfold UpdateHelper.modify_description.
  destruct (description args); [|by left]. compared_step.
Qed.

Lemma modify_connection_preference_compares args st :
  skips_or_differs F_connectionPreference st
    (UpdateHelper.modify_connection_preference args st).
Proof.
  unfold UpdateHelper.modify_connection_preference.
  destruct (connection_preference args); [|by left]. compared_step.
Qed.

Lemma modify_enable_proxy_protocol_compares args st :
  skips_or_differs F_enableProxyProtocol st
    (UpdateHelper.modify_enable_proxy_protocol args st).
Proof.
  unfold UpdateHelper.modify_enable_proxy_protocol.
  destruct (enable_proxy_protocol args); [|by left]. compared_step.
Qed.

Lemma modify_reconcile_connections_compares args st :
  skips_or_differs F_reconcileConnections st
    (UpdateHelper.modify_reconcile_connections args st).
Proof.
  unfold UpdateHelper.modify_reconcile_connections.
  destruct (reconcile_connections args); [|by left]. compared_step.
Qed.

Lemma modify_propagated_connection_limit_compares args st :
  skips_or_differs F_propagatedConnectionLimit st
    (UpdateHelper.modify_propagated_connection_limit args st).
Proof.
  unfold UpdateHelper.modify_propagated_connection_limit.
  destruct (propagated_connection_limit args); [|by left]. compared_step.
Qed.

Lemma modify_nat_subnets_compares args st :
  skips_or_differs F_natSubnets st (UpdateHelper.modify_nat_subnets args st).
Proof.
  unfold UpdateHelper.modify_nat_subnets.
  destruct (nat_subnets args) as [l|] eqn:Harg; [|by left].
  unfold UpdateHelper._GetNatSubnets. rewrite Harg.
  destruct (messages.natSubnets (UpdateHelper.old_resource st))
    as [old_list|] eqn:Hold.
  - destruct (bool_decide_reflect (sorted_str l = sorted_str old_list))
      as [Heq|Hne]; cbn [negb]; [by left|].
    right. repeat split; try done. cbn. rewrite Hold. intros [= Hs].
    apply Hne. by rewrite <- Hs, sorted_str_idem.
  - right. repeat split; try done. cbn. by rewrite Hold.
Qed.

Lemma modify_consumer_reject_list_compares args st :
  skips_or_differs F_consumerRejectLists st
    (UpdateHelper.modify_consumer_reject_list args st).
Proof.
  unfold UpdateHelper.modify_consumer_reject_list.
  destruct (consumer_reject_list args) as [l|] eqn:Harg; [|by left].
  destruct (messages.consumerRejectLists (UpdateHelper.old_resource st))
    as [old_list|] eqn:Hold.
  - destruct (bool_decide_reflect (sorted_str l = sorted_str old_list))
      as [Heq|Hne]; cbn [negb]; [by left|].
    right. destruct (bool_decide (sorted_str l = []));
      (repeat split; try done; cbn; rewrite Hold; intros [= Hs];
       apply Hne; by rewrite <- Hs, sorted_str_idem).
  - right. destruct (bool_decide (sorted_str l = []));
      (repeat split; try done; cbn; by rewrite Hold).
Qed.

Lemma modify_consumer_accept_list_compares int support args st st' :
  UpdateHelper.modify_consumer_accept_list int support args st = Ok st' ->
  skips_or_differs F_consumerAcceptLists st st'.
Proof.
  unfold UpdateHelper.modify_consumer_accept_list.
  destruct (consumer_accept_list args) as [dicts|] eqn:Harg;
    [|intros [= <-]; by left].
  destruct (UpdateHelper._GetConsumerAcceptList int support args)
    as [new|] eqn:Hnew; [|done]. cbn [bind].
  destruct (sorted_by_key _ new) as [sn|] eqn:Hsn; [|done]. cbn [bind].
  pose proof (sorted_by_key_idem _ _ _ _ _ Hnew Hsn) as Hidem.
  destruct (messages.consumerAcceptLists (UpdateHelper.old_resource st))
    as [old_list|] eqn:Hold.
  - destruct (sorted_by_key _ old_list) as [so|] eqn:Hso; [|done].
    cbn [bind].
    destruct (bool_decide_reflect (sn = so)) as [Heq|Hne]; cbn [negb].
    { intros [= <-]. by left. }
    intros H. right.
    assert (Hdiff : Some sn <> Some old_list).
    { intros [= <-]. apply Hne. congruence. }
    destruct (bool_decide (sn = [])); injection H as <-;
      (repeat split; try done; cbn; by rewrite Hold).
  - cbn [bind]. intros H. right.
    destruct (bool_decide (sn = [])); injection H as <-;
      (repeat split; try done; cbn; by rewrite Hold).
Qed.

Lemma skips_or_differs_old_resource f st st' :
  skips_or_differs f st st' ->
  st'.(UpdateHelper.old_resource) = st.(UpdateHelper.old_resource).
Proof. by intros [->|[? _]]. Qed.

Lemma update_recorded_step f st st' :
  f <> F_targetService ->
  skips_or_differs f st st' -> update_recorded st -> update_recorded st'.
Proof.
  intros Hf [->|(Hold & _ & Hdiff)] Hinv; [done|].
  intros _. exists f. split; [done|]. by rewrite Hold.
Qed.

Lemma GetConnectedEndpointIds_same_endpoints sa sa' :
  sa'.(messages.connectedEndpoints) = sa.(messages.connectedEndpoints) ->
  service_attachments_utils.GetConnectedEndpointIds sa'
  = service_attachments_utils.GetConnectedEndpointIds sa.
Proof.
  intros H. unfold service_attachments_utils.GetConnectedEndpointIds.
  by rewrite H.
Qed.

(** The pruning block: either it did not run, or no list override was
    given and the store is the one the pruning pass leaves. *)
Lemma modify_remove_obsolete_cases support args st st' :
  UpdateHelper.modify_remove_obsolete support args st = Ok st' ->
  (pruning_requested support args = false /\ st' = st)
  \/ (pruning_requested support args = true
      /\ args.(consumer_accept_list) = None
      /\ args.(consumer_reject_list) = None
      /\ exists updated sa' cf',
           UpdateHelper._RemoveObsoleteEndpointEntries
             st.(UpdateHelper.replacement) st.(UpdateHelper.cleared_fields)
           = (updated, sa', cf')
           /\ st' = UpdateHelper.set_is_updated updated
                      (UpdateHelper.set_cleared_fields cf'
                         (UpdateHelper.set_replacement sa' st))).
Proof.
  unfold UpdateHelper.modify_remove_obsolete, pruning_requested.
  destruct (support && _); [|intros [= <-]; by left].
  destruct (consumer_accept_list args) as [?|].
  { rewrite bool_decide_true by by eexists. done. }
  destruct (consumer_reject_list args) as [?|].
  { rewrite (bool_decide_true (is_Some (Some _))) by by eexists.
    rewrite orb_true_r. done. }
  rewrite bool_decide_false by (intros [? ?]; discriminate). cbn [orb].
  destruct (UpdateHelper._RemoveObsoleteEndpointEntries _ _)
    as [[updated sa'] cf'] eqn:Hrun.
  intros [= <-]. right. repeat split; try done. by exists updated, sa', cf'.
Qed.

Lemma _RemoveObsoleteEndpointEntries_same_lists sa cf updated sa' cf' :
  UpdateHelper._RemoveObsoleteEndpointEntries sa cf = (updated, sa', cf') ->
  sa'.(messages.consumerAcceptLists) = sa.(messages.consumerAcceptLists) ->
  sa'.(messages.consumerRejectLists) = sa.(messages.consumerRejectLists) ->
  updated = false.
Proof.
  intros Hrun Ha Hr.
  destruct (_RemoveObsoleteEndpointEntries_lists _ _ _ _ _ Hrun)
    as (_ & _ & _ & ->).
  unfold accept_entries, reject_entries. rewrite Ha, Hr.
  by rewrite !bool_decide_true.
Qed.

Lemma lists_before_pruning int support args st0 st7 :
  args.(consumer_accept_list) = None ->
  args.(consumer_reject_list) = None ->
  UpdateHelper.modify_consumer_accept_list int support args
    (before_accept_list args st0) = Ok st7 ->
  st7.(UpdateHelper.cleared_fields) = st0.(UpdateHelper.cleared_fields)
  /\ same_field F_consumerAcceptLists st0.(UpdateHelper.replacement)
       st7.(UpdateHelper.replacement)
  /\ same_field F_consumerRejectLists st0.(UpdateHelper.replacement)
       st7.(UpdateHelper.replacement).
Proof.
  intros Hacc Hrej. unfold UpdateHelper.modify_consumer_accept_list.
  rewrite Hacc. intros [= <-].
  unfold before_accept_list, UpdateHelper.modify_consumer_reject_list.
  rewrite Hrej.
  unfold UpdateHelper.modify_nat_subnets,
    UpdateHelper.modify_enable_proxy_protocol,
    UpdateHelper.modify_connection_preference,
    UpdateHelper.modify_description, UpdateHelper.modify_target_service.
  repeat match goal with
         | |- context [match ?x with Some _ => _ | None => _ end] =>
             destruct x
         | |- context [if ?b then _ else _] => destruct b
         end; by repeat split.
Qed.

Lemma _Modify_body_update_recorded int support args S cf st :
  args.(target_service) = None ->
  UpdateHelper._Modify_body int support args (UpdateHelper.enter S cf) = Ok st ->
  st.(UpdateHelper.old_resource) = S /\ update_recorded st.
Proof.
  intros Htarget Hbody.
  destruct (_Modify_body_stores _ _ _ _ _ _ Hbody)
    as (st7 & st8 & H7 & H8 & -> & W7 & W8 & Ho7 & Ho8).
  assert (Hinv7 : update_recorded st7).
  { eapply update_recorded_step;
      [|by apply (modify_consumer_accept_list_compares _ _ _ _ _ H7)|];
      [done|].
    unfold before_accept_list.
    eapply update_recorded_step;
      [|apply modify_consumer_reject_list_compares|]; [done|].
    eapply update_recorded_step; [|apply modify_nat_subnets_compares|];
      [done|].
    eapply update_recorded_step;
      [|apply modify_enable_proxy_protocol_compares|]; [done|].
    eapply update_recorded_step;
      [|apply modify_connection_preference_compares|]; [done|].
    eapply update_recorded_step; [|apply modify_description_compares|];
      [done|].
    unfold UpdateHelper.modify_target_service. rewrite Htarget.
    intros Hu. discriminate Hu. }
  assert (Hinv8 : update_recorded st8).
  { destruct (modify_remove_obsolete_cases _ _ _ _ H8)
      as [[_ ->]|(_ & Hacc & Hrej & updated & sa' & cf' & Hrun & ->)];
      [done|].
    destruct (lists_before_pruning _ _ _ _ _ Hacc Hrej H7)
      as (_ & Ha7 & Hr7).
    cbn in Ha7, Hr7.
    intros Hu. cbn in Hu. subst updated. cbn. rewrite Ho7.
    destruct (decide (messages.consumerAcceptLists sa'
                      = messages.consumerAcceptLists S)) as [Ha|Ha].
    - exists F_consumerRejectLists. split; [done|]. cbn. intros Hr.
      assert (true = false) as Habs; [|discriminate Habs].
      apply (_RemoveObsoleteEndpointEntries_same_lists _ _ _ _ _ Hrun);
        congruence.
    - by exists F_consumerAcceptLists. }
  split.
  - rewrite (skips_or_differs_old_resource _ _ _
               (modify_propagated_connection_limit_compares args _)).
    by rewrite (skips_or_differs_old_resource _ _ _
                  (modify_reconcile_connections_compares args _)).
  - eapply update_recorded_step;
      [|apply modify_propagated_connection_limit_compares|]; [done|].
    eapply update_recorded_step;
      [|apply modify_reconcile_connections_compares|]; done.
Qed.

(** X15.  Without a target override, a Patch request is sent only for a real
    change: the replacement sent differs from the fetched resource in a
    field other than the target. *)
Theorem patch_request_differs_from_fetched_resource
    (int : string -> option Z) (support : bool) (args : Namespace)
    (old_resource replacement : messages.ServiceAttachment)
    (cleared_fields : list string) :
  args.(target_service) = None ->
  UpdateHelper.Run int support args old_resource
  = Ok (UpdateHelper.PatchRequest replacement cleared_fields) ->
  replacement <> old_resource
  /\ replacement.(messages.targetService)
     = old_resource.(messages.targetService).
Proof.
  intros Htarget (st & Hbody & Hu & <- & _)%Run_patch_inv.
  destruct (_Modify_body_update_recorded _ _ _ _ _ _ Htarget Hbody)
    as [Hold Hinv].
  split.
  - destruct (Hinv Hu) as (f & _ & Hdiff). intros Heq. apply Hdiff.
    rewrite Hold, Heq. apply same_field_refl.
  - apply _Modify_body_frame in Hbody as (_ & Hfields & _).
    by apply Hfields.
Qed.

Lemma patch_request_differs_from_fetched_resource_witness :
  assign.description (Some "new") attachment_1 <> attachment_1
  /\ messages.targetService (assign.description (Some "new") attachment_1)
     = messages.targetService attachment_1.
Proof.
  apply (patch_request_differs_from_fetched_resource int_decimal false
           args_description attachment_1
           (assign.description (Some "new") attachment_1) []).
  - reflexivity.
  - vm_compute. reflexivity.
Defined.

(** ** The same update, applied again *)

Lemma modify_description_same args st :
  (forall d, args.(description) = Some d ->
     st.(UpdateHelper.old_resource).(messages.description) = Some d) ->
  UpdateHelper.modify_description args st = st.
Proof.
  intros H. unfold UpdateHelper.modify_description.
  destruct (description args) as [d|]; [|done].
  by rewrite (H d eq_refl), bool_decide_true.
Qed.

Lemma modify_connection_preference_same args st :
  (forall token, args.(connection_preference) = Some token ->
     st.(UpdateHelper.old_resource).(messages.connectionPreference)
     = service_attachments_utils.GetConnectionPreference args) ->
  UpdateHelper.modify_connection_preference args st = st.
Proof.
  intros H. unfold UpdateHelper.modify_connection_preference.
  destruct (connection_preference args) as [token|] eqn:Harg; [|done].
  by rewrite (H token eq_refl), bool_decide_true.
Qed.

Lemma modify_enable_proxy_protocol_same args st :
  (forall b, args.(enable_proxy_protocol) = Some b ->
     st.(UpdateHelper.old_resource).(messages.enableProxyProtocol) = Some b) ->
  UpdateHelper.modify_enable_proxy_protocol args st = st.
Proof.
  intros H. unfold UpdateHelper.modify_enable_proxy_protocol.
  destruct (enable_proxy_protocol args) as [b|]; [|done].
  by rewrite (H b eq_refl), bool_decide_true.
Qed.

Lemma modify_reconcile_connections_same args st :
  (forall b, args.(reconcile_connections) = Some b ->
     st.(UpdateHelper.old_resource).(messages.reconcileConnections) = Some b) ->
  UpdateHelper.modify_reconcile_connections args st = st.
Proof.
  intros H. unfold UpdateHelper.modify_reconcile_connections.
  destruct (reconcile_connections args) as [b|]; [|done].
  by rewrite (H b eq_refl), bool_decide_true.
Qed.

Lemma modify_propagated_connection_limit_same args st :
  (forall n, args.(propagated_connection_limit) = Some n ->
     st.(UpdateHelper.old_resource).(messages.propagatedConnectionLimit)
     = Some n) ->
  UpdateHelper.modify_propagated_connection_limit args st = st.
Proof.
  intros H. unfold UpdateHelper.modify_propagated_connection_limit.
  destruct (propagated_connection_limit args) as [n|]; [|done].
  by rewrite (H n eq_refl), bool_decide_true.
Qed.

Lemma modify_nat_subnets_same args st :
  (forall l, args.(nat_subnets) = Some l ->
     exists l',
       st.(UpdateHelper.old_resource).(messages.natSubnets) = Some l'
       /\ sorted_str l = sorted_str l') ->
  UpdateHelper.modify_nat_subnets args st = st.
Proof.
  intros H. unfold UpdateHelper.modify_nat_subnets.
  destruct (nat_subnets args) as [l|] eqn:Harg; [|done].
  destruct (H l eq_refl) as (l' & -> & Hs).
  unfold UpdateHelper._GetNatSubnets. rewrite Harg.
  by rewrite bool_decide_true.
Qed.

Lemma modify_consumer_reject_list_same args st :
  (forall l, args.(consumer_reject_list) = Some l ->
     exists l',
       st.(UpdateHelper.old_resource).(messages.consumerRejectLists) = Some l'
       /\ sorted_str l = sorted_str l') ->
  UpdateHelper.modify_consumer_reject_list args st = st.
Proof.
  intros H. unfold UpdateHelper.modify_consumer_reject_list.
  destruct (consumer_reject_list args) as [l|] eqn:Harg; [|done].
  destruct (H l eq_refl) as (l' & -> & Hs).
  by rewrite bool_decide_true.
Qed.

Lemma modify_consumer_accept_list_same int support args st :
  (forall dicts, args.(consumer_accept_list) = Some dicts ->
     exists new sorted_new l',
       UpdateHelper._GetConsumerAcceptList int support args = Ok new
       /\ sorted_by_key
            (UpdateHelper._GetProjectOrNetworkOrEndpointBasedOnArg support)
            new = Ok sorted_new
       /\ st.(UpdateHelper.old_resource).(messages.consumerAcceptLists)
          = Some l'
       /\ sorted_by_key
            (UpdateHelper._GetProjectOrNetworkOrEndpointBasedOnArg support)
            l' = Ok sorted_new) ->
  UpdateHelper.modify_consumer_accept_list int support args st = Ok st.
Proof.
  intros H. unfold UpdateHelper.modify_consumer_accept_list.
  destruct (consumer_accept_list args) as [dicts|] eqn:Harg; [|done].
  destruct (H dicts eq_refl) as (new & sn & l' & -> & Hsn & -> & Hsl').
  cbn [bind]. rewrite Hsn. cbn [bind]. rewrite Hsl'. cbn [bind].
  by rewrite bool_decide_true.
Qed.

(** A replacement that has gone through the pruning block has nothing
    left to prune. *)
Lemma pruned_replacement_has_nothing_obsolete support args st7 st8 rep :
  UpdateHelper.modify_remove_obsolete support args st7 = Ok st8 ->
  pruning_requested support args = true ->
  same_field F_consumerAcceptLists st8.(UpdateHelper.replacement) rep ->
  same_field F_consumerRejectLists st8.(UpdateHelper.replacement) rep ->
  same_field F_connectedEndpoints st8.(UpdateHelper.replacement) rep ->
  nothing_obsolete rep.
Proof.
  intros H8 Hp Ha Hr He.
  destruct (modify_remove_obsolete_cases _ _ _ _ H8)
    as [[Hp' _]|(_ & _ & _ & updated & sa' & cf' & Hrun & ->)];
    [congruence|].
  cbn in Ha, Hr, He.
  destruct (_RemoveObsoleteEndpointEntries_lists _ _ _ _ _ Hrun)
    as (Hla & Hlr & Hids & _).
  unfold nothing_obsolete. cbv zeta.
  rewrite (GetConnectedEndpointIds_same_endpoints _ _ He), Hids.
  unfold accept_entries, reject_entries in *. rewrite Ha, Hr, Hla, Hlr.
  split; intros e [_ He']%elem_of_filter_bool.
  - by apply keep_accepted_spec.
  - by apply keep_rejected_spec.
Qed.

Lemma modify_remove_obsolete_nothing_obsolete support args rep :
  args.(consumer_accept_list) = None ->
  args.(consumer_reject_list) = None ->
  nothing_obsolete rep ->
  UpdateHelper.modify_remove_obsolete support args (UpdateHelper.enter rep [])
  = Ok (UpdateHelper.enter rep []).
Proof.
  intros Hacc Hrej Hclean. unfold UpdateHelper.modify_remove_obsolete.
  destruct (support && _); [|done].
  rewrite Hacc, Hrej.
  rewrite bool_decide_false by (intros [? ?]; discriminate). cbn [orb].
  cbn [UpdateHelper.enter UpdateHelper.replacement
       UpdateHelper.cleared_fields].
  destruct (UpdateHelper._RemoveObsoleteEndpointEntries rep [])
    as [[updated sa'] cf'] eqn:Hrun.
  destruct (_RemoveObsoleteEndpointEntries_flag _ _ _ _ _ Hrun)
    as [Hiff Hsame].
  apply Hiff in Hclean. destruct (Hsame Hclean) as [-> ->]. by subst updated.
Qed.

(** X16.  Run again with the same arguments on the resource it has just sent,
    an update without a target override finds nothing to change: it
    sends nothing and returns that resource. *)
Theorem update_applied_again_sends_nothing
    (int : string -> option Z) (support : bool) (args : Namespace)
    (old_resource replacement : messages.ServiceAttachment)
    (cleared_fields : list string) :
  args.(target_service) = None ->
  UpdateHelper.Run int support args old_resource
  = Ok (UpdateHelper.PatchRequest replacement cleared_fields) ->
  UpdateHelper.Run int support args replacement
  = Ok (UpdateHelper.ReturnOldResource replacement).
Proof.
  intros Htarget (st & Hbody & _ & <- & _)%Run_patch_inv.
  destruct (_Modify_body_overrides _ _ _ _ _ _ Hbody)
    as (_ & H2 & H3 & H4 & H5 & H6 & H7 & H8 & H9).
  cbv zeta in H2, H3, H4, H5, H6, H7, H8, H9.
  destruct (_Modify_body_stores _ _ _ _ _ _ Hbody)
    as (st7 & st8 & Hs7 & Hs8 & Hst & _ & _ & _ & _).
  set (rep := UpdateHelper.replacement st) in *.
  assert (Hpruned : pruning_requested support args = true ->
                    args.(consumer_accept_list) = None
                    /\ args.(consumer_reject_list) = None
                    /\ nothing_obsolete rep).
  { intros Hp.
    destruct (modify_remove_obsolete_cases _ _ _ _ Hs8)
      as [[Hp' _]|(_ & Hacc & Hrej & _)]; [congruence|].
    split; [done|]. split; [done|].
    apply (pruned_replacement_has_nothing_obsolete _ _ _ _ _ Hs8 Hp);
      unfold rep; rewrite Hst; carry_field. }
  rewrite Run_eq. unfold UpdateHelper._Modify_body. cbv zeta.
  unfold UpdateHelper.modify_target_service at 1. rewrite Htarget.
  rewrite modify_description_same by exact H2.
  rewrite modify_connection_preference_same by exact H3.
  rewrite modify_enable_proxy_protocol_same by exact H4.
  rewrite modify_nat_subnets_same by exact H5.
  rewrite modify_consumer_reject_list_same by exact H6.
  rewrite modify_consumer_accept_list_same by exact H7. cbn [bind].
  assert (H8' : UpdateHelper.modify_remove_obsolete support args
                  (UpdateHelper.enter rep [])
                = Ok (UpdateHelper.enter rep [])).
  { destruct (pruning_requested support args) eqn:Hp.
    - destruct (Hpruned eq_refl) as (Hacc & Hrej & Hclean).
      by apply modify_remove_obsolete_nothing_obsolete.
    - unfold UpdateHelper.modify_remove_obsolete.
      unfold pruning_requested in Hp. by rewrite Hp. }
  rewrite H8'. cbn [bind].
  rewrite modify_reconcile_connections_same by exact H8.
  rewrite modify_propagated_connection_limit_same by exact H9.
  reflexivity.
Qed.

Lemma update_applied_again_sends_nothing_witness :
  UpdateHelper.Run int_decimal false args_description
    (assign.description (Some "new") attachment_1)
  = Ok (UpdateHelper.ReturnOldResource
          (assign.description (Some "new") attachment_1)).
Proof.
  apply (update_applied_again_sends_nothing int_decimal false
           args_description attachment_1
           (assign.description (Some "new") attachment_1) []).
  - reflexivity.
  - vm_compute. reflexivity.
Defined.

(** ** [cleared_fields] *)

Local Ltac keeps_cleared_fields :=
  repeat match goal with
         | |- context [match ?x with Some _ => _ | None => _ end] =>
             destruct x
         | |- context [if ?b then _ else _] => destruct b
         end; reflexivity.

Lemma before_reject_list_cleared_fields args st :
  (UpdateHelper.modify_nat_subnets args
     (UpdateHelper.modify_enable_proxy_protocol args
        (UpdateHelper.modify_connection_preference args
           (UpdateHelper.modify_description args
              (UpdateHelper.modify_target_service args st)))))
    .(UpdateHelper.cleared_fields)
  = st.(UpdateHelper.cleared_fields).
Proof.
  unfold UpdateHelper.modify_nat_subnets,
    UpdateHelper.modify_enable_proxy_protocol,
    UpdateHelper.modify_connection_preference,
    UpdateHelper.modify_description, UpdateHelper.modify_target_service.
  keeps_cleared_fields.
Qed.

Lemma after_pruning_cleared_fields args st :
  (UpdateHelper.modify_propagated_connection_limit args
     (UpdateHelper.modify_reconcile_connections args st))
    .(UpdateHelper.cleared_fields)
  = st.(UpdateHelper.cleared_fields).
Proof.
  unfold UpdateHelper.modify_propagated_connection_limit,
    UpdateHelper.modify_reconcile_connections.
  keeps_cleared_fields.
Qed.

(** Statements that write neither list nor [cleared_fields] keep the
    invariant. *)
Lemma cleared_fields_exact_kept S st st' :
  st'.(UpdateHelper.cleared_fields) = st.(UpdateHelper.cleared_fields) ->
  same_field F_consumerAcceptLists st.(UpdateHelper.replacement)
    st'.(UpdateHelper.replacement) ->
  same_field F_consumerRejectLists st.(UpdateHelper.replacement)
    st'.(UpdateHelper.replacement) ->
  cleared_fields_exact S st -> cleared_fields_exact S st'.
Proof.
  unfold cleared_fields_exact. cbn [same_field]. cbv zeta.
  by intros -> -> ->.
Qed.

Local Ltac store_simpl :=
  cbn [UpdateHelper.replacement UpdateHelper.cleared_fields
       UpdateHelper.old_resource UpdateHelper.is_updated
       UpdateHelper.set_cleared_fields UpdateHelper.set_is_updated
       UpdateHelper.set_replacement
       messages.consumerAcceptLists messages.consumerRejectLists
       assign.consumerRejectLists assign.consumerAcceptLists].

Lemma names_differ : consumerAcceptLists_name <> consumerRejectLists_name.
Proof. discriminate. Qed.

Lemma list_append_NoDup (cf : list string) name :
  NoDup cf -> name ∉ cf -> NoDup (list_append cf name).
Proof.
  intros Hnd Hin. unfold list_append. apply NoDup_app. repeat split; auto.
  - intros x Hx Hx'. apply list_elem_of_singleton in Hx' as ->. done.
  - apply NoDup_singleton.
Qed.

Lemma elem_of_list_append (cf : list string) name x :
  x ∈ list_append cf name <-> x ∈ cf \/ x = name.
Proof.
  unfold list_append. by rewrite elem_of_app, list_elem_of_singleton.
Qed.

(** A list override that has replaced the reject list. *)
Lemma reject_list_written_cleared_fields_exact S st sl :
  Some sl <> S.(messages.consumerRejectLists) ->
  st.(UpdateHelper.replacement).(messages.consumerRejectLists)
  = S.(messages.consumerRejectLists) ->
  cleared_fields_exact S st ->
  cleared_fields_exact S
    (let st1 :=
       UpdateHelper.set_is_updated true
         (UpdateHelper.set_replacement
            (assign.consumerRejectLists (Some sl)
               st.(UpdateHelper.replacement)) st) in
     if bool_decide (sl = []) then
       UpdateHelper.set_cleared_fields
         (list_append st1.(UpdateHelper.cleared_fields)
            consumerRejectLists_name) st1
     else st1).
Proof.
  intros Hdiff Hsame (Hnd & Hnames & HA & HR). cbv zeta.
  assert (Hout : consumerRejectLists_name ∉ UpdateHelper.cleared_fields st).
  { rewrite HR, Hsame. tauto. }
  destruct (bool_decide_reflect (sl = [])) as [->|Hne];
    unfold cleared_fields_exact; store_simpl; cbv zeta.
  - split; [by apply list_append_NoDup|].
    split; [|split].
    + intros name [Hin| ->]%elem_of_list_append; auto.
    + rewrite elem_of_list_append, HA. pose proof names_differ. tauto.
    + rewrite elem_of_list_append. split; [|auto]. intros _. split; [done|].
      congruence.
  - split; [done|]. split; [done|]. split; [done|].
    split; [done|]. intros [[= ->] _]. done.
Qed.

(** A list override that has replaced the accept list. *)
Lemma accept_list_written_cleared_fields_exact S st sl :
  Some sl <> S.(messages.consumerAcceptLists) ->
  st.(UpdateHelper.replacement).(messages.consumerAcceptLists)
  = S.(messages.consumerAcceptLists) ->
  cleared_fields_exact S st ->
  cleared_fields_exact S
    (let st1 :=
       UpdateHelper.set_is_updated true
         (UpdateHelper.set_replacement
            (assign.consumerAcceptLists (Some sl)
               st.(UpdateHelper.replacement)) st) in
     if bool_decide (sl = []) then
       UpdateHelper.set_cleared_fields
         (list_append st1.(UpdateHelper.cleared_fields)
            consumerAcceptLists_name) st1
     else st1).
Proof.
  intros Hdiff Hsame (Hnd & Hnames & HA & HR). cbv zeta.
  assert (Hout : consumerAcceptLists_name ∉ UpdateHelper.cleared_fields st).
  { rewrite HA, Hsame. tauto. }
  destruct (bool_decide_reflect (sl = [])) as [->|Hne];
    unfold cleared_fields_exact; store_simpl; cbv zeta.
  - split; [by apply list_append_NoDup|].
    split; [|split].
    + intros name [Hin| ->]%elem_of_list_append; auto.
    + rewrite elem_of_list_append. split; [|auto]. intros _. split; [done|].
      congruence.
    + rewrite elem_of_list_append, HR. pose proof names_differ.
      split; [|tauto]. intros [?|?]; [tauto|congruence].
  - split; [done|]. split; [done|]. split; [|done].
    split; [done|]. intros [[= ->] _]. done.
Qed.

Lemma modify_consumer_reject_list_cleared_fields_exact S args st :
  st.(UpdateHelper.old_resource) = S ->
  st.(UpdateHelper.replacement).(messages.consumerRejectLists)
  = S.(messages.consumerRejectLists) ->
  cleared_fields_exact S st ->
  cleared_fields_exact S (UpdateHelper.modify_consumer_reject_list args st).
Proof.
  intros Hold Hsame Hinv. unfold UpdateHelper.modify_consumer_reject_list.
  destruct (consumer_reject_list args) as [l|]; [|done]. rewrite Hold.
  destruct (messages.consumerRejectLists S) as [old_list|] eqn:HS.
  - destruct (bool_decide_reflect (sorted_str l = sorted_str old_list))
      as [Heq|Hne]; cbn [negb]; [done|].
    apply (reject_list_written_cleared_fields_exact S st (sorted_str l));
      try done.
    + rewrite HS. intros [= Hs]. apply Hne.
      by rewrite <- Hs, sorted_str_idem.
    + by rewrite HS.
  - apply (reject_list_written_cleared_fields_exact S st (sorted_str l));
      try done; by rewrite HS.
Qed.

Lemma modify_consumer_accept_list_cleared_fields_exact
    S int support args st st' :
  st.(UpdateHelper.old_resource) = S ->
  st.(UpdateHelper.replacement).(messages.consumerAcceptLists)
  = S.(messages.consumerAcceptLists) ->
  UpdateHelper.modify_consumer_accept_list int support args st = Ok st' ->
  cleared_fields_exact S st -> cleared_fields_exact S st'.
Proof.
  intros Hold Hsame H Hinv. revert H.
  unfold UpdateHelper.modify_consumer_accept_list.
  destruct (consumer_accept_list args) as [dicts|]; [|by intros [= <-]].
  destruct (UpdateHelper._GetConsumerAcceptList int support args)
    as [new|] eqn:Hnew; [|done]. cbn [bind].
  destruct (sorted_by_key _ new) as [sn|] eqn:Hsn; [|done]. cbn [bind].
  pose proof (sorted_by_key_idem _ _ _ _ _ Hnew Hsn) as Hidem.
  rewrite Hold.
  destruct (messages.consumerAcceptLists S) as [old_list|] eqn:HS.
  - destruct (sorted_by_key _ old_list) as [so|] eqn:Hso; [|done].
    cbn [bind].
    destruct (bool_decide_reflect (sn = so)) as [Heq|Hne]; cbn [negb].
    { by intros [= <-]. }
    intros H.
    pose proof (accept_list_written_cleared_fields_exact S st sn) as Hw.
    cbv zeta in Hw. rewrite HS in Hw.
    destruct (bool_decide (sn = [])); injection H as <-;
      (apply Hw; [intros [= <-]; apply Hne; congruence|done|done]).
  - cbn [bind]. intros H.
    pose proof (accept_list_written_cleared_fields_exact S st sn) as Hw.
    cbv zeta in Hw. rewrite HS in Hw.
    destruct (bool_decide (sn = [])); injection H as <-;
      (apply Hw; done).
Qed.

(** One pruning pass over a list field whose name is not in
    [cleared_fields] yet. *)
Lemma pass_marks_emptied_list {A} (f : A -> bool) (o : option (list A))
    (name : string) (cf : list string) :
  name ∉ cf ->
  let cleaned := List.filter f <$> o in
  let changed :=
    negb (bool_decide (length (default [] cleaned) = length (default [] o)))
  in
  let cf' :=
    if changed
    then mark_cleared name (bool_decide (default [] cleaned = [])) cf
    else cf in
  (NoDup cf -> NoDup cf')
  /\ (forall x, x ∈ cf'
                <-> x ∈ cf \/ (x = name /\ cleaned = Some [] /\ o <> Some [])).
Proof.
  intros Hout.
  destruct o as [l|]; cbn [fmap option_fmap option_map from_option id].
  2: { cbv zeta. rewrite bool_decide_true by done. cbn [negb].
       split; [done|]. intros x. split; [auto|]. by intros [?|(_ & ? & _)]. }
  cbv zeta.
  destruct (bool_decide_reflect (length (List.filter f l) = length l))
    as [Hlen|Hlen]; cbn [negb].
  { split; [done|]. intros x. split; [auto|].
    intros [?|(_ & [= Hempty] & Hne)]; [done|].
    apply filter_length_same in Hlen. congruence. }
  destruct (bool_decide_reflect (List.filter f l = [])) as [Hempty|Hempty].
  - destruct (mark_cleared_empty name cf) as ([_ Hnd] & _ & Happ).
    cbv zeta in Hnd, Happ. rewrite (Happ Hout). split.
    + intros ?. rewrite <- (Happ Hout). auto.
    + intros x. rewrite elem_of_list_append. split.
      * intros [?| ->]; [auto|]. right. repeat split; [by rewrite Hempty|].
        intros [= ->]. by apply Hlen.
      * intros [?|(-> & _)]; auto.
  - destruct (mark_cleared_nonempty name cf) as (_ & Hsame).
    cbv zeta in Hsame. rewrite (Hsame Hout). split; [done|].
    intros x. split; [auto|]. intros [?|(_ & [= ?] & _)]; done.
Qed.

Lemma pruning_pass_cleared_fields_exact S st updated sa' cf' :
  st.(UpdateHelper.replacement).(messages.consumerAcceptLists)
  = S.(messages.consumerAcceptLists) ->
  st.(UpdateHelper.replacement).(messages.consumerRejectLists)
  = S.(messages.consumerRejectLists) ->
  UpdateHelper._RemoveObsoleteEndpointEntries
    st.(UpdateHelper.replacement) [] = (updated, sa', cf') ->
  cleared_fields_exact S
    (UpdateHelper.set_is_updated updated
       (UpdateHelper.set_cleared_fields cf'
          (UpdateHelper.set_replacement sa' st))).
Proof.
  intros Ha Hr. rewrite _RemoveObsoleteEndpointEntries_closed. cbv zeta.
  unfold accept_entries, reject_entries.
  set (ids := service_attachments_utils.GetConnectedEndpointIds _).
  intros [= _ <- <-].
  unfold cleared_fields_exact. store_simpl. cbv zeta.
  rewrite Ha, Hr.
  destruct (pass_marks_emptied_list
              (service_attachments_utils.keep_accepted ids)
              (messages.consumerAcceptLists S) consumerAcceptLists_name [])
    as [Hnd1 Hin1]; [apply not_elem_of_nil|].
  cbv zeta in Hnd1, Hin1.
  set (cf1 := if negb (bool_decide (length (default [] (List.filter
                 (service_attachments_utils.keep_accepted ids)
                 <$> messages.consumerAcceptLists S))
               = length (default [] (messages.consumerAcceptLists S))))
              then _ else _) in *.
  assert (Hout : consumerRejectLists_name ∉ cf1).
  { rewrite Hin1. intros [Hnil|(Hname & _)]; [by apply elem_of_nil in Hnil|].
    by apply names_differ. }
  destruct (pass_marks_emptied_list
              (service_attachments_utils.keep_rejected ids)
              (messages.consumerRejectLists S) consumerRejectLists_name cf1
              Hout) as [Hnd2 Hin2].
  cbv zeta in Hnd2, Hin2.
  split; [apply Hnd2, Hnd1, NoDup_nil_2|].
  split; [|split].
  - intros name. rewrite Hin2, Hin1.
    intros [[Hnil|(-> & _)]|(-> & _)]; auto. by apply elem_of_nil in Hnil.
  - rewrite Hin2, Hin1. split.
    + intros [[Hnil|(_ & ? & ?)]|(Hname & _)]; [|done|].
      * by apply elem_of_nil in Hnil.
      * by apply names_differ in Hname.
    + intros [? ?]. left. right. done.
  - rewrite Hin2, Hin1. split.
    + intros [[Hnil|(Hname & _)]|(_ & ? & ?)]; [| |done].
      * by apply elem_of_nil in Hnil.
      * symmetry in Hname. by apply names_differ in Hname.
    + intros [? ?]. right. done.
Qed.

Lemma _Modify_body_cleared_fields_exact int support args S st :
  UpdateHelper._Modify_body int support args (UpdateHelper.enter S []) = Ok st ->
  cleared_fields_exact S st.
Proof.
  intros Hbody.
  destruct (_Modify_body_stores _ _ _ _ _ _ Hbody)
    as (st7 & st8 & H7 & H8 & -> & W7 & W8 & Ho7 & Ho8).
  set (st0 := UpdateHelper.enter S []) in *.
  assert (Hinv0 : cleared_fields_exact S st0).
  { unfold cleared_fields_exact. cbn. split; [apply NoDup_nil_2|].
    split; [by intros name Hnil%elem_of_nil|].
    split; (split; [by intros Hnil%elem_of_nil|tauto]). }
  unfold before_accept_list in H7, W7.
  set (s5 := UpdateHelper.modify_nat_subnets args _) in *.
  assert (Hf5 : forall f, f = F_consumerAcceptLists \/ f = F_consumerRejectLists ->
                  same_field f (UpdateHelper.replacement st0)
                    (UpdateHelper.replacement s5)).
  { intros f [-> | ->]; unfold s5; carry_field. }
  assert (Ho5 : UpdateHelper.old_resource s5 = S).
  { unfold s5.
    rewrite (proj1 (modify_nat_subnets_only_writes args _)),
      (proj1 (modify_enable_proxy_protocol_only_writes args _)),
      (proj1 (modify_connection_preference_only_writes args _)),
      (proj1 (modify_description_only_writes args _)),
      (proj1 (modify_target_service_only_writes args _)). done. }
  assert (Hinv5 : cleared_fields_exact S s5).
  { apply (cleared_fields_exact_kept S st0); [|by apply Hf5; auto ..|done].
    apply before_reject_list_cleared_fields. }
  set (s6 := UpdateHelper.modify_consumer_reject_list args s5) in *.
  assert (Hinv6 : cleared_fields_exact S s6).
  { apply modify_consumer_reject_list_cleared_fields_exact; try done.
    apply (Hf5 F_consumerRejectLists). by right. }
  assert (Ho6 : UpdateHelper.old_resource s6 = S).
  { unfold s6.
    by rewrite (proj1 (modify_consumer_reject_list_only_writes args _)). }
  assert (Hinv7 : cleared_fields_exact S st7).
  { apply (modify_consumer_accept_list_cleared_fields_exact S _ _ _ _ _
             Ho6) in H7; try done.
    change (same_field F_consumerAcceptLists S (UpdateHelper.replacement s6)).
    eapply same_field_step;
      [apply (Hf5 F_consumerAcceptLists); by left
      |apply modify_consumer_reject_list_only_writes
      |field_not_written]. }
  assert (Hinv8 : cleared_fields_exact S st8).
  { destruct (modify_remove_obsolete_cases _ _ _ _ H8)
      as [[_ ->]|(_ & Hacc & Hrej & updated & sa' & cf' & Hrun & ->)];
      [done|].
    assert (H7' : UpdateHelper.modify_consumer_accept_list int support args
                    (before_accept_list args st0) = Ok st7) by exact H7.
    destruct (lists_before_pruning _ _ _ _ _ Hacc Hrej H7')
      as (Hcf7 & Ha7 & Hr7).
    cbn in Hcf7, Ha7, Hr7. rewrite Hcf7 in Hrun.
    by apply pruning_pass_cleared_fields_exact. }
  apply (cleared_fields_exact_kept S st8); [| | |done].
  - apply after_pruning_cleared_fields.
  - carry_field.
  - carry_field.
Qed.

(** X17.  The field names passed to [IncludeFields] with a Patch request are
    exactly the lists the request empties: there is no duplicate and no
    other name, and [consumerAcceptLists] ([consumerRejectLists]) is named
    exactly when the list is [[]] in the replacement and was not already
    [[]] in the fetched resource. *)
Theorem cleared_fields_name_exactly_the_emptied_lists
    (int : string -> option Z) (support : bool) (args : Namespace)
    (old_resource replacement : messages.ServiceAttachment)
    (cleared_fields : list string) :
  UpdateHelper.Run int support args old_resource
  = Ok (UpdateHelper.PatchRequest replacement cleared_fields) ->
  NoDup cleared_fields
  /\ (forall name, name ∈ cleared_fields ->
        name = "consumerAcceptLists" \/ name = "consumerRejectLists")
  /\ ("consumerAcceptLists" ∈ cleared_fields
      <-> replacement.(messages.consumerAcceptLists) = Some []
          /\ old_resource.(messages.consumerAcceptLists) <> Some [])
  /\ ("consumerRejectLists" ∈ cleared_fields
      <-> replacement.(messages.consumerRejectLists) = Some []
          /\ old_resource.(messages.consumerRejectLists) <> Some []).
Proof.
  intros (st & Hbody & _ & <- & <-)%Run_patch_inv.
  apply (_Modify_body_cleared_fields_exact _ _ _ _ _ Hbody).
Qed.

Lemma cleared_fields_name_exactly_the_emptied_lists_witness :
  "consumerRejectLists" ∈ ["consumerRejectLists"]
  <-> messages.consumerRejectLists
        (assign.consumerRejectLists (Some []) attachment_1) = Some []
      /\ messages.consumerRejectLists attachment_1 <> Some [].
Proof.
  destruct (cleared_fields_name_exactly_the_emptied_lists int_decimal true
              (args_reject [] false) attachment_1
              (assign.consumerRejectLists (Some []) attachment_1)
              ["consumerRejectLists"]) as (_ & _ & _ & Hreject).
  - vm_compute. reflexivity.
  - exact Hreject.
Defined.

(** ** Real changes are sent *)

Local Ltac stays_updated :=
  intros Hu;
  repeat match goal with
         | |- context [match ?x with Some _ => _ | None => _ end] =>
             destruct x
         | |- context [if ?b then _ else _] => destruct b
         end; cbn; try done.

Lemma modify_description_stays_updated args st :
  st.(UpdateHelper.is_updated) = true ->
  (UpdateHelper.modify_description args st).(UpdateHelper.is_updated) = true.
Proof. unfold UpdateHelper.modify_description. stays_updated. Qed.

Lemma modify_connection_preference_stays_updated args st :
  st.(UpdateHelper.is_updated) = true ->
  (UpdateHelper.modify_connection_preference args st)
    .(UpdateHelper.is_updated) = true.
Proof.
  unfold UpdateHelper.modify_connection_preference.
  intros Hu. destruct (connection_preference args); [|done].
  by destruct (negb _).
Qed.

Lemma modify_enable_proxy_protocol_stays_updated args st :
  st.(UpdateHelper.is_updated) = true ->
  (UpdateHelper.modify_enable_proxy_protocol args st)
    .(UpdateHelper.is_updated) = true.
Proof. unfold UpdateHelper.modify_enable_proxy_protocol. stays_updated. Qed.

Lemma modify_nat_subnets_stays_updated args st :
  st.(UpdateHelper.is_updated) = true ->
  (UpdateHelper.modify_nat_subnets args st).(UpdateHelper.is_updated) = true.
Proof. unfold UpdateHelper.modify_nat_subnets. stays_updated. Qed.

Lemma modify_consumer_reject_list_stays_updated args st :
  st.(UpdateHelper.is_updated) = true ->
  (UpdateHelper.modify_consumer_reject_list args st)
    .(UpdateHelper.is_updated) = true.
Proof. unfold UpdateHelper.modify_consumer_reject_list. stays_updated. Qed.

Lemma modify_reconcile_connections_stays_updated args st :
  st.(UpdateHelper.is_updated) = true ->
  (UpdateHelper.modify_reconcile_connections args st)
    .(UpdateHelper.is_updated) = true.
Proof. unfold UpdateHelper.modify_reconcile_connections. stays_updated. Qed.

Lemma modify_propagated_connection_limit_stays_updated args st :
  st.(UpdateHelper.is_updated) = true ->
  (UpdateHelper.modify_propagated_connection_limit args st)
    .(UpdateHelper.is_updated) = true.
Proof.
  unfold UpdateHelper.modify_propagated_connection_limit. stays_updated.
Qed.

Lemma modify_consumer_accept_list_stays_updated int support args st st' :
  UpdateHelper.modify_consumer_accept_list int support args st = Ok st' ->
  st.(UpdateHelper.is_updated) = true ->
  st'.(UpdateHelper.is_updated) = true.
Proof.
  intros H Hu.
  destruct (modify_consumer_accept_list_compares _ _ _ _ _ H)
    as [->|(_ & ? & _)]; done.
Qed.

Lemma modify_remove_obsolete_stays_updated support args st st' :
  pruning_requested support args = false ->
  UpdateHelper.modify_remove_obsolete support args st = Ok st' ->
  st.(UpdateHelper.is_updated) = true ->
  st'.(UpdateHelper.is_updated) = true.
Proof.
  intros Hp H Hu.
  destruct (modify_remove_obsolete_cases _ _ _ _ H) as [[_ ->]|[Hp' _]];
    [done|congruence].
Qed.

Local Ltac through_one_step :=
  first
    [ apply modify_propagated_connection_limit_stays_updated
    | apply modify_reconcile_connections_stays_updated
    | apply modify_consumer_reject_list_stays_updated
    | apply modify_nat_subnets_stays_updated
    | apply modify_enable_proxy_protocol_stays_updated
    | apply modify_connection_preference_stays_updated
    | apply modify_description_stays_updated ].

Local Ltac through_the_steps := repeat through_one_step.

Local Ltac old_resource_of_prefix :=
  rewrite ?(proj1 (modify_consumer_reject_list_only_writes _ _)),
    ?(proj1 (modify_nat_subnets_only_writes _ _)),
    ?(proj1 (modify_enable_proxy_protocol_only_writes _ _)),
    ?(proj1 (modify_connection_preference_only_writes _ _)),
    ?(proj1 (modify_description_only_writes _ _)),
    ?(proj1 (modify_target_service_only_writes _ _)).

Lemma _Modify_body_records_changes int support args S cf st :
  pruning_requested support args = false ->
  asks_for_a_change int support args S ->
  UpdateHelper._Modify_body int support args (UpdateHelper.enter S cf) = Ok st ->
  st.(UpdateHelper.is_updated) = true.
Proof.
  intros Hp Hchange Hbody.
  destruct (_Modify_body_stores _ _ _ _ _ _ Hbody)
    as (st7 & st8 & H7 & H8 & -> & _ & _ & Ho7 & Ho8).
  set (st0 := UpdateHelper.enter S cf) in *.
  assert (Hlate : UpdateHelper.is_updated st7 = true
                  \/ UpdateHelper.is_updated
                       (UpdateHelper.modify_propagated_connection_limit args
                          (UpdateHelper.modify_reconcile_connections args st8))
                     = true).
  2: { destruct Hlate as [Hu|Hu]; [|done]. through_the_steps.
       by apply (modify_remove_obsolete_stays_updated _ _ _ _ Hp H8). }
  assert (Hearly : UpdateHelper.is_updated (before_accept_list args st0) = true
                   -> UpdateHelper.is_updated st7 = true).
  { by apply (modify_consumer_accept_list_stays_updated _ _ _ _ _ H7). }
  destruct Hchange
    as [[t Ht]|[(d & Hd & Hne)|[([t Ht] & Hne)|[(b & Hb & Hne)|[(l & Hl & Hne)|
        [(l & Hl & Hne)|[([ds Hds] & Hne)|[(b & Hb & Hne)|(n & Hn & Hne)]]]]]]]].
  - left. apply Hearly. unfold before_accept_list. through_the_steps.
    unfold UpdateHelper.modify_target_service. by rewrite Ht.
  - left. apply Hearly. unfold before_accept_list. do 4 through_one_step.
    unfold UpdateHelper.modify_description at 1. rewrite Hd.
    old_resource_of_prefix. cbn [UpdateHelper.old_resource st0 UpdateHelper.enter].
    by rewrite bool_decide_false.
  - left. apply Hearly. unfold before_accept_list. do 3 through_one_step.
    unfold UpdateHelper.modify_connection_preference at 1. rewrite Ht.
    old_resource_of_prefix. cbn [UpdateHelper.old_resource st0 UpdateHelper.enter].
    by rewrite bool_decide_false.
  - left. apply Hearly. unfold before_accept_list. do 2 through_one_step.
    unfold UpdateHelper.modify_enable_proxy_protocol at 1. rewrite Hb.
    old_resource_of_prefix. cbn [UpdateHelper.old_resource st0 UpdateHelper.enter].
    by rewrite bool_decide_false.
  - left. apply Hearly. unfold before_accept_list. through_one_step.
    unfold UpdateHelper.modify_nat_subnets at 1. rewrite Hl.
    unfold UpdateHelper._GetNatSubnets. rewrite Hl.
    old_resource_of_prefix. cbn [UpdateHelper.old_resource st0 UpdateHelper.enter].
    destruct (messages.natSubnets S) as [l'|]; [|done].
    rewrite bool_decide_false; [done|].
    intros Hs%sorted_str_eq_perm. by apply (Hne l').
  - left. apply Hearly. unfold before_accept_list.
    unfold UpdateHelper.modify_consumer_reject_list at 1. rewrite Hl.
    old_resource_of_prefix. cbn [UpdateHelper.old_resource st0 UpdateHelper.enter].
    destruct (messages.consumerRejectLists S) as [l'|].
    + rewrite bool_decide_false.
      * by destruct (bool_decide _).
      * intros Hs%sorted_str_eq_perm. by apply (Hne l').
    + by destruct (bool_decide _).
  - left. revert H7. unfold UpdateHelper.modify_consumer_accept_list.
    rewrite Hds.
    destruct (UpdateHelper._GetConsumerAcceptList int support args)
      as [new|] eqn:Hnew; [|done]. cbn [bind].
    destruct (sorted_by_key _ new) as [sn|] eqn:Hsn; [|done]. cbn [bind].
    unfold before_accept_list at 1. old_resource_of_prefix.
    cbn [UpdateHelper.old_resource st0 UpdateHelper.enter].
    destruct (messages.consumerAcceptLists S) as [l'|] eqn:HS.
    + destruct (sorted_by_key _ l') as [so|] eqn:Hso; [|done]. cbn [bind].
      rewrite bool_decide_false.
      * cbn [negb]. destruct (bool_decide _); by intros [= <-].
      * intros <-. apply (Hne new l' eq_refl eq_refl).
        by apply (sorted_by_key_same_perm _ _ _ _ Hsn Hso).
    + cbn [bind]. destruct (bool_decide _); by intros [= <-].
  - right. through_one_step.
    unfold UpdateHelper.modify_reconcile_connections. rewrite Hb, Ho8.
    by rewrite bool_decide_false.
  - right. unfold UpdateHelper.modify_propagated_connection_limit.
    rewrite Hn.
    rewrite (proj1 (modify_reconcile_connections_only_writes _ _)), Ho8.
    by rewrite bool_decide_false.
Qed.

(** X18.  As long as the pruning pass does not run, an override that asks for a
    value the fetched resource does not hold is never dropped: if [Run]
    does not fail, it sends a Patch request. *)
Theorem real_changes_are_sent_without_pruning
    (int : string -> option Z) (support : bool) (args : Namespace)
    (old_resource : messages.ServiceAttachment)
    (outcome : UpdateHelper.outcome) :
  pruning_requested support args = false ->
  asks_for_a_change int support args old_resource ->
  UpdateHelper.Run int support args old_resource = Ok outcome ->
  exists replacement cleared_fields,
    outcome = UpdateHelper.PatchRequest replacement cleared_fields.
Proof.
  intros Hp Hchange. rewrite Run_eq.
  destruct (UpdateHelper._Modify_body _ _ _ _) as [st|] eqn:Hbody;
    cbn [bind]; [|done].
  rewrite (_Modify_body_records_changes _ _ _ _ _ _ Hp Hchange Hbody).
  intros [= <-]. by eexists _, _.
Qed.

Lemma real_changes_are_sent_without_pruning_witness :
  exists replacement cleared_fields,
    UpdateHelper.PatchRequest
      (assign.description (Some "new") attachment_1) []
    = UpdateHelper.PatchRequest replacement cleared_fields.
Proof.
  apply (real_changes_are_sent_without_pruning int_decimal true
           args_description attachment_1).
  - reflexivity.
  - right. left. exists "new". split; [reflexivity|discriminate].
  - vm_compute. reflexivity.
Defined.

(** ** The order of the entries given *)

(** X19.  The NAT subnets and the reject list are sorted before they are
    compared or written, so the order in which their entries are given
    does not matter: [Run] does exactly the same for any two orders. *)
Theorem list_overrides_are_order_independent
    (int : string -> option Z) (support : bool) (args : Namespace)
    (old_resource : messages.ServiceAttachment)
    (nat1 nat2 reject1 reject2 : list string) :
  nat1 ≡ₚ nat2 -> reject1 ≡ₚ reject2 ->
  UpdateHelper.Run int support (with_lists nat1 reject1 args) old_resource
  = UpdateHelper.Run int support (with_lists nat2 reject2 args) old_resource.
Proof.
  intros Hnat%sorted_str_perm_eq Hrej%sorted_str_perm_eq.
  rewrite !Run_eq. f_equal.
  unfold UpdateHelper._Modify_body. cbv zeta.
  assert (Hbefore :
            before_accept_list (with_lists nat1 reject1 args)
              (UpdateHelper.enter old_resource [])
            = before_accept_list (with_lists nat2 reject2 args)
                (UpdateHelper.enter old_resource [])).
  { unfold before_accept_list, UpdateHelper.modify_consumer_reject_list,
      UpdateHelper.modify_nat_subnets, UpdateHelper._GetNatSubnets.
    cbn [with_lists nat_subnets consumer_reject_list].
    by rewrite Hnat, Hrej. }
  unfold before_accept_list in Hbefore. rewrite Hbefore. reflexivity.
Qed.

Lemma list_overrides_are_order_independent_witness :
  UpdateHelper.Run int_decimal true
    (with_lists ["s2"; "s1"] ["b"; "a"; "c"] no_args) attachment_1
  = UpdateHelper.Run int_decimal true
      (with_lists ["s1"; "s2"] ["c"; "b"; "a"] no_args) attachment_1.
Proof.
  apply list_overrides_are_order_independent.
  - apply perm_swap.
  - symmetry. apply (Permutation_cons_append ["b"; "a"] "c").
Defined.

(** ** The pruning pass and the overrides before it *)

Lemma nothing_obsolete_same_fields sa sa' :
  same_field F_consumerAcceptLists sa sa' ->
  same_field F_consumerRejectLists sa sa' ->
  same_field F_connectedEndpoints sa sa' ->
  nothing_obsolete sa -> nothing_obsolete sa'.
Proof.
  cbn [same_field]. intros Ha Hr He. unfold nothing_obsolete. cbv zeta.
  rewrite (GetConnectedEndpointIds_same_endpoints _ _ He).
  unfold accept_entries, reject_entries. by rewrite Ha, Hr.
Qed.

(** X20.  When the pruning pass runs it decides alone whether the
    statements before it count as an update.  If it finds nothing
    obsolete, and neither reconcile-connections nor the propagated
    connection limit then asks for another value, [Run] sends nothing and
    returns the fetched resource, whatever the target, description,
    connection preference, proxy protocol and NAT subnets overrides
    were. *)
Theorem pruning_pass_without_obsolete_entries_sends_nothing
    (int : string -> option Z) (args : Namespace)
    (old_resource : messages.ServiceAttachment) :
  args.(remove_obsolete_endpoint_accept_reject_entries) = true ->
  args.(consumer_accept_list) = None ->
  args.(consumer_reject_list) = None ->
  nothing_obsolete old_resource ->
  (forall b, args.(reconcile_connections) = Some b ->
             old_resource.(messages.reconcileConnections) = Some b) ->
  (forall n, args.(propagated_connection_limit) = Some n ->
             old_resource.(messages.propagatedConnectionLimit) = Some n) ->
  UpdateBeta.Run int args old_resource
  = Ok (UpdateHelper.ReturnOldResource old_resource).
Proof.
  intros Hflag Hacc Hrej Hclean Hrc Hpcl.
  unfold UpdateBeta.Run, UpdateBeta._support_endpoint_based_security_arg.
  rewrite Run_eq. unfold UpdateHelper._Modify_body. cbv zeta.
  set (st0 := UpdateHelper.enter old_resource []).
  fold (before_accept_list args st0).
  set (s6 := before_accept_list args st0).
  assert (H7 : UpdateHelper.modify_consumer_accept_list int true args s6
               = Ok s6).
  { unfold UpdateHelper.modify_consumer_accept_list. by rewrite Hacc. }
  rewrite H7. cbn [bind].
  destruct (lists_before_pruning _ _ _ _ _ Hacc Hrej H7) as (Hcf & Ha & Hr).
  assert (He : same_field F_connectedEndpoints
                 (UpdateHelper.replacement st0) (UpdateHelper.replacement s6)).
  { unfold s6, before_accept_list. carry_field. }
  assert (Ho6 : UpdateHelper.old_resource s6 = old_resource).
  { apply before_accept_list_old_resource. }
  unfold UpdateHelper.modify_remove_obsolete.
  rewrite Hflag, Hacc, Hrej. cbn [andb].
  rewrite !bool_decide_false by (intros [? ?]; discriminate). cbn [orb].
  destruct (UpdateHelper._RemoveObsoleteEndpointEntries _ _)
    as [[updated sa'] cf'] eqn:Hrun.
  destruct (_RemoveObsoleteEndpointEntries_flag _ _ _ _ _ Hrun)
    as [Hiff Hsame].
  assert (Hu : updated = false).
  { apply Hiff. by apply (nothing_obsolete_same_fields old_resource). }
  destruct (Hsame Hu) as [-> ->]. subst updated. cbn [bind].
  rewrite modify_reconcile_connections_same
    by (cbn [UpdateHelper.old_resource UpdateHelper.set_is_updated
             UpdateHelper.set_cleared_fields UpdateHelper.set_replacement];
        by rewrite Ho6).
  rewrite modify_propagated_connection_limit_same
    by (cbn [UpdateHelper.old_resource UpdateHelper.set_is_updated
             UpdateHelper.set_cleared_fields UpdateHelper.set_replacement];
        by rewrite Ho6).
  cbn [bind UpdateHelper.is_updated UpdateHelper.set_is_updated
       UpdateHelper.old_resource UpdateHelper.set_cleared_fields
       UpdateHelper.set_replacement].
  by rewrite Ho6.
Qed.

Lemma pruning_pass_without_obsolete_entries_sends_nothing_witness :
  UpdateBeta.Run int_decimal args_description_and_pruning attachment_1
  = Ok (UpdateHelper.ReturnOldResource attachment_1).
Proof.
  apply pruning_pass_without_obsolete_entries_sends_nothing;
    try reflexivity; try discriminate.
  destruct (_RemoveObsoleteEndpointEntries_flag attachment_1 [] false
              attachment_1 []) as [Hiff _].
  - vm_compute. reflexivity.
  - by apply Hiff.
Defined.

(** ** The tracks compared *)

Lemma insort_key_ext {A K} (ltb : K -> K -> bool) (key1 key2 : A -> K) x l :
  key1 x = key2 x -> (forall y, y ∈ l -> key1 y = key2 y) ->
  insort ltb key1 x l = insort ltb key2 x l.
Proof.
  intros Hx. induction l as [|y l IH]; intros Hl; simpl; [done|].
  rewrite Hx, (Hl y) by by left. rewrite IH; [done|].
  intros z Hz. apply Hl. by right.
Qed.

Lemma stable_sort_key_ext {A K} (ltb : K -> K -> bool) (key1 key2 : A -> K) l :
  (forall y, y ∈ l -> key1 y = key2 y) ->
  stable_sort ltb key1 l = stable_sort ltb key2 l.
Proof.
  induction l as [|x l IH]; intros Hl; simpl; [done|].
  fold (stable_sort ltb key1 l). fold (stable_sort ltb key2 l).
  rewrite <- IH by (intros y Hy; apply Hl; by right).
  apply insort_key_ext; [apply Hl; by left|].
  intros y Hy. rewrite stable_sort_perm in Hy. apply Hl. by right.
Qed.

Lemma all_comparable_key_ext {A} (key1 key2 : A -> limit_key) l :
  (forall y, y ∈ l -> key1 y = key2 y) ->
  all_comparable key1 l = all_comparable key2 l.
Proof.
  intros Hl. unfold all_comparable.
  apply eq_true_iff_eq. rewrite !forallb_forall.
  split; intros H x Hx; specialize (H x Hx); rewrite forallb_forall in *;
    intros y Hy; specialize (H y Hy);
    apply list_elem_of_In in Hx, Hy;
    by rewrite ?(Hl x Hx), ?(Hl y Hy) in *.
Qed.

Lemma sorted_by_key_key_ext {A} (key1 key2 : A -> limit_key) l :
  (forall y, y ∈ l -> key1 y = key2 y) ->
  sorted_by_key key1 l = sorted_by_key key2 l.
Proof.
  intros Hl. unfold sorted_by_key.
  by rewrite (all_comparable_key_ext _ _ _ Hl),
    (stable_sort_key_ext _ _ _ _ Hl).
Qed.

Lemma keys_agree_without_endpoint e :
  e.(messages.endpointUrl) = None ->
  UpdateHelper._GetProjectOrNetworkOrEndpoint e
  = UpdateHelper._GetProjectOrNetwork e.
Proof.
  intros H. unfold UpdateHelper._GetProjectOrNetworkOrEndpoint,
    UpdateHelper._GetProjectOrNetwork. by rewrite H.
Qed.

Lemma basic_form_has_no_endpoint int args out :
  service_attachments_utils.GetConsumerAcceptList int args = Ok out ->
  forall e, e ∈ out -> e.(messages.endpointUrl) = None.
Proof.
  intros Hout e He.
  pose proof (_GetConsumerAcceptList_shaped int false args out Hout) as Hs.
  cbn in Hs. rewrite Forall_forall in Hs.
  by destruct (Hs e He) as (k & n & [[_ ->]|[_ ->]]).
Qed.

Lemma extended_form_extends_basic_form int args out :
  int "" = None ->
  service_attachments_utils.GetConsumerAcceptList int args = Ok out ->
  service_attachments_utils.GetConsumerAcceptListWithEndpointBasedSecurity
    int args = Ok out.
Proof.
  intros Hint.
  unfold service_attachments_utils.GetConsumerAcceptList,
    service_attachments_utils.GetConsumerAcceptListWithEndpointBasedSecurity.
  destruct (consumer_accept_list args) as [dicts|]; [|done].
  rewrite !for_each_nested. apply for_each_ok_mono.
  intros item t t'. by apply accept_list_entry_ebs_extends.
Qed.

(** X21.  Where the GA command succeeds, the beta command does the same:
    without the pruning flag, on a fetched accept list free of endpoint
    URLs, and with an accept-list override (if any) that the basic-form
    normalizer accepts, both commands return the same outcome. *)
Theorem beta_track_agrees_with_GA_on_GA_input
    (int : string -> option Z) (args : Namespace)
    (old_resource : messages.ServiceAttachment) :
  int "" = None ->
  args.(remove_obsolete_endpoint_accept_reject_entries) = false ->
  (forall e, e ∈ accept_entries old_resource ->
             e.(messages.endpointUrl) = None) ->
  (args.(consumer_accept_list) = None
   \/ exists out,
        service_attachments_utils.GetConsumerAcceptList int args = Ok out) ->
  UpdateBeta.Run int args old_resource = Update.Run int args old_resource.
Proof.
  intros Hint Hflag Hold Hnew.
  unfold UpdateBeta.Run, Update.Run,
    UpdateBeta._support_endpoint_based_security_arg,
    Update._support_endpoint_based_security_arg.
  rewrite !Run_eq. f_equal. unfold UpdateHelper._Modify_body. cbv zeta.
  set (st0 := UpdateHelper.enter old_resource []).
  fold (before_accept_list args st0).
  set (s6 := before_accept_list args st0).
  assert (Ho6 : UpdateHelper.old_resource s6 = old_resource).
  { apply before_accept_list_old_resource. }
  assert (H7 : UpdateHelper.modify_consumer_accept_list int true args s6
               = UpdateHelper.modify_consumer_accept_list int false args s6).
  { unfold UpdateHelper.modify_consumer_accept_list.
    destruct (consumer_accept_list args) as [dicts|] eqn:Hargs; [|done].
    destruct Hnew as [?|[out Hout]]; [done|].
    unfold UpdateHelper._GetConsumerAcceptList.
    rewrite (extended_form_extends_basic_form _ _ _ Hint Hout), Hout.
    cbn [bind].
    rewrite (sorted_by_key_key_ext
               (UpdateHelper._GetProjectOrNetworkOrEndpointBasedOnArg true)
               (UpdateHelper._GetProjectOrNetworkOrEndpointBasedOnArg false)
               out).
    2: { intros e He. apply keys_agree_without_endpoint.
         by apply (basic_form_has_no_endpoint int args out). }
    destruct (sorted_by_key _ out) as [sn|]; [|done]. cbn [bind].
    rewrite Ho6.
    destruct (messages.consumerAcceptLists old_resource) as [old_list|]
      eqn:HS; [|done].
    rewrite (sorted_by_key_key_ext
               (UpdateHelper._GetProjectOrNetworkOrEndpointBasedOnArg true)
               (UpdateHelper._GetProjectOrNetworkOrEndpointBasedOnArg false)
               old_list); [done|].
    intros e He. apply keys_agree_without_endpoint, Hold.
    unfold accept_entries. by rewrite HS. }
  rewrite H7.
  destruct (UpdateHelper.modify_consumer_accept_list int false args s6)
    as [st7|]; cbn [bind]; [|done].
  unfold UpdateHelper.modify_remove_obsolete. rewrite Hflag. reflexivity.
Qed.

Lemma beta_track_agrees_with_GA_on_GA_input_witness :
  UpdateBeta.Run int_decimal
    (args_accept [[("projects/p3", Some "30")]] false) attachment_1
  = Update.Run int_decimal
      (args_accept [[("projects/p3", Some "30")]] false) attachment_1.
Proof.
  apply beta_track_agrees_with_GA_on_GA_input.
  - reflexivity.
  - reflexivity.
  - intros e He. unfold accept_entries, attachment_1 in He. cbn in He.
    apply elem_of_cons in He as [->|He]; [done|].
    apply elem_of_cons in He as [->|He]; [done|].
    by apply elem_of_nil in He.
  - right. eexists. vm_compute. reflexivity.
Defined.

(** ** Overrides that change nothing (claims C2 and C6) *)

Local Ltac old_resource_of_steps :=
  rewrite ?(proj1 (modify_propagated_connection_limit_only_writes _ _)),
    ?(proj1 (modify_reconcile_connections_only_writes _ _)),
    ?(proj1 (modify_consumer_reject_list_only_writes _ _)),
    ?(proj1 (modify_nat_subnets_only_writes _ _)),
    ?(proj1 (modify_enable_proxy_protocol_only_writes _ _)),
    ?(proj1 (modify_connection_preference_only_writes _ _)),
    ?(proj1 (modify_description_only_writes _ _)),
    ?(proj1 (modify_target_service_only_writes _ _)).

Lemma modify_remove_obsolete_skipped support args st :
  pruning_requested support args = false ->
  UpdateHelper.modify_remove_obsolete support args st = Ok st.
Proof.
  unfold pruning_requested, UpdateHelper.modify_remove_obsolete.
  by intros ->.
Qed.

Lemma Run_ok_with_list_override int support args old o :
  is_Some args.(consumer_accept_list) \/ is_Some args.(consumer_reject_list) ->
  UpdateHelper.Run int support args old = Ok o ->
  pruning_requested support args = false.
Proof.
  intros Hlists. rewrite Run_eq.
  destruct (UpdateHelper._Modify_body _ _ _ _) as [st|] eqn:Hbody;
    cbn [bind]; [|done].
  intros _.
  destruct (_Modify_body_stores _ _ _ _ _ _ Hbody)
    as (st7 & st8 & _ & H8 & _).
  by destruct (modify_remove_obsolete_not_run _ _ _ _ Hlists H8).
Qed.

(** An override that asks for the value the fetched resource holds is as
    good as not given. *)
Lemma Run_without_unchanged_override int support args old f :
  override_unchanged int support f args old ->
  (f = F_consumerRejectLists \/ f = F_consumerAcceptLists ->
   pruning_requested support args = false) ->
  UpdateHelper.Run int support args old
  = UpdateHelper.Run int support (without_override f args) old.
Proof.
  intros Hsame Hp. rewrite !Run_eq. f_equal.
  unfold UpdateHelper._Modify_body. cbv zeta.
  set (st0 := UpdateHelper.enter old []).
  destruct f; cbn [override_unchanged] in Hsame; try done.
  - destruct Hsame as (d & Harg & Hold).
    rewrite (modify_description_same args
               (UpdateHelper.modify_target_service args st0)); [reflexivity|].
    intros d' Hd'. old_resource_of_steps. cbn. congruence.
  - destruct Hsame as (_ & Hold).
    rewrite (modify_connection_preference_same args
               (UpdateHelper.modify_description args
                  (UpdateHelper.modify_target_service args st0)));
      [reflexivity|].
    intros token _. old_resource_of_steps. by cbn.
  - destruct Hsame as (b & Harg & Hold).
    rewrite (modify_enable_proxy_protocol_same args
               (UpdateHelper.modify_connection_preference args
                  (UpdateHelper.modify_description args
                     (UpdateHelper.modify_target_service args st0))));
      [reflexivity|].
    intros b' Hb'. old_resource_of_steps. cbn. congruence.
  - destruct Hsame as (l & old_list & Harg & Hold & Hs).
    rewrite (modify_nat_subnets_same args
               (UpdateHelper.modify_enable_proxy_protocol args
                  (UpdateHelper.modify_connection_preference args
                     (UpdateHelper.modify_description args
                        (UpdateHelper.modify_target_service args st0)))));
      [reflexivity|].
    intros l' Hl'. old_resource_of_steps. cbn. exists old_list.
    split; [done|]. congruence.
  - destruct Hsame as (l & old_list & Harg & Hold & Hs).
    specialize (Hp (or_introl eq_refl)).
    rewrite (modify_consumer_reject_list_same args
               (UpdateHelper.modify_nat_subnets args
                  (UpdateHelper.modify_enable_proxy_protocol args
                     (UpdateHelper.modify_connection_preference args
                        (UpdateHelper.modify_description args
                           (UpdateHelper.modify_target_service args st0))))));
      [|intros l' Hl'; old_resource_of_steps; cbn; exists old_list;
        split; [done|]; congruence].
    unfold UpdateHelper.modify_remove_obsolete.
    cbn [without_override remove_obsolete_endpoint_accept_reject_entries].
    unfold pruning_requested in Hp. rewrite Hp. reflexivity.
  - destruct Hsame as (new & old_list & sn & Harg & Hnew & Hold & Hsn & Hso).
    specialize (Hp (or_intror eq_refl)).
    fold (before_accept_list args st0).
    rewrite (modify_consumer_accept_list_same int support args
               (before_accept_list args st0)).
    2: { intros dicts _. exists new, sn, old_list.
         rewrite before_accept_list_old_resource. by cbn. }
    cbn [bind]. unfold UpdateHelper.modify_remove_obsolete.
    cbn [without_override remove_obsolete_endpoint_accept_reject_entries].
    unfold pruning_requested in Hp. rewrite Hp. reflexivity.
  - destruct Hsame as (b & Harg & Hold).
    fold (before_accept_list args st0).
    fold (before_accept_list (without_override F_reconcileConnections args)
            st0).
    change (before_accept_list (without_override F_reconcileConnections args)
              st0) with (before_accept_list args st0).
    change (UpdateHelper.modify_consumer_accept_list int support
              (without_override F_reconcileConnections args))
      with (UpdateHelper.modify_consumer_accept_list int support args).
    destruct (UpdateHelper.modify_consumer_accept_list int support args _)
      as [st7|] eqn:H7; cbn [bind]; [|done].
    change (UpdateHelper.modify_remove_obsolete support
              (without_override F_reconcileConnections args) st7)
      with (UpdateHelper.modify_remove_obsolete support args st7).
    destruct (UpdateHelper.modify_remove_obsolete support args st7)
      as [st8|] eqn:H8; cbn [bind]; [|done].
    rewrite (modify_reconcile_connections_same args st8); [reflexivity|].
    intros b' Hb'.
    rewrite (proj1 (modify_remove_obsolete_only_writes _ _ _ _ H8)),
      (proj1 (modify_consumer_accept_list_only_writes _ _ _ _ _ H7)),
      before_accept_list_old_resource.
    cbn. congruence.
  - destruct Hsame as (n & Harg & Hold).
    fold (before_accept_list args st0).
    fold (before_accept_list
            (without_override F_propagatedConnectionLimit args) st0).
    change (before_accept_list
              (without_override F_propagatedConnectionLimit args) st0)
      with (before_accept_list args st0).
    change (UpdateHelper.modify_consumer_accept_list int support
              (without_override F_propagatedConnectionLimit args))
      with (UpdateHelper.modify_consumer_accept_list int support args).
    destruct (UpdateHelper.modify_consumer_accept_list int support args _)
      as [st7|] eqn:H7; cbn [bind]; [|done].
    change (UpdateHelper.modify_remove_obsolete support
              (without_override F_propagatedConnectionLimit args) st7)
      with (UpdateHelper.modify_remove_obsolete support args st7).
    destruct (UpdateHelper.modify_remove_obsolete support args st7)
      as [st8|] eqn:H8; cbn [bind]; [|done].
    rewrite (modify_propagated_connection_limit_same args
               (UpdateHelper.modify_reconcile_connections args st8));
      [reflexivity|].
    intros n' Hn'.
    rewrite (proj1 (modify_reconcile_connections_only_writes _ _)),
      (proj1 (modify_remove_obsolete_only_writes _ _ _ _ H8)),
      (proj1 (modify_consumer_accept_list_only_writes _ _ _ _ _ H7)),
      before_accept_list_old_resource.
    cbn. congruence.
Qed.

(** C2.  For every override other than the target: when the override is
    specified and its new value equals the value of the fetched resource
    (value equality for the scalar fields, equality of the two sorted lists
    for the repeated fields), a replacement that is sent has the field as
    it was fetched, and [Run] does what it does without the override (for
    the two lists, when the pruning pass is not requested: requested with a
    list override it is the conflicting-arguments error).  Two orders of
    the same entries are such an unchanged override, for the subnets, the
    reject list and the accept list (where sorting either succeeds on both
    sides or raises TypeError).  The target is not compared: when it is
    specified it is written, and unless the pruning pass is requested a
    [Run] that returns has sent a Patch request. *)
Theorem C2_unchanged_overrides_are_skipped
    (int : string -> option Z) (support : bool) (args : Namespace)
    (old_resource : messages.ServiceAttachment) :
  (forall f,
      override_unchanged int support f args old_resource ->
      (forall replacement cleared_fields,
          UpdateHelper.Run int support args old_resource
          = Ok (UpdateHelper.PatchRequest replacement cleared_fields) ->
          same_field f old_resource replacement)
      /\ ((f = F_consumerRejectLists \/ f = F_consumerAcceptLists ->
           pruning_requested support args = false) ->
          UpdateHelper.Run int support args old_resource
          = UpdateHelper.Run int support (without_override f args)
              old_resource))
  /\ (forall l old_list,
      args.(nat_subnets) = Some l ->
      old_resource.(messages.natSubnets) = Some old_list ->
      l ≡ₚ old_list ->
      override_unchanged int support F_natSubnets args old_resource)
  /\ (forall l old_list,
      args.(consumer_reject_list) = Some l ->
      old_resource.(messages.consumerRejectLists) = Some old_list ->
      l ≡ₚ old_list ->
      override_unchanged int support F_consumerRejectLists args old_resource)
  /\ (forall new old_list,
      is_Some args.(consumer_accept_list) ->
      UpdateHelper._GetConsumerAcceptList int support args = Ok new ->
      old_resource.(messages.consumerAcceptLists) = Some old_list ->
      new ≡ₚ old_list ->
      override_unchanged int support F_consumerAcceptLists args old_resource
      \/ UpdateHelper.Run int support args old_resource = Raise TypeError)
  /\ (forall target,
      args.(target_service) = Some target ->
      (forall replacement cleared_fields,
          UpdateHelper.Run int support args old_resource
          = Ok (UpdateHelper.PatchRequest replacement cleared_fields) ->
          replacement.(messages.targetService) = Some target)
      /\ (pruning_requested support args = false ->
          forall outcome,
            UpdateHelper.Run int support args old_resource = Ok outcome ->
            exists replacement cleared_fields,
              outcome
              = UpdateHelper.PatchRequest replacement cleared_fields)).
Proof.
  repeat apply conj.
  - intros f Hsame. split; [|by apply Run_without_unchanged_override].
    intros rep cf Hrun.
    assert (Hp : f = F_consumerRejectLists \/ f = F_consumerAcceptLists ->
                 pruning_requested support args = false).
    { intros Hf. apply (Run_ok_with_list_override _ _ _ _ _) in Hrun; [done|].
      destruct Hf as [-> | ->]; cbn [override_unchanged] in Hsame.
      - destruct Hsame as (l & ? & Harg & _). right. by eexists.
      - destruct Hsame as (? & ? & ? & Harg & _). by left. }
    rewrite (Run_without_unchanged_override _ _ _ _ _ Hsame Hp) in Hrun.
    apply Run_patch_inv in Hrun as (st & Hbody & _ & <- & _).
    apply _Modify_body_frame in Hbody as (_ & Hfields & _).
    destruct Hfields
      as (H1 & H2 & H3 & H4 & H5 & H6 & H7 & H8 & H9 & H10 & H11).
    destruct f; cbn [override_unchanged] in Hsame; try done;
      cbn [same_field].
    + by apply H2.
    + by apply H3.
    + by apply H4.
    + by apply H5.
    + apply H6; [done|]. apply Hp. by left.
    + apply H7; [done|]. apply Hp. by right.
    + by apply H8.
    + by apply H9.
  - intros l old_list Harg Hold Hperm. exists l, old_list.
    repeat split; try done. by apply sorted_str_perm_eq.
  - intros l old_list Harg Hold Hperm. exists l, old_list.
    repeat split; try done. by apply sorted_str_perm_eq.
  - intros new old_list Harg Hnew Hold Hperm.
    pose proof (new_accept_list_order_free _ _ _ _ _ Hnew Hperm) as Hsort.
    destruct (sorted_by_key _ new) as [sn|e] eqn:Hsn.
    + left. exists new, old_list, sn. by repeat split.
    + right. pose proof (sorted_by_key_error _ _ _ Hsn) as ->.
      apply Run_raise, _Modify_body_accept_list_raises.
      unfold UpdateHelper.modify_consumer_accept_list.
      destruct Harg as [dicts ->]. rewrite Hnew. cbn [bind].
      by rewrite Hsn.
  - intros target Harg. split.
    + intros rep cf (st & Hbody & _ & <- & _)%Run_patch_inv.
      destruct (_Modify_body_overrides _ _ _ _ _ _ Hbody) as (H1 & _).
      by apply H1.
    + intros Hp o. rewrite Run_eq.
      destruct (UpdateHelper._Modify_body _ _ _ _) as [st|] eqn:Hbody;
        cbn [bind]; [|done].
      rewrite (_Modify_body_records_changes _ _ _ _ _ _ Hp
                 (or_introl (ex_intro _ target Harg)) Hbody).
      intros [= <-]. by eexists _, _.
Qed.

(** The example of the specification: the reject list [b, a] given again
    as [a, b]. *)
Lemma C2_unchanged_overrides_are_skipped_witness :
  UpdateHelper.Run int_decimal false args_reject_reordered attachment_1
  = Ok (UpdateHelper.ReturnOldResource attachment_1).
Proof.
  destruct (C2_unchanged_overrides_are_skipped int_decimal false
              args_reject_reordered attachment_1)
    as (Hskip & _ & Hreject & _).
  destruct (Hskip F_consumerRejectLists) as [_ Hrun].
  - apply (Hreject ["a"; "b"] ["b"; "a"]);
      [reflexivity|reflexivity|apply Permutation_swap].
  - apply Hrun. intros _. reflexivity.
Defined.


